(** * Website auditor agent: a shallow embedding of the request core

    The development follows the JavaScript sources of the repository:
    - [pages/api/run-audit.js]   (rate limiter, SSRF check, handler),
    - [lib/fetcher.js]           (timeout-bounded fetch),
    - [lib/perf.js]              (performance analyzer result shape),
    - [lib/ai.js]                (provider chain and evidence fallback),
    - [lib/storage.js]           (per-record audit store),
    - [pages/api/chat-analyst.js] (layered audit lookup).

    Conventions.  JavaScript numbers that the code uses as integers
    (timestamps in milliseconds, counters, scores, HTTP statuses) are [Z].
    A JavaScript string is a [string], read code unit by code unit: a
    character of the model is a UTF-16 code unit below 256, so the model
    holds the strings made of such code units, and length, slicing, white
    space, letter case and character classes are those of JavaScript on
    them.  (A dash or an arrow in a constant message of the sources, which
    lies beyond that range, is written as its UTF-8 bytes; such messages are
    only compared with each other.)  A [Map] or a directory of files is a
    [gmap].  A call that may throw returns an [Outcome]; every [try]/[catch]
    of the sources is an explicit [catch] in the model.  What the outside
    world answers (DNS, HTTP, the clock, the URL parser, the JSON codec, the
    members of the engine's built-in prototypes) is an argument of the
    function that asks for it. *)

From Stdlib Require Import ZArith QArith Qround String Ascii List Bool Lia.
From stdpp Require Import gmap strings list fin_maps.

#[local] Set Warnings "-register-all".

Local Open Scope Z_scope.

(** ** Exceptions *)

Inductive Outcome (A : Type) : Type :=
| Ret (a : A)
| Throw (msg : string).
Arguments Ret {A} a.
Arguments Throw {A} msg.

Definition obind {A B} (m : Outcome A) (k : A -> Outcome B) : Outcome B :=
  match m with
  | Ret a => k a
  | Throw e => Throw e
  end.

(** [try { m } catch { h }] *)
Definition catch {A} (m : Outcome A) (h : string -> Outcome A) : Outcome A :=
  match m with
  | Ret a => Ret a
  | Throw e => h e
  end.

Definition returns {A} (m : Outcome A) : Prop := exists a, m = Ret a.

(** ** The fixed-window rate limiter of run-audit.js *)

Module RateLimiter.

Definition RATE_LIMIT_WINDOW_MS : Z := 60000.
Definition RATE_LIMIT_MAX : Z := 10.

Record RateWindow := { count : Z; windowStart : Z }.

(** [{ allowed: true, remaining }] or [{ allowed: false, retryAfter }];
    [retryAfter] is a number of seconds, the quotient of milliseconds by
    1000. *)
Inductive RateResult :=
| Allowed (remaining : Z)
| Denied (retryAfter : Q).

Definition allowed (r : RateResult) : bool :=
  match r with Allowed _ => true | Denied _ => false end.

(** [rateLimit(ip)] with [Date.now()] passed in as [now].  [rec] is the
    object stored in the [Map], so [rec.count++] changes the stored record
    on the denying path as well, where the source does not call
    [limiter.set]. *)
Definition rateLimit (now : Z) (ip : string) (limiter : gmap string RateWindow)
  : RateResult * gmap string RateWindow :=
  match limiter !! ip with
  | None =>
      (Allowed (RATE_LIMIT_MAX - 1),
       <[ip := {| count := 1; windowStart := now |}]> limiter)
  | Some rec =>
      if now - windowStart rec >? RATE_LIMIT_WINDOW_MS then
        (Allowed (RATE_LIMIT_MAX - 1),
         <[ip := {| count := 1; windowStart := now |}]> limiter)
      else
        let rec' := {| count := count rec + 1; windowStart := windowStart rec |} in
        let limiter' := <[ip := rec']> limiter in
        if count rec' >? RATE_LIMIT_MAX then
          (Denied ((windowStart rec' + RATE_LIMIT_WINDOW_MS - now) # 1000), limiter')
        else
          (Allowed (RATE_LIMIT_MAX - count rec'), limiter')
  end.

(** A run of the limiter over a sequence of requests [(ip, now)], oldest
    first, as successive calls of the handler make them. *)
Fixpoint serve (reqs : list (string * Z)) (limiter : gmap string RateWindow)
  : list RateResult * gmap string RateWindow :=
  match reqs with
  | [] => ([], limiter)
  | (ip, now) :: rest =>
      let '(r, limiter') := rateLimit now ip limiter in
      let '(rs, limiter'') := serve rest limiter' in
      (r :: rs, limiter'')
  end.

(** The answer to the [n]-th request of a window that started at [t0],
    made at time [t]. *)
Definition verdict (t0 : Z) (n : Z) (t : Z) : RateResult :=
  if n >? RATE_LIMIT_MAX
  then Denied ((t0 + RATE_LIMIT_WINDOW_MS - t) # 1000)
  else Allowed (RATE_LIMIT_MAX - n).

(** How many of the first [i] requests of [reqs] come from [ip]. *)
Definition earlier (ip : string) (reqs : list (string * Z)) (i : nat) : Z :=
  Z.of_nat (length (filter (fun r => r.1 = ip) (take i reqs))).

(** The next request of [ip] at time [t0] starts a window. *)
Definition opens_window (limiter : gmap string RateWindow) (ip : string) (t0 : Z) : Prop :=
  match limiter !! ip with
  | None => True
  | Some rec => t0 - windowStart rec > RATE_LIMIT_WINDOW_MS
  end.

End RateLimiter.

(** ** The address classification of ipaddr.js

    run-audit.js classifies addresses with the third-party package
    ipaddr.js, which is not part of the repository.  The definitions below
    restate the package's [matchCIDR], [subnetMatch], [SpecialRanges]
    tables (releases 1.9 - 2.0), [range], [isIPv4MappedAddress] and
    [toIPv4Address], so that [isPrivateAddress] can be run on addresses. *)

Module IpAddr.

(** An [IPv4] object holds four octets, an [IPv6] object eight 16-bit parts. *)
Inductive Address :=
| IPv4 (octets : list Z)
| IPv6 (parts : list Z).

Definition kind (a : Address) : string :=
  match a with IPv4 _ => "ipv4" | IPv6 _ => "ipv6" end.

Definition wf (a : Address) : Prop :=
  match a with
  | IPv4 o => length o = 4%nat /\ Forall (fun x => 0 <= x < 256) o
  | IPv6 p => length p = 8%nat /\ Forall (fun x => 0 <= x < 65536) p
  end.

(** [matchCIDR(first, second, partSize, cidrBits)]: compare the leading
    [cidrBits] bits, part by part. *)
Fixpoint matchCIDR (first second : list Z) (partSize cidrBits : Z) : bool :=
  match first, second with
  | f :: first', s :: second' =>
      if cidrBits >? 0 then
        let shift := Z.max 0 (partSize - cidrBits) in
        if Z.shiftr f shift =? Z.shiftr s shift
        then matchCIDR first' second' partSize (cidrBits - partSize)
        else false
      else true
  | _, _ => true
  end.

(** [address.match([subnet, bits])]; [subnetMatch] only calls it on two
    addresses of the same kind. *)
Definition matches (a : Address) (subnet : Address * Z) : bool :=
  match a, subnet with
  | IPv4 o, (IPv4 o', bits) => matchCIDR o o' 8 bits
  | IPv6 p, (IPv6 p', bits) => matchCIDR p p' 16 bits
  | _, _ => false
  end.

Definition SpecialRanges4 : list (string * list (Address * Z)) :=
  [ ("unspecified", [(IPv4 [0; 0; 0; 0], 8)]);
    ("broadcast", [(IPv4 [255; 255; 255; 255], 32)]);
    ("multicast", [(IPv4 [224; 0; 0; 0], 4)]);
    ("linkLocal", [(IPv4 [169; 254; 0; 0], 16)]);
    ("loopback", [(IPv4 [127; 0; 0; 0], 8)]);
    ("carrierGradeNat", [(IPv4 [100; 64; 0; 0], 10)]);
    ("private", [(IPv4 [10; 0; 0; 0], 8);
                 (IPv4 [172; 16; 0; 0], 12);
                 (IPv4 [192; 168; 0; 0], 16)]);
    ("reserved", [(IPv4 [192; 0; 0; 0], 24);
                  (IPv4 [192; 0; 2; 0], 24);
                  (IPv4 [192; 88; 99; 0], 24);
                  (IPv4 [198; 18; 0; 0], 15);
                  (IPv4 [198; 51; 100; 0], 24);
                  (IPv4 [203; 0; 113; 0], 24);
                  (IPv4 [240; 0; 0; 0], 4)]) ].

Definition SpecialRanges6 : list (string * list (Address * Z)) :=
  [ ("unspecified", [(IPv6 [0; 0; 0; 0; 0; 0; 0; 0], 128)]);
    ("linkLocal", [(IPv6 [65152; 0; 0; 0; 0; 0; 0; 0], 10)]);
    ("multicast", [(IPv6 [65280; 0; 0; 0; 0; 0; 0; 0], 8)]);
    ("loopback", [(IPv6 [0; 0; 0; 0; 0; 0; 0; 1], 128)]);
    ("uniqueLocal", [(IPv6 [64512; 0; 0; 0; 0; 0; 0; 0], 7)]);
    ("ipv4Mapped", [(IPv6 [0; 0; 0; 0; 0; 65535; 0; 0], 96)]);
    ("rfc6145", [(IPv6 [0; 0; 0; 0; 65535; 0; 0; 0], 96)]);
    ("rfc6052", [(IPv6 [100; 65435; 0; 0; 0; 0; 0; 0], 96)]);
    ("6to4", [(IPv6 [8194; 0; 0; 0; 0; 0; 0; 0], 16)]);
    ("teredo", [(IPv6 [8193; 0; 0; 0; 0; 0; 0; 0], 32)]);
    ("reserved", [(IPv6 [8193; 3512; 0; 0; 0; 0; 0; 0], 32)]) ].

(** [subnetMatch(address, rangeList, defaultName)]: the first range name,
    in table order, one of whose subnets contains the address. *)
Fixpoint subnetMatch (a : Address) (rangeList : list (string * list (Address * Z)))
    (defaultName : string) : string :=
  match rangeList with
  | [] => defaultName
  | (rangeName, subnets) :: rest =>
      if existsb (matches a) subnets then rangeName
      else subnetMatch a rest defaultName
  end.

Definition range (a : Address) : string :=
  match a with
  | IPv4 _ => subnetMatch a SpecialRanges4 "unicast"
  | IPv6 _ => subnetMatch a SpecialRanges6 "unicast"
  end.

Definition isIPv4MappedAddress (a : Address) : bool :=
  String.eqb (range a) "ipv4Mapped".

(** [toIPv4Address()], which throws unless the address is IPv4-mapped:
    the last two parts give the four octets. *)
Definition toIPv4Address (a : Address) : Outcome Address :=
  match a with
  | IPv6 p =>
      if isIPv4MappedAddress a then
        let high := nth 6 p 0 in
        let low := nth 7 p 0 in
        Ret (IPv4 [Z.shiftr high 8; Z.land high 255; Z.shiftr low 8; Z.land low 255])
      else Throw "trying to convert a generic ipv6 address to ipv4"
  | IPv4 _ => Throw "toIPv4Address is not a function"
  end.

End IpAddr.

(** ** The SSRF check of run-audit.js *)

Module SafeResolver.
Import IpAddr.

(** One entry of the array that [dns.lookup(hostname, { all: true })]
    resolves to, seen through [ipaddr.parse(a.address)]: the parsed address,
    or the exception [parse] throws on a text that is no address. *)
Definition LookupAddress : Type := Outcome Address.

(** [array.includes(x)] on an array of strings. *)
Definition includes (l : list string) (x : string) : bool :=
  existsb (String.eqb x) l.

(** The callback given to [addrs.some].  An IPv4-mapped IPv6 address has
    range "ipv4Mapped", which is not in the first list; it is then turned
    into its IPv4 form, printed and parsed again (giving the same octets),
    and that form is checked against the second, two-element list.  Any
    exception is swallowed by the inner [catch] and the callback returns
    [false]. *)
Definition addressIsPrivate (a : LookupAddress) : bool :=
  match a with
  | Throw _ => false
  | Ret parsed =>
      if includes ["private"; "loopback"; "linkLocal"; "carrierGradeNat"; "uniqueLocal"]
                  (range parsed)
      then true
      else if String.eqb (kind parsed) "ipv6" && isIPv4MappedAddress parsed then
        match toIPv4Address parsed with
        | Ret p2 => includes ["private"; "loopback"] (range p2)
        | Throw _ => false
        end
      else false
  end.

(** [isPrivateAddress(hostname)].  [lookup] is the answer of
    [dns.lookup]: the resolved addresses, or the rejection of the promise.
    The outer [catch] turns a rejection into [false]. *)
Definition isPrivateAddress (lookup : string -> Outcome (list LookupAddress))
    (hostname : string) : Outcome bool :=
  catch (obind (lookup hostname) (fun addrs => Ret (existsb addressIsPrivate addrs)))
        (fun _ => Ret false).

(** The ranges the specification lists as disallowed. *)
Definition disallowedRanges : list string :=
  ["loopback"; "private"; "linkLocal"; "uniqueLocal"; "carrierGradeNat"].

(** The classification the specification describes: an IPv4-mapped IPv6
    address is unwrapped and its IPv4 form is classified against the same
    ranges as any other address. *)
Definition specDisallowed (a : Address) : bool :=
  match toIPv4Address a with
  | Ret v4 => includes disallowedRanges (range v4)
  | Throw _ => includes disallowedRanges (range a)
  end.

End SafeResolver.

(** ** Strings *)

(** [s.includes(sub)]: [sub] occurs in [s] as a contiguous substring. *)
Fixpoint js_includes (s sub : string) : bool :=
  String.prefix sub s ||
  match s with
  | EmptyString => false
  | String _ s' => js_includes s' sub
  end.

(** The decimal digits of an integer, as [String(n)] prints them. *)
Definition digit (n : N) : ascii := ascii_of_N (48 + n).

Fixpoint print_pos (fuel : nat) (n : N) (acc : string) : string :=
  match fuel with
  | O => acc
  | S fuel' =>
      let acc' := String (digit (n mod 10)) acc in
      if (n / 10 =? 0)%N then acc' else print_pos fuel' (n / 10)%N acc'
  end.

(** [String(n)] for an integer [n]. *)
Definition print_Z (n : Z) : string :=
  let digits := print_pos (S (N.to_nat (N.log2 (Z.abs_N n)))) (Z.abs_N n) EmptyString in
  if n <? 0 then String "-" digits else digits.

(** [l.join(sep)] *)
Fixpoint join (sep : string) (l : list string) : string :=
  match l with
  | [] => EmptyString
  | [x] => x
  | x :: rest => x +:+ sep +:+ join sep rest
  end.

(** The white space and line terminators that [trim] removes, among the
    code units below 256: tab, line feed, vertical tab, form feed, carriage
    return, space and the no-break space U+00A0.  (The others, U+FEFF,
    U+1680, U+2000 to U+200A, U+2028, U+2029, U+202F, U+205F and U+3000, are
    code units above 255.) *)
Definition is_space (c : ascii) : bool :=
  let n := N_of_ascii c in
  ((9 <=? n) && (n <=? 13) || (n =? 32) || (n =? 160))%N.

Fixpoint trimStart (s : string) : string :=
  match s with
  | String c rest => if is_space c then trimStart rest else s
  | EmptyString => s
  end.

Fixpoint trimEnd (s : string) : string :=
  match s with
  | EmptyString => EmptyString
  | String c rest =>
      match trimEnd rest with
      | EmptyString => if is_space c then EmptyString else String c EmptyString
      | rest' => String c rest'
      end
  end.

(** [s.trim()] *)
Definition trim (s : string) : string := trimEnd (trimStart s).

(** [s.split(sep)] for a one-character separator. *)
Fixpoint split (sep : ascii) (s : string) : list string :=
  match s with
  | EmptyString => [EmptyString]
  | String c s' =>
      if Ascii.eqb c sep then EmptyString :: split sep s'
      else match split sep s' with
           | piece :: rest => String c piece :: rest
           | [] => [String c EmptyString]
           end
  end.

(** ** The timeout-bounded fetch of lib/fetcher.js *)

Module Fetcher.

Definition DEFAULT_TIMEOUT : Z := 10000.

(** What undici's [fetch] resolves to, as far as the wrapper looks at it.
    [headers] maps lower-cased header names to values, as a [Headers] object
    does; [body] is what [res.text()] settles to. *)
Record Response := {
  res_status : Z;
  res_headers : gmap string string;
  res_url : string;
  res_body : Outcome string
}.

(** [res.ok]: the status is in the range 200-299. *)
Definition res_ok (res : Response) : bool :=
  (200 <=? res_status res) && (res_status res <=? 299).

(** What the network does with the request: it fails, or it answers with
    the response headers after [latency] milliseconds. *)
Inductive Network :=
| NetworkError (msg : string)
| Answers (latency : Z) (res : Response).

(** [opts.signal]: absent, or a signal of the caller that fires after the
    given number of milliseconds ([None]: never). *)
Definition CallerSignal : Type := option (option Z).

Record FetchResult := {
  ok : bool;
  status : Z;
  headers : gmap string string;
  url : string;
  text : option string;
  elapsed : Z
}.

(** The signal the request runs under: the caller's if there is one,
    otherwise the wrapper's own, which fires after [msTimeout]. *)
Definition abortAfter (signal : CallerSignal) (msTimeout : Z) : option Z :=
  match signal with
  | Some callers => callers
  | None => Some msTimeout
  end.

Definition aborted (signal : CallerSignal) (msTimeout latency : Z) : bool :=
  match abortAfter signal msTimeout with
  | Some t => t <=? latency
  | None => false
  end.

(** [await fetch(url, opts)] *)
Definition fetch (net : Network) (signal : CallerSignal) (msTimeout : Z)
  : Outcome (Z * Response) :=
  match net with
  | NetworkError msg => Throw msg
  | Answers latency res =>
      if aborted signal msTimeout latency then Throw "AbortError"
      else Ret (latency, res)
  end.

(** The content types whose body is read. *)
Definition textLike (ct : string) : bool :=
  js_includes ct "text" || js_includes ct "json" ||
  js_includes ct "html" || js_includes ct "xml".

(** [fetchWithTimeout(url, opts, msTimeout)].  The [try]/[finally] only
    clears the timer, so what [fetch] throws goes on to the caller; the inner
    [try]/[catch] around the body read leaves [text] at [null]. *)
Definition fetchWithTimeout (net : Network) (signal : CallerSignal) (msTimeout : Z)
  : Outcome FetchResult :=
  obind (fetch net signal msTimeout) (fun '(elapsed, res) =>
    let ct := default "" (res_headers res !! "content-type") in
    let text :=
      if textLike ct then
        match res_body res with
        | Ret t => Some t
        | Throw _ => None
        end
      else None in
    Ret {| ok := res_ok res; status := res_status res; headers := res_headers res;
           url := res_url res; text := text; elapsed := elapsed |}).

End Fetcher.

(** ** JSON values and the JSON codec *)

(** The values [JSON.parse] produces.  Numbers are the integers the audit
    records hold (scores, counts, milliseconds); the fields of an object are
    kept in property order. *)
Inductive json :=
| JNull
| JBool (b : bool)
| JNum (n : Z)
| JStr (s : string)
| JArr (items : list json)
| JObj (fields : list (string * json)).

(** [if (v)] *)
Definition truthy (v : json) : bool :=
  match v with
  | JNull => false
  | JBool b => b
  | JNum n => negb (n =? 0)
  | JStr s => negb (String.eqb s "")
  | JArr _ | JObj _ => true
  end.

Fixpoint assoc {A} (k : string) (fields : list (string * A)) : option A :=
  match fields with
  | [] => None
  | (k', v) :: rest => if String.eqb k k' then Some v else assoc k rest
  end.

(** The element of [items] whose index, counted from [i], prints as [k]. *)
Fixpoint at_index {A} (i : Z) (items : list A) (k : string) : option A :=
  match items with
  | [] => None
  | x :: rest => if String.eqb k (print_Z i) then Some x else at_index (i + 1) rest k
  end.

Fixpoint chars (s : string) : list string :=
  match s with
  | EmptyString => []
  | String c rest => String c EmptyString :: chars rest
  end.

(** The own property [k] of [v]: a field of an object, an element or the
    length of an array, a character or the length of a string; [None] when
    [v] has no such property of its own.  This is what [v.name] gives for
    the names the sources write out ([meta], [siteId], [url], [auditId],
    [answer], [summary], [citations], [suggestedActions], [recommendations],
    [urgency]), none of which is a member of a built-in prototype; a read
    [v[k]] under a key the caller chooses is [js_get] below. *)
Definition js_own (v : json) (k : string) : option json :=
  match v with
  | JObj fields => assoc k fields
  | JArr items =>
      if String.eqb k "length" then Some (JNum (Z.of_nat (length items)))
      else at_index 0 items k
  | JStr s =>
      if String.eqb k "length" then Some (JNum (Z.of_nat (String.length s)))
      else JStr <$> at_index 0 (chars s) k
  | _ => None
  end.

(** *** Properties inherited from the built-in prototypes

    A value that [JSON.parse] made inherits from [Object.prototype], and an
    array, a string, a number and a boolean first from the prototype of their
    kind.  Which names these prototypes define depends on the engine that
    runs the code (ECMAScript adds methods to [Array.prototype] and
    [String.prototype] from edition to edition), so the table is an argument:
    [E p k] tells whether the prototype [p] has a property named [k]. *)
Inductive Proto :=
| ObjectPrototype
| ArrayPrototype
| StringPrototype
| NumberPrototype
| BooleanPrototype.

Definition Engine : Type := Proto -> string -> bool.

(** The prototypes [v] inherits from, nearest first; [null] has none. *)
Definition prototypes (v : json) : list Proto :=
  match v with
  | JNull => []
  | JBool _ => [BooleanPrototype; ObjectPrototype]
  | JNum _ => [NumberPrototype; ObjectPrototype]
  | JStr _ => [StringPrototype; ObjectPrototype]
  | JArr _ => [ArrayPrototype; ObjectPrototype]
  | JObj _ => [ObjectPrototype]
  end.

(** What a property read gives: a JSON value, or the member [k] of the
    prototype [p], which is a built-in function (for [constructor],
    [toString], [hasOwnProperty], ...) or, for [__proto__], the prototype
    object of the value read from. *)
Inductive jsval :=
| Plain (v : json)
| Member (p : Proto) (k : string).

(** [if (x)]: functions and objects are truthy. *)
Definition vtruthy (x : jsval) : bool :=
  match x with
  | Plain v => truthy v
  | Member _ _ => true
  end.

(** [v[k]] on a value other than [null]: the own property when there is
    one, else the member of the nearest prototype that has one of that name,
    else [undefined]. *)
Definition js_get (E : Engine) (v : json) (k : string) : option jsval :=
  match js_own v k with
  | Some x => Some (Plain x)
  | None => (fun p => Member p k) <$> List.find (fun p => E p k) (prototypes v)
  end.

(** The string-named members of the built-in prototypes in Node.js 20
    (ECMAScript 2024 with its Annex B).  The theorems hold for every table;
    this one serves to run the code. *)
Module SampleEngine.

Definition objectMembers : list string :=
  ["constructor"; "__defineGetter__"; "__defineSetter__"; "hasOwnProperty";
   "__lookupGetter__"; "__lookupSetter__"; "isPrototypeOf"; "propertyIsEnumerable";
   "toString"; "valueOf"; "__proto__"; "toLocaleString"].

Definition arrayMembers : list string :=
  ["length"; "constructor"; "at"; "concat"; "copyWithin"; "fill"; "find"; "findIndex";
   "findLast"; "findLastIndex"; "lastIndexOf"; "pop"; "push"; "reverse"; "shift";
   "unshift"; "slice"; "sort"; "splice"; "includes"; "indexOf"; "join"; "keys";
   "entries"; "values"; "forEach"; "filter"; "flat"; "flatMap"; "map"; "every"; "some";
   "reduce"; "reduceRight"; "toLocaleString"; "toString"; "toReversed"; "toSorted";
   "toSpliced"; "with"].

Definition stringMembers : list string :=
  ["length"; "constructor"; "anchor"; "at"; "big"; "blink"; "bold"; "charAt";
   "charCodeAt"; "codePointAt"; "concat"; "endsWith"; "fontcolor"; "fontsize"; "fixed";
   "includes"; "indexOf"; "isWellFormed"; "italics"; "lastIndexOf"; "link";
   "localeCompare"; "match"; "matchAll"; "normalize"; "padEnd"; "padStart"; "repeat";
   "replace"; "replaceAll"; "search"; "slice"; "small"; "split"; "strike"; "sub";
   "substr"; "substring"; "sup"; "startsWith"; "toString"; "toWellFormed"; "trim";
   "trimStart"; "trimLeft"; "trimEnd"; "trimRight"; "toLocaleLowerCase";
   "toLocaleUpperCase"; "toLowerCase"; "toUpperCase"; "valueOf"].

Definition numberMembers : list string :=
  ["constructor"; "toExponential"; "toFixed"; "toPrecision"; "toString"; "valueOf";
   "toLocaleString"].

Definition booleanMembers : list string := ["constructor"; "toString"; "valueOf"].

Definition membersOf (p : Proto) : list string :=
  match p with
  | ObjectPrototype => objectMembers
  | ArrayPrototype => arrayMembers
  | StringPrototype => stringMembers
  | NumberPrototype => numberMembers
  | BooleanPrototype => booleanMembers
  end.

Definition engine : Engine := fun p k => existsb (String.eqb k) (membersOf p).

(** The property names that the sources write out. *)
Definition writtenNames : list string :=
  ["meta"; "siteId"; "url"; "auditId"; "answer"; "summary"; "citations";
   "suggestedActions"; "recommendations"; "urgency"].

End SampleEngine.

(** [if (o)] on a value that may be [undefined]. *)
Definition otruthy (o : option json) : bool :=
  match o with
  | Some v => truthy v
  | None => false
  end.

Fixpoint indexed {A} (i : Z) (items : list A) : list (string * A) :=
  match items with
  | [] => []
  | x :: rest => (print_Z i, x) :: indexed (i + 1) rest
  end.

(** [Object.entries(v)] *)
Definition entries (v : json) : list (string * json) :=
  match v with
  | JObj fields => fields
  | JArr items => indexed 0 items
  | JStr s => indexed 0 (JStr <$> chars s)
  | _ => []
  end.

Fixpoint set_field {A} (k : string) (x : A) (fields : list (string * A)) : list (string * A) :=
  match fields with
  | [] => [(k, x)]
  | (k', v) :: rest =>
      if String.eqb k k' then (k, x) :: rest else (k', v) :: set_field k x rest
  end.

(** [JSON.parse], which throws on malformed text, and [JSON.stringify].
    The functions of the store are written over any such pair. *)
Record Codec := {
  JSON_parse : string -> Outcome json;
  JSON_stringify : json -> string
}.

(** A value survives a trip through the codec. *)
Definition serializable (J : Codec) (v : json) : Prop :=
  JSON_parse J (JSON_stringify J v) = Ret v.

(** ** Paths and the file system *)

(** A path is the list of its segments below [process.cwd()]. *)
Abbreviation Path := (list string).

(** The pieces of a string between the "/" separators. *)
Definition segments (s : string) : list string := split "/" s.

(** [path.normalize] on segments: empty and "." segments vanish, ".."
    removes the segment before it (and stays when there is none).  [stack]
    holds the segments kept so far, last first. *)
Fixpoint normalize (stack : list string) (segs : list string) : Path :=
  match segs with
  | [] => rev stack
  | s :: rest =>
      if String.eqb s "" || String.eqb s "." then normalize stack rest
      else if String.eqb s ".." then
        match stack with
        | top :: stack' =>
            if String.eqb top ".." then normalize (s :: stack) rest
            else normalize stack' rest
        | [] => normalize [s] rest
        end
      else normalize (s :: stack) rest
  end.

(** [path.join(dir, name)] for a normalized [dir]. *)
Definition path_join (dir : Path) (name : string) : Path :=
  normalize (rev dir) (segments name).

(** [file + ext] on the path string: the extension goes on the last segment. *)
Fixpoint add_ext (p : Path) (ext : string) : Path :=
  match p with
  | [] => [ext]
  | [s] => [(s +:+ ext)]
  | s :: rest => s :: add_ext rest ext
  end.

Definition parent (p : Path) : Path := removelast p.

Inductive Node :=
| File (content : string)
| Dir.

Inductive Level := LogWarn | LogError.

(** A change made to the files by one call. *)
Inductive Change :=
| Wrote (p : Path) (data : string)
| Renamed (src dst : Path)
| MadeDirs (p : Path).

(** The state of the host: the files, what [console.warn] and
    [console.error] have printed (the tag of each message), and two records
    kept for the proofs: [journal] lists the changes made to the files,
    oldest first, and [touched] the paths handed to the file system. *)
Record Disk := {
  files : gmap Path Node;
  console : list (Level * string);
  journal : list Change;
  touched : list Path
}.

Definition FS (A : Type) : Type := Disk -> Outcome A * Disk.

Definition fs_ret {A} (a : A) : FS A := fun d => (Ret a, d).

Definition fs_throw {A} (e : string) : FS A := fun d => (Throw e, d).

Definition fs_bind {A B} (m : FS A) (k : A -> FS B) : FS B :=
  fun d =>
    match m d with
    | (Ret a, d') => k a d'
    | (Throw e, d') => (Throw e, d')
    end.

(** [try { m } catch (e) { h e }] *)
Definition fs_catch {A} (m : FS A) (h : string -> FS A) : FS A :=
  fun d =>
    match m d with
    | (Ret a, d') => (Ret a, d')
    | (Throw e, d') => h e d'
    end.

Declare Scope fs_scope.
Delimit Scope fs_scope with fs.
Notation "x <- m ;; k" := (fs_bind m (fun x => k))
  (at level 100, m at next level, right associativity) : fs_scope.
Notation "m ;;; k" := (fs_bind m (fun _ => k))
  (at level 100, right associativity) : fs_scope.

Definition touch (p : Path) (d : Disk) : Disk :=
  {| files := files d; console := console d;
     journal := journal d; touched := touched d ++ [p] |}.

(** [console.warn(tag, ...)] and [console.error(tag, ...)] *)
Definition console_log (level : Level) (tag : string) : FS unit :=
  fun d =>
    (Ret tt,
     {| files := files d; console := console d ++ [(level, tag)];
        journal := journal d; touched := touched d |}).

Definition is_dir (f : gmap Path Node) (p : Path) : bool :=
  match p with
  | [] => true
  | _ => match f !! p with Some Dir => true | _ => false end
  end.

(** [fs.existsSync(p)] *)
Definition existsSync (p : Path) : FS bool :=
  fun d => (Ret (bool_decide (is_Some (files d !! p)) || bool_decide (p = [])), touch p d).

(** [fs.readFile(p, "utf8")] *)
Definition readFile (p : Path) : FS string :=
  fun d =>
    match files d !! p with
    | Some (File c) => (Ret c, touch p d)
    | Some Dir => (Throw "EISDIR", touch p d)
    | None => (Throw "ENOENT", touch p d)
    end.

(** All the prefixes of a string, shortest first. *)
Fixpoint prefixes (s : string) : list string :=
  EmptyString ::
  match s with
  | EmptyString => []
  | String c s' => map (String c) (prefixes s')
  end.

(** The directories [mkdirSync(p, { recursive: true })] makes: [p] and the
    directories above it. *)
Fixpoint mkdirs (n : nat) (p : Path) (f : gmap Path Node) : gmap Path Node :=
  match n with
  | O => f
  | S n' => <[take n p := Dir]> (mkdirs n' p f)
  end.

(** The files after a change. *)
Definition change (c : Change) (f : gmap Path Node) : gmap Path Node :=
  match c with
  | Wrote p data => <[p := File data]> f
  | Renamed src dst =>
      match f !! src with
      | Some n => <[dst := n]> (delete src f)
      | None => f
      end
  | MadeDirs p => mkdirs (length p) p f
  end.

(** The states of the files a reader can meet while a change is made, the
    last being the state after it.  A file being written is truncated and
    then filled, so it may be met holding any prefix of the text; a rename is
    one step. *)
Definition during (c : Change) (f : gmap Path Node) : list (gmap Path Node) :=
  match c with
  | Wrote p data => map (fun pre => <[p := File pre]> f) (prefixes data)
  | _ => [change c f]
  end.

(** The states a reader can meet while the changes [cs] are made to [f]. *)
Fixpoint observable (f : gmap Path Node) (cs : list Change) : list (gmap Path Node) :=
  match cs with
  | [] => []
  | c :: rest => during c f ++ observable (change c f) rest
  end.

Definition commit (c : Change) (d : Disk) : Disk :=
  {| files := change c (files d); console := console d;
     journal := journal d ++ [c]; touched := touched d |}.

(** [fs.writeFile(p, data)] and [fs.writeFileSync(p, data)] *)
Definition writeFile (p : Path) (data : string) : FS unit :=
  fun d =>
    let d := touch p d in
    if negb (is_dir (files d) (parent p)) then (Throw "ENOENT", d)
    else if is_dir (files d) p then (Throw "EISDIR", d)
    else (Ret tt, commit (Wrote p data) d).

(** [fs.rename(src, dst)] *)
Definition rename (src dst : Path) : FS unit :=
  fun d =>
    let d := touch dst (touch src d) in
    match files d !! src with
    | None => (Throw "ENOENT", d)
    | Some n =>
        if negb (is_dir (files d) (parent dst)) then (Throw "ENOENT", d)
        else if is_dir (files d) dst then (Throw "EISDIR", d)
        else (Ret tt, commit (Renamed src dst) d)
    end.

Fixpoint file_above (n : nat) (p : Path) (f : gmap Path Node) : bool :=
  match n with
  | O => false
  | S n' =>
      match f !! take n p with
      | Some (File _) => true
      | _ => file_above n' p f
      end
  end.

Definition mkdirSync (p : Path) : FS unit :=
  fun d =>
    let d := touch p d in
    if file_above (length p) p (files d) then (Throw "ENOTDIR", d)
    else (Ret tt, commit (MadeDirs p) d).

(** ** The per-record audit store of lib/storage.js *)

Module Storage.
Local Open Scope fs_scope.

(** [path.join(process.cwd(), "data", "audits")] *)
Definition AUDITS_DIR : Path := ["data"; "audits"].

Definition ensureDir : FS unit :=
  present <- existsSync AUDITS_DIR ;;
  if present then fs_ret tt else mkdirSync AUDITS_DIR.

(** The character class [[a-zA-Z0-9\-_.]]. *)
Definition safeChar (c : ascii) : bool :=
  let n := N_of_ascii c in
  ((97 <=? n) && (n <=? 122) || (65 <=? n) && (n <=? 90) ||
   (48 <=? n) && (n <=? 57) || (n =? 45) || (n =? 95) || (n =? 46))%N.

(** [siteId.replace(/[^a-zA-Z0-9\-_.]/g, "_")] *)
Fixpoint safeName (siteId : string) : string :=
  match siteId with
  | EmptyString => EmptyString
  | String c rest => String (if safeChar c then c else "_"%char) (safeName rest)
  end.

(** [path.join(AUDITS_DIR, `${safeName}.json`)] *)
Definition auditFile (siteId : string) : Path :=
  path_join AUDITS_DIR (safeName siteId +:+ ".json").

(** [file + ".tmp"] *)
Definition tmpFile (siteId : string) : Path :=
  add_ext (auditFile siteId) ".tmp".

(** [getAudit(siteId)]: [null] for an empty [siteId] or a missing file,
    otherwise the parsed content of the file; a read error and a parse error
    are thrown. *)
Definition getAudit (J : Codec) (siteId : string) : FS json :=
  if String.eqb siteId "" then fs_ret JNull
  else
    ensureDir ;;;
    let file := auditFile siteId in
    present <- existsSync file ;;
    if negb present then fs_ret JNull
    else
      raw <- readFile file ;;
      match JSON_parse J raw with
      | Ret v => fs_ret v
      | Throw e => fs_throw ("Audit JSON parse error: " +:+ e)
      end.

(** [saveAudit(siteId, jsonObj)]: the identifier comes from the caller;
    the text goes to the temporary file, which is then renamed; the result is
    [true]. *)
Definition saveAudit (J : Codec) (siteId : string) (jsonObj : json) : FS bool :=
  ensureDir ;;;
  let file := auditFile siteId in
  let tmp := tmpFile siteId in
  let data := JSON_stringify J jsonObj in
  writeFile tmp data ;;;
  rename tmp file ;;;
  fs_ret true.

(** The files once [ensureDir] has run. *)
Definition ensured (f : gmap Path Node) : gmap Path Node :=
  match f !! AUDITS_DIR with
  | Some _ => f
  | None => <[AUDITS_DIR := Dir]> (<[["data"] := Dir]> f)
  end.

(** The change [ensureDir] makes. *)
Definition ensure_changes (f : gmap Path Node) : list Change :=
  match f !! AUDITS_DIR with
  | Some _ => []
  | None => [MadeDirs AUDITS_DIR]
  end.

(** The changes [saveAudit] makes on a store that is ready. *)
Definition save_changes (f : gmap Path Node) (siteId data : string) : list Change :=
  ensure_changes f ++ [Wrote (tmpFile siteId) data; Renamed (tmpFile siteId) (auditFile siteId)].

(** The store can take a record for [siteId]: the directory exists or can
    be made, and no directory sits where the two files go. *)
Definition store_ready (f : gmap Path Node) (siteId : string) : Prop :=
  (f !! AUDITS_DIR = Some Dir \/
   (f !! AUDITS_DIR = None /\ forall c, f !! ["data"] <> Some (File c))) /\
  f !! auditFile siteId <> Some Dir /\
  f !! tmpFile siteId <> Some Dir.

End Storage.

(** Every character of [s] passes the test [p]. *)
Fixpoint string_forall (p : ascii -> bool) (s : string) : bool :=
  match s with
  | EmptyString => true
  | String c s' => p c && string_forall p s'
  end.

(** [m] keeps to the paths [S]: it hands only paths of [S] to the file
    system, and the files other than those of [S] and the directories above
    them are after [m] what they were before, whether [m] returns or throws. *)
Definition confined {A} (S : list Path) (m : FS A) : Prop :=
  forall d,
    (exists tl, touched (m d).2 = touched d ++ tl /\ forall p, p ∈ tl -> p ∈ S) /\
    (forall q : Path, (forall p, p ∈ S -> ~ q `prefix_of` p) ->
                      files (m d).2 !! q = files d !! q).

(** ** A JSON printer and reader

    [SampleJson.codec] prints as [JSON.stringify(value, null, 2)] does
    (two-space indentation, one member per line) and reads JSON text back.
    Of the string escapes it knows the backslash and the double quote.  The
    theorems about the store hold for every [Codec]; this one serves to run
    the store on concrete records. *)

Module SampleJson.

Definition dquote : ascii := ascii_of_nat 34.
Definition backslash : ascii := ascii_of_nat 92.
Definition newline : string := String (ascii_of_nat 10) EmptyString.

Fixpoint escape (s : string) : string :=
  match s with
  | EmptyString => EmptyString
  | String c rest =>
      if Ascii.eqb c dquote || Ascii.eqb c backslash
      then String backslash (String c (escape rest))
      else String c (escape rest)
  end.

Definition quote (s : string) : string :=
  String dquote (escape s +:+ String dquote EmptyString).

Fixpoint spaces (n : nat) : string :=
  match n with O => EmptyString | S n' => String " " (spaces n') end.

Fixpoint print (indent : nat) (v : json) : string :=
  match v with
  | JNull => "null"
  | JBool true => "true"
  | JBool false => "false"
  | JNum n => print_Z n
  | JStr s => quote s
  | JArr [] => "[]"
  | JArr items =>
      "[" +:+ newline +:+
      join ("," +:+ newline)
           (map (fun x => spaces (indent + 2) +:+ print (indent + 2) x) items) +:+
      newline +:+ spaces indent +:+ "]"
  | JObj [] => "{}"
  | JObj fields =>
      "{" +:+ newline +:+
      join ("," +:+ newline)
           (map (fun kv => spaces (indent + 2) +:+ quote kv.1 +:+ ": " +:+
                           print (indent + 2) kv.2) fields) +:+
      newline +:+ spaces indent +:+ "}"
  end.

(** The white space of JSON: space, tab, line feed, carriage return. *)
Definition is_ws (c : ascii) : bool :=
  let n := N_of_ascii c in ((n =? 32) || (n =? 10) || (n =? 13) || (n =? 9))%N.

Fixpoint skip (s : string) : string :=
  match s with
  | String c rest => if is_ws c then skip rest else s
  | EmptyString => s
  end.

(** The rest of a string literal, after its opening quote. *)
Fixpoint read_string (s : string) : option (string * string) :=
  match s with
  | EmptyString => None
  | String c rest =>
      if Ascii.eqb c dquote then Some (EmptyString, rest)
      else if Ascii.eqb c backslash then
        match rest with
        | String e rest' =>
            match read_string rest' with
            | Some (str, tl) => Some (String e str, tl)
            | None => None
            end
        | EmptyString => None
        end
      else
        match read_string rest with
        | Some (str, tl) => Some (String c str, tl)
        | None => None
        end
  end.

Definition is_digit (c : ascii) : bool :=
  let n := N_of_ascii c in ((48 <=? n) && (n <=? 57))%N.

Fixpoint read_digits (acc : Z) (s : string) : Z * string :=
  match s with
  | String c rest =>
      if is_digit c
      then read_digits (10 * acc + Z.of_N (N_of_ascii c - 48)) rest
      else (acc, s)
  | EmptyString => (acc, s)
  end.

Definition starts (s : string) (c : ascii) : option string :=
  match s with
  | String c' rest => if Ascii.eqb c c' then Some rest else None
  | EmptyString => None
  end.

Definition strip (word s : string) : option string :=
  if String.prefix word s
  then Some (String.substring (String.length word) (String.length s - String.length word) s)
  else None.

Fixpoint read_value (fuel : nat) (s : string) : option (json * string) :=
  match fuel with
  | O => None
  | S fuel' =>
      let s := skip s in
      match s with
      | EmptyString => None
      | String c rest =>
          if Ascii.eqb c dquote then
            match read_string rest with
            | Some (str, tl) => Some (JStr str, tl)
            | None => None
            end
          else if Ascii.eqb c "[" then
            match starts (skip rest) "]" with
            | Some tl => Some (JArr [], tl)
            | None =>
                match read_items fuel' rest with
                | Some (items, tl) => Some (JArr items, tl)
                | None => None
                end
            end
          else if Ascii.eqb c "{" then
            match starts (skip rest) "}" with
            | Some tl => Some (JObj [], tl)
            | None =>
                match read_members fuel' rest with
                | Some (fields, tl) => Some (JObj fields, tl)
                | None => None
                end
            end
          else if Ascii.eqb c "-" then
            match rest with
            | String c' _ =>
                if is_digit c'
                then let '(n, tl) := read_digits 0 rest in Some (JNum (- n), tl)
                else None
            | EmptyString => None
            end
          else if is_digit c then
            let '(n, tl) := read_digits 0 s in Some (JNum n, tl)
          else
            match strip "null" s, strip "true" s, strip "false" s with
            | Some tl, _, _ => Some (JNull, tl)
            | _, Some tl, _ => Some (JBool true, tl)
            | _, _, Some tl => Some (JBool false, tl)
            | _, _, _ => None
            end
      end
  end
with read_items (fuel : nat) (s : string) : option (list json * string) :=
  match fuel with
  | O => None
  | S fuel' =>
      match read_value fuel' s with
      | None => None
      | Some (v, tl) =>
          match skip tl with
          | String c rest =>
              if Ascii.eqb c "]" then Some ([v], rest)
              else if Ascii.eqb c "," then
                match read_items fuel' rest with
                | Some (vs, tl') => Some (v :: vs, tl')
                | None => None
                end
              else None
          | EmptyString => None
          end
      end
  end
with read_members (fuel : nat) (s : string) : option (list (string * json) * string) :=
  match fuel with
  | O => None
  | S fuel' =>
      match starts (skip s) dquote with
      | None => None
      | Some s1 =>
          match read_string s1 with
          | None => None
          | Some (key, s2) =>
              match starts (skip s2) ":" with
              | None => None
              | Some s3 =>
                  match read_value fuel' s3 with
                  | None => None
                  | Some (v, tl) =>
                      match skip tl with
                      | String c rest =>
                          if Ascii.eqb c "}" then Some ([(key, v)], rest)
                          else if Ascii.eqb c "," then
                            match read_members fuel' rest with
                            | Some (kvs, tl') => Some ((key, v) :: kvs, tl')
                            | None => None
                            end
                          else None
                      | EmptyString => None
                      end
                  end
              end
          end
      end
  end.

Definition parse (s : string) : Outcome json :=
  match read_value (S (String.length s)) s with
  | Some (v, tl) =>
      match skip tl with
      | EmptyString => Ret v
      | _ => Throw "Unexpected non-whitespace character after JSON"
      end
  | None => Throw "Unexpected token in JSON"
  end.

Definition codec : Codec :=
  {| JSON_parse := parse; JSON_stringify := print 0 |}.

End SampleJson.

(** A disk holding the files [f], before any call. *)
Definition disk_of (f : gmap Path Node) : Disk :=
  {| files := f; console := []; journal := []; touched := [] |}.

(** ** More of JavaScript on JSON values *)

(** [l.map(f)] for an [f] that may throw: the first exception ends the
    loop. *)
Fixpoint mapM {A B} (f : A -> Outcome B) (l : list A) : Outcome (list B) :=
  match l with
  | [] => Ret []
  | x :: rest => obind (f x) (fun y => obind (mapM f rest) (fun ys => Ret (y :: ys)))
  end.

(** [String(v)].  An object prints through [Object.prototype.toString],
    unless it has a property [toString] of its own: in a JSON value that is
    no function, so the conversion finds nothing to call ([valueOf] hands
    the object back, or is no function either) and throws a [TypeError].  An
    array prints its elements joined by ",", [null] as the empty text, and
    throws when the conversion of an element does. *)
Fixpoint js_String (v : json) : Outcome string :=
  match v with
  | JNull => Ret "null"
  | JBool true => Ret "true"
  | JBool false => Ret "false"
  | JNum n => Ret (print_Z n)
  | JStr s => Ret s
  | JArr items =>
      obind
        ((fix each (l : list json) : Outcome (list string) :=
            match l with
            | [] => Ret []
            | x :: rest =>
                obind (match x with JNull => Ret "" | _ => js_String x end) (fun piece =>
                obind (each rest) (fun pieces => Ret (piece :: pieces)))
            end) items)
        (fun pieces => Ret (join "," pieces))
  | JObj fields =>
      match assoc "toString" fields with
      | Some _ => Throw "TypeError: Cannot convert object to primitive value"
      | None => Ret "[object Object]"
      end
  end.


(** [x.includes(id)] for a truthy [x] and a string [id]: substring test on
    a string, membership on an array; no such method on the other values. *)
Definition value_includes (x : json) (id : string) : Outcome bool :=
  match x with
  | JStr s => Ret (js_includes s id)
  | JArr items =>
      Ret (existsb (fun y => match y with JStr s => String.eqb s id | _ => false end) items)
  | _ => Throw "includes is not a function"
  end.

(** What [new URL(text)] gives, as far as the code reads it; the
    constructor throws on text that is no absolute URL. *)
Record URL := { protocol : string; hostname : string }.

(** ** A reader of simple URLs

    [SampleUrl.parse] reads [http://host...] and [https://host...], the host
    ending at the first of "/", "?", "#" and ":".  The theorems hold for every
    URL parser; this one serves to run the code on concrete records. *)

Module SampleUrl.

Definition host_end (c : ascii) : bool :=
  Ascii.eqb c "/" || Ascii.eqb c "?" || Ascii.eqb c "#" || Ascii.eqb c ":".

Fixpoint host (s : string) : string :=
  match s with
  | EmptyString => EmptyString
  | String c rest => if host_end c then EmptyString else String c (host rest)
  end.

Definition after (word s : string) : string :=
  String.substring (String.length word) (String.length s - String.length word) s.

Definition parse (text : string) : Outcome URL :=
  let scheme :=
    if String.prefix "https://" text then Some ("https:", after "https://" text)
    else if String.prefix "http://" text then Some ("http:", after "http://" text)
    else None in
  match scheme with
  | Some (proto, rest) =>
      if String.eqb (host rest) "" then Throw "Invalid URL"
      else Ret {| protocol := proto; hostname := host rest |}
  | None => Throw "Invalid URL"
  end.

End SampleUrl.

(** ** The layered audit lookup of pages/api/chat-analyst.js *)

Module ChatAnalyst.
Local Open Scope fs_scope.

(** [path.join(process.cwd(), "data", "audits.json")] *)
Definition auditsJson : Path := ["data"; "audits.json"].

(** [loadAllAuditsJson()]: [null] when the file is missing, cannot be
    read or cannot be parsed. *)
Definition loadAllAuditsJson (J : Codec) : FS json :=
  present <- existsSync auditsJson ;;
  if negb present then fs_ret JNull
  else
    fs_catch
      (raw <- readFile auditsJson ;;
       match JSON_parse J (if String.eqb raw "" then "{}" else raw) with
       | Ret v => fs_ret v
       | Throw e => fs_throw e
       end)
      (fun _ => console_log LogWarn "Failed parse audits.json" ;;; fs_ret JNull).

(** The test of the loop body that made a record match. *)
Inductive Rule := BySiteId | ByUrl | ByHostname | BySubstring.

(** [v?.meta || {}] *)
Definition metaOf (v : json) : json :=
  match js_own v "meta" with
  | Some m => if truthy m then m else JObj []
  | None => JObj []
  end.

(** [x && String(x) === id] for a property [x] that may be [undefined];
    the conversion may throw. *)
Definition printsAs (x : option json) (id : string) : Outcome bool :=
  match x with
  | Some v =>
      if truthy v then obind (js_String v) (fun s => Ret (String.eqb s id)) else Ret false
  | None => Ret false
  end.

(** The inner [try] block for a truthy [meta.url]: [new URL(meta.url)],
    which converts its argument to a string, then the hostname test, then
    [(meta.url || "").includes(id)]; an exception leaves the block. *)
Definition behindURL (parseURL : string -> Outcome URL) (id : string) (u : json)
  : option Rule :=
  match obind (js_String u) parseURL with
  | Ret parsed =>
      if String.eqb (hostname parsed) id then Some ByHostname
      else
        match value_includes u id with
        | Ret true => Some BySubstring
        | _ => None
        end
  | Throw _ => None
  end.

(** The body of the loop over [Object.entries(audits)] for one record [v]:
    the four tests in the order of the source.  The body is one [try] block
    whose [catch] is empty, so a conversion [String(meta.siteId)] or
    [String(meta.url)] that throws ends the tests of this record.  The
    hostname and the substring tests sit in a [try] block of their own behind
    [new URL(meta.url)], so neither is made when the record's URL does not
    parse. *)
Definition recordMatch (parseURL : string -> Outcome URL) (id : string) (v : json)
  : option Rule :=
  let meta := metaOf v in
  let siteId := js_own meta "siteId" in
  let url := js_own meta "url" in
  match printsAs siteId id with
  | Throw _ => None
  | Ret true => Some BySiteId
  | Ret false =>
      match printsAs url id with
      | Throw _ => None
      | Ret true => Some ByUrl
      | Ret false =>
          match url with
          | Some u => if truthy u then behindURL parseURL id u else None
          | None => None
          end
      end
  end.

(** The loop: the first record, in the order of [Object.entries], that
    passes one of the tests. *)
Fixpoint scan (parseURL : string -> Outcome URL) (id : string)
    (records : list (string * json)) : option json :=
  match records with
  | [] => None
  | (_, v) :: rest =>
      match recordMatch parseURL id v with
      | Some _ => Some v
      | None => scan parseURL id rest
      end
  end.

(** Step 1 of [findAuditByIdOrSite]: [audits[id]], which is a field of
    the store under the key [id] or a member that the store inherits under
    that name, then the loop. *)
Definition inStore (E : Engine) (parseURL : string -> Outcome URL) (id : string)
    (audits : json) : option jsval :=
  if truthy audits then
    match js_get E audits id with
    | Some a => if vtruthy a then Some a else Plain <$> scan parseURL id (entries audits)
    | None => Plain <$> scan parseURL id (entries audits)
    end
  else None.

(** [path.join(process.cwd(), "data", "audits", `${id}.json`)] *)
Definition perFile (id : string) : Path :=
  path_join ["data"; "audits"] (id +:+ ".json").

(** [findAuditByIdOrSite(id)] *)
Definition findAuditByIdOrSite (E : Engine) (J : Codec) (parseURL : string -> Outcome URL)
    (id : string) : FS jsval :=
  audits <- loadAllAuditsJson J ;;
  match inStore E parseURL id audits with
  | Some v => fs_ret v
  | None =>
      present <- existsSync (perFile id) ;;
      fromFile <-
        (if present then
           fs_catch
             (raw <- readFile (perFile id) ;;
              match JSON_parse J raw with
              | Ret v => fs_ret (Some v)
              | Throw e => fs_throw e
              end)
             (fun _ => fs_ret None)
         else fs_ret None) ;;
      match fromFile with
      | Some v => fs_ret (Plain v)
      | None =>
          s <- fs_catch (Storage.getAudit J id) (fun _ => fs_ret JNull) ;;
          if truthy s then fs_ret (Plain s) else fs_ret (Plain JNull)
      end
  end.

(** *** The lookup read off the files *)

(** The content of data/audits.json as [loadAllAuditsJson] sees it. *)
Definition storeOf (J : Codec) (f : gmap Path Node) : json :=
  match f !! auditsJson with
  | Some (File raw) =>
      match JSON_parse J (if String.eqb raw "" then "{}" else raw) with
      | Ret v => v
      | Throw _ => JNull
      end
  | _ => JNull
  end.

(** The parsed content of data/audits/<id>.json, when there is one. *)
Definition perFileOf (J : Codec) (f : gmap Path Node) (id : string) : option json :=
  match f !! perFile id with
  | Some (File raw) =>
      match JSON_parse J raw with
      | Ret v => Some v
      | Throw _ => None
      end
  | _ => None
  end.

(** The record [storage.getAudit(id)] finds, [null] when it finds none or
    throws. *)
Definition storedOf (J : Codec) (f : gmap Path Node) (id : string) : json :=
  if String.eqb id "" then JNull
  else
    match f !! Storage.AUDITS_DIR, f !! ["data"] with
    | None, Some (File _) => JNull
    | _, _ =>
        match f !! Storage.auditFile id with
        | Some (File raw) =>
            match JSON_parse J raw with
            | Ret v => v
            | Throw _ => JNull
            end
        | _ => JNull
        end
    end.

(** The layers, in order: the store (the property [id], then the scan),
    the per-record file named by the raw identifier, the per-record file of
    lib/storage.js, and [null]. *)
Definition layeredLookup (E : Engine) (parseURL : string -> Outcome URL) (id : string)
    (store : json) (fromFile : option json) (stored : json) : jsval :=
  match inStore E parseURL id store with
  | Some v => v
  | None =>
      match fromFile with
      | Some v => Plain v
      | None => if truthy stored then Plain stored else Plain JNull
      end
  end.

(** *** The scan as the specification words it

    "Scan all records for a siteId or url equality match, then a hostname
    match, then a substring match on URL, in that priority order": a record
    matching by equality is preferred to one matching by hostname, and that
    one to a record matching by substring. *)







End ChatAnalyst.

(** ** Sample records for the lookup *)

Module SampleStore.

Definition recA : json :=
  JObj [("meta", JObj [("url", JStr "https://example.com.evil.org/");
                       ("generatedAt", JStr "2025-01-01T00:00:00.000Z")])].

Definition recB : json :=
  JObj [("meta", JObj [("url", JStr "https://example.com/");
                       ("siteId", JStr "example.com")])].

Definition store : json := JObj [("id-a", recA); ("id-b", recB)].

(** A record whose url carries no scheme, so that [new URL] rejects it. *)
Definition recC : json :=
  JObj [("meta", JObj [("url", JStr "shop.example.org/pricing")])].


(** A disk whose data/audits.json holds the two records. *)
Definition disk : Disk :=
  disk_of {[ ["data"] := Dir;
             ChatAnalyst.auditsJson := File (SampleJson.print 0 store) ]}.


End SampleStore.

(** ** The performance analyzer of lib/perf.js *)

(** One issue reported by an analyzer. *)
Record Finding := { title : string; action : string }.

Module Perf.

(** What [callPSI] returns: [{ error }] when the scoring service could not
    be used, otherwise [{ perfScore, lcp, inp, cls, raw }], where [perfScore]
    is [null] or the rounded percentage. *)
Inductive Psi :=
| PsiError (error : string)
| PsiReport (perfScore : option Z) (lcp inp cls raw : json).

(** [result]: [mobile] and [desktop] are [None] only in the default the
    handler starts from, which has neither field. *)
Record PerfResult := {
  mobile : option Psi;
  desktop : option Psi;
  serverFetchMs : option Z;
  findings : list Finding
}.

(** [p.perfScore] as a number, when it is one. *)
Definition perfScoreOf (p : Psi) : option Z :=
  match p with
  | PsiReport s _ _ _ _ => s
  | PsiError _ => None
  end.

(** [analyzePerformance(targetUrl, fetcher, psiKey)].  [timing] is what
    [fetcher(targetUrl, ...)] settles to, [psiMobile] and [psiDesktop] what
    the two [callPSI] calls settle to; a rejection of any of the three
    rejects the analyzer. *)
Definition analyzePerformance (timing : Outcome Fetcher.FetchResult)
    (psiMobile psiDesktop : Outcome Psi) : Outcome PerfResult :=
  obind timing (fun t =>
  obind psiMobile (fun m =>
  obind psiDesktop (fun dk =>
    let ms := Fetcher.elapsed t in
    let slow :=
      if negb (ms =? 0) && (ms >? 1000)
      then [{| title := "Slow server response time";
               action := "Initial fetch took " +:+ print_Z ms +:+
                         " ms. Consider server tuning or CDN." |}]
      else [] in
    let lowMobile :=
      match perfScoreOf m with
      | Some s =>
          if s <? 60
          then [{| title := "Low mobile performance score";
                   action := "Mobile performance score is " +:+ print_Z s +:+
                             ". Optimize LCP, INP, and CLS." |}]
          else []
      | None => []
      end in
    let lowDesktop :=
      match perfScoreOf dk with
      | Some s =>
          if s <? 70
          then [{| title := "Low desktop performance score";
                   action := "Desktop performance score is " +:+ print_Z s +:+
                             ". Investigate render-blocking resources." |}]
          else []
      | None => []
      end in
    Ret {| mobile := Some m; desktop := Some dk; serverFetchMs := Some ms;
           findings := slow ++ lowMobile ++ lowDesktop |}))).

End Perf.

(** ** The handler of pages/api/run-audit.js *)

Module RunAudit.
Import RateLimiter Perf.
Local Open Scope fs_scope.

(** *** Results of the analyzers *)

(** [seoResult.seo]: the score estimate, the findings and the other fields
    (title, metaDescription, canonical, h1count, h2count, raw). *)
Record SeoInfo := {
  scoreEstimate : Z;
  seoFindings : list Finding;
  seoDetails : list (string * json)
}.

(** What [analyzeSEO] returns: [{ seo, html, pageTiming, headers }]. *)
Record SeoResult := {
  seo : SeoInfo;
  seoHeaders : gmap string string;
  html : string
}.

(** What [analyzeSecurity] returns: [{ headers, findings }]. *)
Record SecurityResult := {
  secFindings : list Finding;
  secHeaders : list (string * string)
}.

(** [rawFindings] *)
Record RawFindings := {
  rawUrl : string;
  requestedAt : string;
  rawSeo : SeoInfo;
  rawPerformance : PerfResult;
  rawSecurity : SecurityResult
}.

(** *** The assembled audit *)

Record SeoSection := { seoScore : Z; seoSectionFindings : list Finding }.

Record PerformanceSection := {
  perfScore : Z;
  perfFindings : list Finding;
  perfMobile : option Psi;
  perfDesktop : option Psi;
  perfServerFetchMs : option Z
}.

Record SecuritySection := {
  secScore : Z;
  secSectionFindings : list Finding;
  secSectionHeaders : list (string * string)
}.

(** [auditData] *)
Record AuditData := {
  metaUrl : string;
  generatedAt : string;
  seoSection : SeoSection;
  performance : PerformanceSection;
  security : SecuritySection;
  aiSummary : json;
  raw : RawFindings
}.

(** *** The request, the response and the outside world *)

(** [req.body]: already an object (or [null]), a text still to be parsed,
    or absent. *)
Inductive ReqBody :=
| BodyObject (v : json)
| BodyText (s : string)
| BodyAbsent.

Record Request := {
  method : string;
  xForwardedFor : option string;
  remoteAddress : option string;
  reqBody : ReqBody
}.

Inductive ResBody :=
| ErrorBody (error : string)
| AuditBody (auditId : string) (audit : AuditData).

Record Response := {
  statusCode : Z;
  resHeaders : list (string * string);
  resBody : ResBody
}.

(** What the handler asks of the outside during one request. *)
Record World := {
  now : Z;                                   (* Date.now() in rateLimit *)
  requestTime : string;                      (* first new Date().toISOString() *)
  reportTime : string;                       (* second new Date().toISOString() *)
  parseURL : string -> Outcome URL;          (* new URL(text) *)
  dnsLookup : string -> Outcome (list SafeResolver.LookupAddress);
  analyzeSEO : string -> Outcome SeoResult;
  network : string -> Fetcher.Network;       (* the answer to the timing fetch *)
  callPSI : string -> string -> Outcome Psi; (* callPSI(targetUrl, strategy, ...) *)
  analyzeSecurity : string -> gmap string string -> string -> Outcome SecurityResult;
  summarize : RawFindings -> Outcome json;
  randomUUID : string;
  codec : Codec
}.

(** *** The small functions *)

Definition nonempty (o : option string) : option string :=
  match o with
  | Some s => if String.eqb s "" then None else Some s
  | None => None
  end.

(** [getClientIp(req)] *)
Definition getClientIp (req : Request) : option string :=
  match nonempty (xForwardedFor req) with
  | Some xff => head (map trim (split "," xff))
  | None => remoteAddress req
  end.

(** [validateUrlText(u)]: the error message, or [null]. *)
Definition validateUrlText (W : World) (u : string) : option string :=
  if String.eqb u "" then Some "Missing url"
  else if (2000 <? String.length u)%nat then Some "URL too long"
  else
    match parseURL W u with
    | Ret parsed =>
        if String.eqb (protocol parsed) "http:" || String.eqb (protocol parsed) "https:"
        then None
        else Some "URL must be http or https"
    | Throw _ => Some "Invalid URL"
    end.

(** [(body.url || "").trim()]; reading a property of [null] and calling
    [trim] on a truthy value that is no string throw a [TypeError]. *)
Definition urlOfBody (body : json) : Outcome string :=
  match body with
  | JNull => Throw "TypeError: Cannot read properties of null"
  | _ =>
      match js_own body "url" with
      | Some (JStr s) => Ret (trim s)
      | Some v => if truthy v then Throw "TypeError: trim is not a function" else Ret ""
      | None => Ret ""
      end
  end.

(** The body as the handler takes it; [None] is the 400 answer. *)
Definition parseBody (W : World) (b : ReqBody) : option json :=
  match b with
  | BodyObject v => Some v
  | BodyText s =>
      match JSON_parse (codec W) s with
      | Ret v => Some v
      | Throw _ => None
      end
  | BodyAbsent => None
  end.

(** The SSRF step: [true] when the request is to be refused.  The
    [catch] of the handler logs a warning; [isPrivateAddress] has its own. *)
Definition ssrfCheck (W : World) (url : string) : FS bool :=
  match obind (parseURL W url)
              (fun u => SafeResolver.isPrivateAddress (dnsLookup W) (hostname u)) with
  | Ret refused => fs_ret refused
  | Throw _ => console_log LogWarn "[SSRF Check Warning]" ;;; fs_ret false
  end.

(** [let x = dflt; try { x = await m } catch (err) { console.error(tag, err) }] *)
Definition guarded {A} (tag : string) (dflt : A) (m : Outcome A) : FS A :=
  match m with
  | Ret a => fs_ret a
  | Throw _ => console_log LogError tag ;;; fs_ret dflt
  end.

Definition defaultSeo : SeoResult :=
  {| seo := {| scoreEstimate := 0; seoFindings := []; seoDetails := [] |};
     seoHeaders := ∅; html := "" |}.

Definition defaultPerf : PerfResult :=
  {| mobile := None; desktop := None; serverFetchMs := Some 0; findings := [] |}.

Definition defaultSecurity : SecurityResult :=
  {| secFindings := []; secHeaders := [] |}.

Definition defaultSummary : json :=
  JObj [("summary", JStr "No AI summary produced"); ("recommendations", JArr [])].

(** The performance analyzer as the handler calls it: the timing fetch
    runs under the wrapper's own 10000 ms timeout. *)
Definition runPerformance (W : World) (url : string) : Outcome PerfResult :=
  analyzePerformance
    (Fetcher.fetchWithTimeout (network W url) None 10000)
    (callPSI W url "mobile") (callPSI W url "desktop").

(** [x?.perfScore || 0] *)
Definition scoreOr0 (p : option Psi) : Z :=
  match p with
  | Some psi => default 0 (perfScoreOf psi)
  | None => 0
  end.

(** The score of the performance section: with a mobile score that is
    there and not 0, [Math.round((mobile + (desktop?.perfScore || 0)) / 2)],
    otherwise [desktop?.perfScore || 0].  For integers [s], [Math.round(s / 2)]
    is [(s + 1) / 2] rounded down. *)
Definition performanceScore (p : PerfResult) : Z :=
  let m := scoreOr0 (mobile p) in
  if negb (m =? 0) then (m + scoreOr0 (desktop p) + 1) / 2
  else scoreOr0 (desktop p).

(** [Math.max(0, 100 - n * 8)] *)
Definition securityScore (fs : list Finding) : Z :=
  Z.max 0 (100 - Z.of_nat (length fs) * 8).

Definition buildAudit (W : World) (url : string) (seoResult : SeoResult)
    (perfResult : PerfResult) (securityResult : SecurityResult)
    (summary : json) (rawFindings : RawFindings) : AuditData :=
  {| metaUrl := url;
     generatedAt := reportTime W;
     seoSection := {| seoScore := scoreEstimate (seo seoResult);
                      seoSectionFindings := seoFindings (seo seoResult) |};
     performance := {| perfScore := performanceScore perfResult;
                       perfFindings := findings perfResult;
                       perfMobile := mobile perfResult;
                       perfDesktop := desktop perfResult;
                       perfServerFetchMs := serverFetchMs perfResult |};
     security := {| secScore := securityScore (secFindings securityResult);
                    secSectionFindings := secFindings securityResult;
                    secSectionHeaders := secHeaders securityResult |};
     aiSummary := summary;
     raw := rawFindings |}.

(** The value a guarded analyzer leaves in its variable. *)
Definition settled {A} (dflt : A) (m : Outcome A) : A :=
  match m with Ret a => a | Throw _ => dflt end.

Definition logged {A} (tag : string) (m : Outcome A) : list (Level * string) :=
  match m with Ret _ => [] | Throw _ => [(LogError, tag)] end.

Definition say (msgs : list (Level * string)) (d : Disk) : Disk :=
  {| files := files d; console := console d ++ msgs;
     journal := journal d; touched := touched d |}.

(** The analyzers, each behind its own [try]/[catch], and the assembly. *)
Definition runAnalyzers (W : World) (url : string) : FS AuditData :=
  seoResult <- guarded "[SEO Error]" defaultSeo (analyzeSEO W url) ;;
  perfResult <- guarded "[Performance Error]" defaultPerf (runPerformance W url) ;;
  securityResult <- guarded "[Security Error]" defaultSecurity
                      (analyzeSecurity W url (seoHeaders seoResult) (html seoResult)) ;;
  let rawFindings :=
    {| rawUrl := url; requestedAt := requestTime W; rawSeo := seo seoResult;
       rawPerformance := perfResult; rawSecurity := securityResult |} in
  summary <- guarded "[AI Summary Error]" defaultSummary (summarize W rawFindings) ;;
  fs_ret (buildAudit W url seoResult perfResult securityResult summary rawFindings).

(** *** The record as JSON *)

Definition finding_json (f : Finding) : json :=
  JObj [("title", JStr (title f)); ("action", JStr (action f))].

Definition findings_json (fs : list Finding) : json := JArr (map finding_json fs).

Definition opt_num (o : option Z) : json :=
  match o with Some n => JNum n | None => JNull end.

Definition psi_json (p : Psi) : json :=
  match p with
  | PsiError e => JObj [("error", JStr e)]
  | PsiReport s lcp inp cls rawPsi =>
      JObj [("perfScore", opt_num s); ("lcp", lcp); ("inp", inp); ("cls", cls);
            ("raw", rawPsi)]
  end.

(** [x || null] *)
Definition opt_psi (o : option Psi) : json :=
  match o with Some p => psi_json p | None => JNull end.

Definition headers_json (h : list (string * string)) : json :=
  JObj (map (fun kv => (kv.1, JStr kv.2)) h).

Definition seoInfo_json (i : SeoInfo) : json :=
  JObj (("scoreEstimate", JNum (scoreEstimate i)) :: seoDetails i ++
        [("findings", findings_json (seoFindings i))]).

Definition perfResult_json (p : PerfResult) : json :=
  JObj (match mobile p with Some m => [("mobile", psi_json m)] | None => [] end ++
        match desktop p with Some dk => [("desktop", psi_json dk)] | None => [] end ++
        [("serverFetchMs", opt_num (serverFetchMs p));
         ("findings", findings_json (findings p))]).

Definition securityResult_json (r : SecurityResult) : json :=
  JObj [("headers", headers_json (secHeaders r));
        ("findings", findings_json (secFindings r))].

Definition rawFindings_json (r : RawFindings) : json :=
  JObj [("meta", JObj [("url", JStr (rawUrl r)); ("requestedAt", JStr (requestedAt r))]);
        ("seo", seoInfo_json (rawSeo r));
        ("performance", perfResult_json (rawPerformance r));
        ("security", securityResult_json (rawSecurity r))].

Definition auditData_json (a : AuditData) : json :=
  JObj [("meta", JObj [("url", JStr (metaUrl a)); ("generatedAt", JStr (generatedAt a))]);
        ("seo", JObj [("score", JNum (seoScore (seoSection a)));
                      ("findings", findings_json (seoSectionFindings (seoSection a)))]);
        ("performance",
         JObj [("score", JNum (perfScore (performance a)));
               ("findings", findings_json (perfFindings (performance a)));
               ("mobile", opt_psi (perfMobile (performance a)));
               ("desktop", opt_psi (perfDesktop (performance a)));
               ("serverFetchMs", opt_num (perfServerFetchMs (performance a)))]);
        ("security",
         JObj [("score", JNum (secScore (security a)));
               ("findings", findings_json (secSectionFindings (security a)));
               ("headers", headers_json (secSectionHeaders (security a)))]);
        ("aiSummary", aiSummary a);
        ("raw", rawFindings_json (raw a))].

(** *** Saving to data/audits.json *)

Definition auditsFile : Path := ["data"; "audits.json"].

(** [existingAudits[auditId] = auditData] in strict mode: a new field on
    an object; nothing that [JSON.stringify] keeps on an array; a
    [TypeError] on [null] and on the other values. *)
Definition assign (existing : json) (key : string) (v : json) : Outcome json :=
  match existing with
  | JObj fields => Ret (JObj (set_field key v fields))
  | JArr items => Ret (JArr items)
  | JNull => Throw "TypeError: Cannot set properties of null"
  | _ => Throw "TypeError: Cannot create property"
  end.

(** The save at the end of the handler: the whole file is read, the record
    is added under [auditId], and the whole file is written back in place
    with [fs.writeFileSync]. *)
Definition persist (W : World) (auditId : string) (audit : AuditData) : FS unit :=
  present <- existsSync auditsFile ;;
  existing <-
    (if present then
       fs_catch
         (text <- readFile auditsFile ;;
          match JSON_parse (codec W) text with
          | Ret v => fs_ret v
          | Throw e => fs_throw e
          end)
         (fun _ => fs_ret (JObj []))
     else fs_ret (JObj [])) ;;
  match assign existing auditId (auditData_json audit) with
  | Ret updated => writeFile auditsFile (JSON_stringify (codec W) updated)
  | Throw e => fs_throw e
  end.

(** The records data/audits.json holds for the handler: those of the
    object in the file, none when the file is missing, unreadable or no JSON,
    and [None] when the file holds JSON that is no object. *)
Definition existingFields (J : Codec) (f : gmap Path Node) : option (list (string * json)) :=
  match f !! auditsFile with
  | Some (File text) =>
      match JSON_parse J text with
      | Ret (JObj fields) => Some fields
      | Ret _ => None
      | Throw _ => Some []
      end
  | Some Dir => Some []
  | None => Some []
  end.

(** *** The handler *)

Definition respond (code : Z) (hdrs : list (string * string)) (b : ResBody) : FS Response :=
  fs_ret {| statusCode := code; resHeaders := hdrs; resBody := b |}.

(** [String(Math.ceil(rl.retryAfter || 60))] *)
Definition retryAfterHeader (retryAfter : Q) : string :=
  print_Z (Qceiling (if Qnum retryAfter =? 0 then 60 # 1 else retryAfter)).

(** What the handler does once the request is admitted. *)
Definition admitted (W : World) (req : Request) : FS Response :=
  match parseBody W (reqBody req) with
  | None => respond 400 [] (ErrorBody "Invalid JSON body")
  | Some body =>
      match urlOfBody body with
      | Throw e => fs_throw e
      | Ret url =>
          match validateUrlText W url with
          | Some vErr => respond 400 [] (ErrorBody vErr)
          | None =>
              refused <- ssrfCheck W url ;;
              if refused
              then respond 400 [] (ErrorBody "URL resolves to a private or disallowed IP")
              else
                audit <- runAnalyzers W url ;;
                persist W (randomUUID W) audit ;;;
                respond 200 [] (AuditBody (randomUUID W) audit)
          end
      end
  end.

(** The status and the audit of an answer, for reading off a run. *)
Definition statusOf (r : Outcome Response) : option Z :=
  match r with
  | Ret resp => Some (statusCode resp)
  | Throw _ => None
  end.

Definition auditOf (r : Outcome Response) : option AuditData :=
  match r with
  | Ret {| resBody := AuditBody _ audit |} => Some audit
  | _ => None
  end.

(** [handler(req, res)]: the new state of the limiter, and the rest of
    the request as an action on the host. *)
Definition handler (W : World) (req : Request) (limiter : gmap string RateWindow)
  : gmap string RateWindow * FS Response :=
  if negb (String.eqb (method req) "POST")
  then (limiter, respond 405 [("Allow", "POST")] (ErrorBody "Method not allowed"))
  else
    let ip := default "unknown" (nonempty (getClientIp req)) in
    match rateLimit (now W) ip limiter with
    | (Denied retryAfter, limiter') =>
        (limiter',
         respond 429 [("Retry-After", retryAfterHeader retryAfter)]
                 (ErrorBody "Rate limit exceeded"))
    | (Allowed _, limiter') => (limiter', admitted W req)
    end.

End RunAudit.

(** ** A sample world for the handler *)

Module SampleWorld.
Import IpAddr Perf RunAudit.

Definition seoResult : SeoResult :=
  {| seo := {| scoreEstimate := 80;
               seoFindings := [{| title := "Missing meta description";
                                  action := "Add a meta description (50-160 chars)." |}];
               seoDetails := [("title", JStr "Example Domain"); ("h1count", JNum 1)] |};
     seoHeaders := {[ "content-type" := "text/html; charset=UTF-8" ]};
     html := "<html><head><title>Example Domain</title></head></html>" |}.

Definition securityResult : SecurityResult :=
  {| secFindings := [{| title := "Missing HSTS";
                        action := "Add Strict-Transport-Security header to enforce HTTPS." |};
                     {| title := "Missing Content-Security-Policy";
                        action := "Add a CSP header to mitigate XSS risks." |}];
     secHeaders := [] |}.

Definition page : Fetcher.Response :=
  {| Fetcher.res_status := 200;
     Fetcher.res_headers := {[ "content-type" := "text/html; charset=UTF-8" ]};
     Fetcher.res_url := "https://example.com/";
     Fetcher.res_body := Ret "<html><head><title>Example Domain</title></head></html>" |}.

Definition report (score : Z) : Psi :=
  PsiReport (Some score) (JStr "1.2 s") JNull (JStr "0.01") (JObj []).

(** A world given its DNS, the answer to the timing fetch and the two
    answers of the scoring service. *)
Definition worldWith (dns : string -> Outcome (list SafeResolver.LookupAddress))
    (net : Fetcher.Network) (psiMobile psiDesktop : Outcome Psi) : World :=
  {| now := 1000;
     requestTime := "2025-01-01T00:00:00.000Z";
     reportTime := "2025-01-01T00:00:09.000Z";
     parseURL := SampleUrl.parse;
     dnsLookup := dns;
     analyzeSEO := fun _ => Ret seoResult;
     network := fun _ => net;
     callPSI := fun _ strategy =>
                  if String.eqb strategy "mobile" then psiMobile else psiDesktop;
     analyzeSecurity := fun _ _ _ => Ret securityResult;
     summarize := fun _ => Throw "TypeError: summarize is not a function";
     randomUUID := "6f1c2a9e-5b7d-4c3a-9e1f-0a2b4c6d8e10";
     codec := SampleJson.codec |}.

Definition publicDns : string -> Outcome (list SafeResolver.LookupAddress) :=
  fun _ => Ret [Ret (IPv4 [93; 184; 216; 34])].

Definition noDns : string -> Outcome (list SafeResolver.LookupAddress) :=
  fun _ => Throw "getaddrinfo ENOTFOUND".

Definition world : World :=
  worldWith publicDns (Fetcher.Answers 120 page) (Ret (report 90)) (Ret (report 75)).

Definition request : Request :=
  {| method := "POST";
     xForwardedFor := Some "203.0.113.7, 10.0.0.1";
     remoteAddress := Some "10.0.0.1";
     reqBody := BodyObject (JObj [("url", JStr " https://example.com/ ")]) |}.

(** A host whose data directory exists and holds no audit yet. *)
Definition host : Disk := disk_of {[ ["data"] := Dir ]}.

End SampleWorld.

(** The audit of the sample world when every analyzer answers. *)
Definition sampleAudit : RunAudit.AuditData :=
  let W := SampleWorld.world in
  let perf :=
    {| Perf.mobile := Some (SampleWorld.report 90);
       Perf.desktop := Some (SampleWorld.report 75);
       Perf.serverFetchMs := Some 120; Perf.findings := [] |} in
  let rawFindings :=
    {| RunAudit.rawUrl := "https://example.com/";
       RunAudit.requestedAt := RunAudit.requestTime W;
       RunAudit.rawSeo := RunAudit.seo SampleWorld.seoResult;
       RunAudit.rawPerformance := perf;
       RunAudit.rawSecurity := SampleWorld.securityResult |} in
  RunAudit.buildAudit W "https://example.com/" SampleWorld.seoResult perf
    SampleWorld.securityResult RunAudit.defaultSummary rawFindings.

(** ** The provider chain and the evidence fallback of lib/ai.js *)

Module AI.

(** *** Text helpers *)

(** [s.toLowerCase()] on one code unit below 256: the letters A-Z and
    the capital letters U+00C0 to U+00DE (all but the sign U+00D7) move up
    by 32. *)
Definition lower (c : ascii) : ascii :=
  let n := N_of_ascii c in
  if ((65 <=? n) && (n <=? 90) || (192 <=? n) && (n <=? 222) && negb (n =? 215))%N
  then ascii_of_N (n + 32) else c.

Fixpoint toLowerCase (s : string) : string :=
  match s with
  | EmptyString => EmptyString
  | String c rest => String (lower c) (toLowerCase rest)
  end.

(** [s.slice(0, n)] *)
Definition slice0 (n : nat) (s : string) : string := String.substring 0 n s.

(** The class [\w]. *)
Definition isWord (c : ascii) : bool :=
  let n := N_of_ascii c in
  ((97 <=? n) && (n <=? 122) || (65 <=? n) && (n <=? 90) ||
   (48 <=? n) && (n <=? 57) || (n =? 95))%N.

Definition isWordAt (o : option ascii) : bool :=
  match o with Some c => isWord c | None => false end.

(** [\b] between the characters [before] and [after]. *)
Definition boundary (before after : option ascii) : bool :=
  xorb (isWordAt before) (isWordAt after).

Definition first (s : string) : option ascii :=
  match s with String c _ => Some c | EmptyString => None end.

Fixpoint last (s : string) (dflt : option ascii) : option ascii :=
  match s with
  | EmptyString => dflt
  | String c rest => last rest (Some c)
  end.

Definition dropn (n : nat) (s : string) : string :=
  String.substring n (String.length s - n) s.

(** The word [w] stands at the head of [s], between two boundaries;
    [prev] is the character before [s]. *)
Definition wordHere (prev : option ascii) (s w : string) : bool :=
  String.prefix w s &&
  boundary prev (first s) &&
  boundary (last w prev) (first (dropn (String.length w) s)).

(** [text.match(/\b(w1|w2|...)\b/)] as a truth value. *)
Fixpoint matchesWord (prev : option ascii) (text : string) (words : list string) : bool :=
  existsb (wordHere prev text) words ||
  match text with
  | EmptyString => false
  | String c rest => matchesWord (Some c) rest words
  end.

(** *** Replies *)

(** [{ answer, citations, suggestedActions, urgency }]; a provider that
    answers in JSON fills the fields with whatever it sent. *)
Record Reply := {
  answer : json;
  citations : json;
  suggestedActions : json;
  urgency : json
}.

(** [{ section: k, excerpt: String(relevant[k]).slice(0, n) }] *)
Definition citation (n : nat) (kv : string * json) : Outcome json :=
  obind (js_String kv.2) (fun text =>
  Ret (JObj [("section", JStr kv.1); ("excerpt", JStr (slice0 n text))])).

(** An item of [values.join(" ")]: [null] prints as the empty string. *)
Definition joined (v : json) : Outcome string :=
  match v with JNull => Ret "" | _ => js_String v end.

Definition brokenWords : list string := ["404"; "not found"; "broken"].

Definition speedWords : list string :=
  ["lcp"; "largest contentful paint"; "ttfb"; "long ttfb"; "time to first byte"].

Definition headerWords : list string :=
  ["content-security-policy"; "csp"; "hsts"; "x-frame-options"; "x-content-type-options"].

Definition metaWords : list string := ["meta description"; "missing meta"; "title tag"].

Definition unavailable : string :=
  "AI unavailable — returning evidence-based summary from audit JSON. See citations for evidence.".

(** The reply of the fallback, given the citations and the texts of the
    values: the search for the marker words in the joined text, the
    suggestions it adds to the [Set] and the urgency. *)
Definition fallbackReply (cites : list json) (pieces : list string) : Reply :=
  let text := toLowerCase (join " " pieces) in
  let broken := matchesWord None text brokenWords in
  let speed := matchesWord None text speedWords in
  let hdrs := matchesWord None text headerWords in
  let metas := matchesWord None text metaWords in
  let suggestions :=
    (if broken then ["Fix broken links and update or remove 404 resources."] else []) ++
    (if speed
     then ["Improve LCP/TTFB: optimize images, enable caching, review server response times."]
     else []) ++
    (if hdrs
     then ["Add/strengthen security headers: CSP, HSTS, X-Frame-Options, X-Content-Type-Options."]
     else []) ++
    (if metas
     then ["Add concise titles and unique meta descriptions for primary pages."]
     else []) in
  let suggestions :=
    match suggestions with
    | [] => ["Review the evidence snippets and prioritize fixes across performance, SEO and security."]
    | _ => suggestions
    end in
  {| answer := JStr unavailable;
     citations := JArr cites;
     suggestedActions := JArr (map JStr (take 4 suggestions));
     urgency := JStr (if broken || speed || hdrs then "Medium" else "Low") |}.

(** [fallbackAnswerFromSnippets(relevant, query)].  [relevant] lists the
    properties of the evidence object in the order of [Object.keys].  The
    citations convert the first six values with [String], and the text that
    is searched joins all the values: either throws on a value that [String]
    cannot convert. *)
Definition fallbackAnswerFromSnippets (relevant : list (string * json)) (query : string)
  : Outcome Reply :=
  obind (mapM (citation 300) (take 6 relevant)) (fun cites =>
  obind (mapM (fun kv => joined kv.2) relevant) (fun pieces =>
  Ret (fallbackReply cites pieces))).

(** *** The chain *)

(** One entry of [callers]: [enabled] tells whether the credential is
    set, [call system user] what the provider's function settles to inside
    the [try] of the loop: the text of the answer ([resp.text], the empty
    text when there is none), or an exception.  An answer whose text is no
    string is an exception too, for [resp.text.trim()] throws on it inside
    the same [try]. *)
Record Provider := {
  name : string;
  enabled : bool;
  call : string -> string -> Outcome string
}.

Definition systemPrompt : string :=
  "You are an analyst. Use only the provided JSON snippets as evidence; when you reference evidence, include an anchor like [KEY] where KEY is the JSON key. Output: (1) short answer, (2) 2-4 suggested next steps (bulleted), (3) urgency: Low/Medium/High. Keep answer concise.".

Definition lf : string := String (ascii_of_nat 10) EmptyString.

(** The user prompt: the query, then a line for each of the first thirty
    properties of the evidence, its value converted with [String]. *)
Definition userPrompt (relevant : list (string * json)) (query : string) : Outcome string :=
  obind
    (mapM (fun kv => obind (js_String kv.2) (fun text =>
                     Ret (kv.1 +:+ ": " +:+ slice0 1600 text +:+ lf +:+ lf)))
          (take 30 relevant))
    (fun lines =>
       Ret ("USER QUERY: " +:+ query +:+ lf +:+ lf +:+ "EVIDENCE SNIPPETS:" +:+ lf +:+
            join "" lines)).

(** [a || b] on values that may be [undefined]. *)
Definition orElse (a : option json) (b : json) : json :=
  match a with
  | Some v => if truthy v then v else b
  | None => b
  end.

(** What the chain makes of a provider's non-empty text.  Text that parses
    as JSON gives the reply's fields; [null] has no fields to read, and, like
    text that is no JSON, goes to the line-based reading [heuristic] of the
    inner [catch]. *)
Definition interpret (J : Codec) (heuristic : string -> json -> Reply)
    (rawText : string) (cites : list json) : Reply :=
  match JSON_parse J rawText with
  | Ret JNull => heuristic rawText (JArr cites)
  | Ret parsed =>
      {| answer := orElse (js_own parsed "answer") (orElse (js_own parsed "summary") (JStr ""));
         citations := orElse (js_own parsed "citations") (JArr (take 6 cites));
         suggestedActions :=
           orElse (js_own parsed "suggestedActions")
                  (orElse (js_own parsed "recommendations") (JArr []));
         urgency := orElse (js_own parsed "urgency") (JStr "Low") |}
  | Throw _ => heuristic rawText (JArr cites)
  end.

(** One more provider named by [console.warn] before the rest of the
    loop. *)
Definition warning (who : string) (rest : Outcome (list string * Reply))
  : Outcome (list string * Reply) :=
  obind rest (fun '(warned, r) => Ret (who :: warned, r)).

(** The loop over [callers], given the citations [cites] and the user
    prompt [user] built before it; the first component collects the names of
    the providers whose failure [console.warn] reports.  The fallback after
    the loop stands outside every [try]. *)
Fixpoint chain (J : Codec) (heuristic : string -> json -> Reply)
    (callers : list Provider) (cites : list json) (user : string)
    (relevant : list (string * json)) (query : string)
  : Outcome (list string * Reply) :=
  match callers with
  | [] => obind (fallbackAnswerFromSnippets relevant query) (fun r => Ret ([], r))
  | c :: rest =>
      if enabled c then
        match call c systemPrompt user with
        | Ret text =>
            if String.eqb (trim text) ""
            then warning (name c) (chain J heuristic rest cites user relevant query)
            else Ret ([], interpret J heuristic (trim text) cites)
        | Throw _ => warning (name c) (chain J heuristic rest cites user relevant query)
        end
      else chain J heuristic rest cites user relevant query
  end.

(** [answerQuery(relevantJson, query, options)]: the citations and the
    user prompt are built first, outside every [try], so a value of the
    evidence that [String] cannot convert makes the call throw. *)
Definition answerQuery (J : Codec) (heuristic : string -> json -> Reply)
    (callers : list Provider) (relevant : list (string * json)) (query : string)
  : Outcome (list string * Reply) :=
  if String.eqb query "" then Throw "Invalid query"
  else
    obind (mapM (citation 400) (take 8 relevant)) (fun cites =>
    obind (userPrompt relevant query) (fun user =>
    chain J heuristic callers cites user relevant query)).

(** A provider that gets no answer through for the prompt [user]: it is
    disabled, its call throws, or its text is blank. *)
Definition fails (user : string) (c : Provider) : Prop :=
  enabled c = false \/
  (exists e, call c systemPrompt user = Throw e) \/
  (exists text, call c systemPrompt user = Ret text /\ trim text = "").

(** [String] converts every value of the evidence. *)
Definition printable (relevant : list (string * json)) : Prop :=
  Forall (fun kv => returns (js_String kv.2)) relevant.

End AI.

(** ** A sample chain of providers and sample evidence *)

Module SampleChain.
Import AI.

Definition evidence : list (string * json) :=
  [("seo.findings",
    JStr "Missing meta description; Broken internal links: 3 returned 404.");
   ("performance", JStr "LCP 4.2 s on mobile");
   ("security.score", JNum 84)].

(** No key for the first provider, a timeout from the second, a blank
    answer from the third. *)
Definition callers : list Provider :=
  [ {| name := "openai"; enabled := false;
       call := fun _ _ => Throw "OPENAI_API_KEY not set" |};
    {| name := "gemini"; enabled := true;
       call := fun _ _ => Throw "AbortError" |};
    {| name := "deepseek"; enabled := true;
       call := fun _ _ => Ret "   " |} ].



(** A stand-in for the line-based reading of free text. *)
Definition firstLine (rawText : string) (cites : json) : Reply :=
  {| answer := JStr rawText; citations := cites;
     suggestedActions := JArr []; urgency := JStr "Low" |}.

End SampleChain.

(** ** Views of a run of the limiter *)

Module RateLimiterViews.
Import RateLimiter.

(** The answers, among [results], to the requests of [reqs] that come
    from [ip]. *)
Definition ownVerdicts (ip : string) (reqs : list (string * Z))
    (results : list RateResult) : list RateResult :=
  map snd (filter (fun p => p.1.1 = ip) (zip reqs results)).

(** Every stored window has counted at least one request. *)
Definition counted (limiter : gmap string RateWindow) : Prop :=
  forall ip rec, limiter !! ip = Some rec -> 1 <= count rec.

(** The [remaining] of an admission is a number of requests still to be
    admitted in the window. *)
Definition remainingInRange (v : RateResult) : Prop :=
  match v with
  | Allowed r => 0 <= r <= RATE_LIMIT_MAX - 1
  | Denied _ => True
  end.

(** The requests come in the order of their times, none before [lo]:
    [Date.now()] does not go back between two calls. *)
Fixpoint inOrder (lo : Z) (reqs : list (string * Z)) : Prop :=
  match reqs with
  | [] => True
  | (_, t) :: rest => lo <= t /\ inOrder t rest
  end.

(** No stored window starts after [t]. *)
Definition startedBy (t : Z) (limiter : gmap string RateWindow) : Prop :=
  forall ip rec, limiter !! ip = Some rec -> windowStart rec <= t.

(** The Retry-After header the handler sends with a denial names a whole
    number of seconds from 1 to 60. *)
Definition retryAfterInRange (v : RateResult) : Prop :=
  match v with
  | Allowed _ => True
  | Denied q => exists n, 1 <= n <= 60 /\ RunAudit.retryAfterHeader q = print_Z n
  end.

End RateLimiterViews.

(** ** Views of the store *)

Module StoreViews.

(** [m] changes no file: what is there before is there after, with the
    same content, and the only change [m] makes is to create directories. *)
Definition readOnly {A} (m : FS A) : Prop :=
  forall d,
    (forall p n, files d !! p = Some n -> files (m d).2 !! p = Some n) /\
    exists cs, journal (m d).2 = journal d ++ cs /\
               forall c, c ∈ cs -> exists p, c = MadeDirs p.

End StoreViews.

(** ** The security analyzer of lib/security.js *)

Module Security.
Import RunAudit.

(** [initialResponse.headers], when it is truthy: an object with
    [entries()], as a [Headers] object is, or a value without that method,
    on which the call throws. *)
Inductive HeadersProp :=
| Iterable (entries : list (string * string))
| NotIterable.

(** [initialResponse]: a falsy value, or an object seen through its
    properties [headers] and [url] ([None]: no such property, or a falsy
    one; [url] is a string). *)
Inductive InitialResponse :=
| Nothing
| ResponseObject (headers : option HeadersProp) (url : option string).

(** [for (const [k, v] of entries) headers[k.toLowerCase()] = v]: a later
    entry replaces an earlier one of the same name; a string assigned to
    [__proto__] is dropped. *)
Definition collect (entries : list (string * string)) : list (string * string) :=
  fold_left
    (fun acc kv =>
       let k := AI.toLowerCase kv.1 in
       if String.eqb k "__proto__" then acc else set_field k kv.2 acc)
    entries [].

(** [!!headers[name]] *)
Definition present (headers : list (string * string)) (name : string) : bool :=
  match assoc name headers with
  | Some v => negb (String.eqb v "")
  | None => false
  end.

Definition required : list (string * Finding) :=
  [ ("strict-transport-security",
     {| title := "Missing HSTS";
        action := "Add Strict-Transport-Security header to enforce HTTPS." |});
    ("content-security-policy",
     {| title := "Missing Content-Security-Policy";
        action := "Add a CSP header to mitigate XSS risks." |});
    ("x-frame-options",
     {| title := "Missing X-Frame-Options";
        action := "Add X-Frame-Options to reduce clickjacking." |});
    ("referrer-policy",
     {| title := "Missing Referrer-Policy";
        action := "Add Referrer-Policy to limit referrer exposure." |}) ].

Definition noRedirect : Finding :=
  {| title := "No HTTPS redirect"; action := "Ensure the site redirects HTTP → HTTPS." |}.

Definition dq : string := String (ascii_of_nat 34) EmptyString.

Definition permissiveCors : Finding :=
  {| title := "Permissive CORS";
     action := "Access-Control-Allow-Origin is " +:+ dq +:+ "*" +:+ dq +:+
               ". Review to ensure it is safe for sensitive endpoints." |}.

(** The finding for the libraries found; [libs] holds the matched texts. *)
Definition detected (libs : list string) : Finding :=
  {| title := "Detected JS libraries — verify versions";
     action := "Found " +:+ print_Z (Z.of_nat (length libs)) +:+
               " common libraries in page; check versions and update if outdated. Examples: " +:+
               join ", " libs |}.

(** [analyzeSecurity(targetUrl, initialResponse, htmlText)].  [libraries]
    stands for the scan of the page with the five regular expressions of
    [commonLibraries]: the matched text [m[0]] of each expression that
    matches the snippet, in the order of the expressions. *)
Definition analyzeSecurity (parseURL : string -> Outcome URL)
    (libraries : string -> list string)
    (targetUrl : string) (initialResponse : InitialResponse) (htmlText : string)
  : Outcome SecurityResult :=
  let collected :=
    match initialResponse with
    | ResponseObject (Some (Iterable entries)) _ => Ret (collect entries)
    | ResponseObject (Some NotIterable) _ =>
        Throw "TypeError: initialResponse.headers.entries is not a function"
    | _ => Ret []
    end in
  obind collected (fun headers =>
    let missing := map snd (List.filter (fun r => negb (present headers r.1)) required) in
    let redirect :=
      match parseURL targetUrl with
      | Ret parsed =>
          if String.eqb (protocol parsed) "http:" then
            match initialResponse with
            | ResponseObject _ (Some u) =>
                if String.prefix "https:" u then [] else [noRedirect]
            | _ => [noRedirect]
            end
          else []
      | Throw _ => []
      end in
    let cors :=
      match assoc "access-control-allow-origin" headers with
      | Some v => if String.eqb v "*" then [permissiveCors] else []
      | None => []
      end in
    let libs := libraries (AI.slice0 (N.to_nat 200000) htmlText) in
    let found :=
      match libs with
      | [] => []
      | _ => [detected libs]
      end in
    Ret {| secFindings := missing ++ redirect ++ cors ++ found; secHeaders := headers |}).

(** What run-audit.js hands over as [initialResponse]: [seoResult.headers],
    which is the [Headers] object of the page's response, or the empty
    object of the default.  Neither has a property [headers] or [url]. *)
Definition fromHandler (pageHeaders : gmap string string) : InitialResponse :=
  ResponseObject None None.

(** The analyzer as the handler runs it. *)
Definition forHandler (parseURL : string -> Outcome URL) (libraries : string -> list string)
  : string -> gmap string string -> string -> Outcome SecurityResult :=
  fun targetUrl pageHeaders htmlText =>
    analyzeSecurity parseURL libraries targetUrl (fromHandler pageHeaders) htmlText.

(** The sample world with the analyzer of lib/security.js in it and a page
    that loads no known library. *)
Definition sampleWorld : World :=
  let W := SampleWorld.world in
  {| now := now W; requestTime := requestTime W; reportTime := reportTime W;
     parseURL := parseURL W; dnsLookup := dnsLookup W;
     analyzeSEO := RunAudit.analyzeSEO W; network := network W; callPSI := callPSI W;
     RunAudit.analyzeSecurity := forHandler (parseURL W) (fun _ => []);
     summarize := summarize W; randomUUID := randomUUID W; codec := codec W |}.

End Security.

(** ** The limiters of the other endpoints

    chat-analyst.js, generate-report-pdf.js and audit-chart-data.js each
    keep a [Map] from client to [{ count, start }] and answer a boolean. *)

Module EndpointLimiters.

Definition RATE_WINDOW_MS : Z := 60000.

Record Window := { count : Z; start : Z }.

(** [limiter.get(ip) || { count: 0, start: now }] *)
Definition recordOf (now : Z) (ip : string) (limiter : gmap string Window) : Window :=
  default {| count := 0; start := now |} (limiter !! ip).

End EndpointLimiters.

(** [rateLimit(ip)] of pages/api/chat-analyst.js *)
Module ChatAnalystLimiter.
Import EndpointLimiters.

Definition RATE_MAX : Z := 12.

Definition rateLimit (now : Z) (ip : string) (limiter : gmap string Window)
  : bool * gmap string Window :=
  let rec := recordOf now ip limiter in
  let rec' :=
    if now - start rec >? RATE_WINDOW_MS
    then {| count := 1; start := now |}
    else {| count := count rec + 1; start := start rec |} in
  (count rec' <=? RATE_MAX, <[ip := rec']> limiter).

End ChatAnalystLimiter.

(** [rateLimit(ip)] of pages/api/generate-report-pdf.js *)
Module ReportPdfLimiter.
Import EndpointLimiters.

Definition RATE_MAX : Z := 8.

Definition rateLimit (now : Z) (ip : string) (limiter : gmap string Window)
  : bool * gmap string Window :=
  let rec := recordOf now ip limiter in
  let rec' :=
    if now - start rec >? RATE_WINDOW_MS
    then {| count := 1; start := now |}
    else {| count := count rec + 1; start := start rec |} in
  (count rec' <=? RATE_MAX, <[ip := rec']> limiter).

End ReportPdfLimiter.

(** [rateLimit(ip)] of pages/api/audit-chart-data.js: past the window the
    count is set to 0, and the increment follows in both cases. *)
Module ChartDataLimiter.
Import EndpointLimiters.

Definition RATE_MAX : Z := 20.

Definition rateLimit (now : Z) (ip : string) (limiter : gmap string Window)
  : bool * gmap string Window :=
  let rec := recordOf now ip limiter in
  let rec1 :=
    if now - start rec >? RATE_WINDOW_MS
    then {| count := 0; start := now |}
    else rec in
  let rec' := {| count := count rec1 + 1; start := start rec1 |} in
  (count rec' <=? RATE_MAX, <[ip := rec']> limiter).

End ChartDataLimiter.

Module EndpointLimiterViews.
Import EndpointLimiters.

(** A run of a limiter over a sequence of requests [(ip, now)], oldest
    first. *)
Fixpoint serveWith (rl : Z -> string -> gmap string Window -> bool * gmap string Window)
    (reqs : list (string * Z)) (limiter : gmap string Window)
  : list bool * gmap string Window :=
  match reqs with
  | [] => ([], limiter)
  | (ip, now) :: rest =>
      let '(r, limiter') := rl now ip limiter in
      let '(rs, limiter'') := serveWith rl rest limiter' in
      (r :: rs, limiter'')
  end.

(** The next request of [ip] at time [t0] starts a window. *)
Definition opens (limiter : gmap string Window) (ip : string) (t0 : Z) : Prop :=
  match limiter !! ip with
  | None => True
  | Some rec => t0 - start rec > RATE_WINDOW_MS
  end.

(** The window a request at [now] leaves for a client whose stored window
    was [rec]. *)
Definition next (now : Z) (rec : option Window) : Window :=
  match rec with
  | None => {| count := 1; start := now |}
  | Some r =>
      if now - start r >? RATE_WINDOW_MS
      then {| count := 1; start := now |}
      else {| count := count r + 1; start := start r |}
  end.

(** The same window in the limiter of run-audit.js. *)
Definition asRateWindow (w : Window) : RateLimiter.RateWindow :=
  {| RateLimiter.count := count w; RateLimiter.windowStart := start w |}.

End EndpointLimiterViews.

(** ** Views of an audit *)

Module AuditViews.
Import Perf.

(** What the scoring service answered carries, when it carries a score,
    a percentage. *)
Definition psiInRange (p : Outcome Psi) : Prop :=
  match p with
  | Ret (PsiReport (Some s) _ _ _ _) => 0 <= s <= 100
  | _ => True
  end.

End AuditViews.

(** ** The listing of lib/storage.js *)

Module Listing.
Import Storage.
Local Open Scope fs_scope.

(** The name of [p] when [p] lies directly in [dir]. *)
Definition childOf (dir p : Path) : option string :=
  if bool_decide (parent p = dir) then last p else None.

(** [fs.promises.readdir(dir)]: the names of the entries of [dir], files
    and directories alike, in no particular order. *)
Definition readdir (dir : Path) : FS (list string) :=
  fun d =>
    let d' := touch dir d in
    if is_dir (files d) dir
    then (Ret (omap (fun kv => childOf dir kv.1) (map_to_list (files d))), d')
    else
      match files d !! dir with
      | Some _ => (Throw "ENOTDIR", d')
      | None => (Throw "ENOENT", d')
      end.

(** [f.endsWith(suffix)] *)
Definition endsWith (f suffix : string) : bool :=
  (String.length suffix <=? String.length f)%nat &&
  String.eqb
    (String.substring (String.length f - String.length suffix) (String.length suffix) f)
    suffix.

(** [f.replace(/\.json$/, "")] *)
Definition stripJson (f : string) : string :=
  if endsWith f ".json" then String.substring 0 (String.length f - 5) f else f.

(** [listAudits()] *)
Definition listAudits : FS (list string) :=
  ensureDir ;;;
  entries <- readdir AUDITS_DIR ;;
  fs_ret (map stripJson (List.filter (fun f => endsWith f ".json") entries)).

End Listing.

(** ** Views of a request *)

Module RequestViews.
Import RunAudit.

(** The request [req] sent with the header [X-Forwarded-For: h]. *)
Definition withForwardedFor (h : string) (req : Request) : Request :=
  {| method := method req; xForwardedFor := Some h;
     remoteAddress := remoteAddress req; reqBody := reqBody req |}.

(** The text made of [n] letters a. *)
Fixpoint letters (n : nat) : string :=
  match n with
  | O => EmptyString
  | S n' => String "a" (letters n')
  end.

(** A header value that no stored window is keyed by: it is longer than
    every key of the limiter. *)
Definition unusedKey (limiter : gmap string RateLimiter.RateWindow) : string :=
  letters (S (max_list (String.length <$> (map_to_list limiter).*1))).

End RequestViews.

(** ** The handler of pages/api/generate-report-pdf.js

    Its [loadAllAuditsJson] and [findAuditByIdOrSite] are those of
    chat-analyst.js, statement for statement, but for the test
    [if (!meta) continue], which chat-analyst.js makes on a value that is
    always truthy. *)

Module ReportPdf.
Import EndpointLimiters RunAudit.
Local Open Scope fs_scope.

(** What [createPdfBuffer({ siteId, auditJson })] does: it resolves to a
    buffer of [length] bytes after [ms] milliseconds, it throws or rejects
    after [ms] milliseconds with an error that prints as [msg], or it never
    settles. *)
Inductive PdfRun :=
| Produced (ms : Z) (length : Z)
| Rejected (ms : Z) (msg : string)
| Hangs.

(** What the handler asks of the outside during one request. *)
Record World := {
  now : Z;                                   (* Date.now() in rateLimit *)
  parseURL : string -> Outcome URL;          (* new URL(text) *)
  codec : Codec;
  engine : Engine;                           (* the built-in prototypes *)
  (* await import("../../lib/pdf.js"): the import fails, or the module
     has or lacks the function createPdfBuffer *)
  pdfModule : Outcome (option (string -> jsval -> PdfRun));
  (* whether res.setHeader accepts the value *)
  headerValue : string -> bool
}.

Inductive ResBody :=
| ErrorBody (error : string)
| PdfBody (length : Z).

Record Response := {
  statusCode : Z;
  resHeaders : list (string * string);
  resBody : ResBody
}.

(** [getClientIp(req)] *)
Definition getClientIp (req : Request) : string :=
  match nonempty (xForwardedFor req) with
  | Some xff => trim (default "" (head (split "," xff)))
  | None => default "unknown" (nonempty (remoteAddress req))
  end.

(** The body as the handler takes it; [None] is the 400 answer. *)
Definition parseBody (J : Codec) (b : ReqBody) : option json :=
  match b with
  | BodyObject v => Some v
  | BodyText s =>
      match JSON_parse J s with
      | Ret v => Some v
      | Throw _ => None
      end
  | BodyAbsent => None
  end.

(** [String(auditId || siteId || "").trim()]; [body || {}] has the
    properties of [body].  The conversion stands outside every [try]. *)
Definition idOf (body : json) : Outcome string :=
  obind (js_String (AI.orElse (js_own body "auditId")
                      (AI.orElse (js_own body "siteId") (JStr ""))))
        (fun text => Ret (trim text)).

(** [timeoutPromise(p, 20000, "PDF generation timed out")]: what the
    [await] gives, the buffer's length or the message of the rejection. *)
Definition timeoutPromise (run : PdfRun) (ms : Z) (errMsg : string) : Outcome Z :=
  match run with
  | Produced t len => if t <? ms then Ret len else Throw errMsg
  | Rejected t msg => if t <? ms then Throw msg else Throw errMsg
  | Hangs => Throw errMsg
  end.

Definition respond (code : Z) (hdrs : list (string * string)) (b : ResBody) : FS Response :=
  fs_ret {| statusCode := code; resHeaders := hdrs; resBody := b |}.

Definition dq : string := String (ascii_of_nat 34) EmptyString.

(** The [catch] of the generation: the answer chosen from the message. *)
Definition generationFailed (msg : string) : FS Response :=
  console_log LogError "generate-report-pdf error:" ;;;
  if js_includes (AI.toLowerCase msg) "pdfkit" || js_includes msg "pdfkit module not found"
  then respond 501 []
         (ErrorBody "PDF generation unavailable: install server-side dependency 'pdfkit'")
  else if js_includes (AI.toLowerCase msg) "timed out"
  then respond 504 [] (ErrorBody "PDF generation timed out")
  else respond 500 [] (ErrorBody "Failed to generate PDF").

(** What the handler does once it has the identifier: the lookup, the
    import of the PDF module and the generation. *)
Definition answerFor (W : World) (id : string) : FS Response :=
  if String.eqb id "" then respond 400 [] (ErrorBody "Missing siteId or auditId")
  else
    found <-
      fs_catch
        (audit <- ChatAnalyst.findAuditByIdOrSite (engine W) (codec W) (parseURL W) id ;;
         fs_ret (Some audit))
        (fun _ => console_log LogError "audit load error:" ;;; fs_ret None) ;;
    match found with
    | None => respond 500 [] (ErrorBody "Failed to load audit")
    | Some audit =>
        if negb (vtruthy audit) then respond 404 [] (ErrorBody "Audit not found")
        else
          createPdfBuffer <-
            match pdfModule W with
            | Ret exported => fs_ret exported
            | Throw _ => console_log LogWarn "lib/pdf import failed:" ;;; fs_ret None
            end ;;
          match createPdfBuffer with
          | None =>
              respond 501 []
                (ErrorBody "PDF generation unavailable. Ensure server has 'pdfkit' and lib/pdf.js is present.")
          | Some create =>
              match timeoutPromise (create id audit) 20000 "PDF generation timed out" with
              | Throw msg => generationFailed msg
              | Ret len =>
                  let disposition := "inline; filename=" +:+ dq +:+ id +:+ "-audit.pdf" +:+ dq in
                  if headerValue W disposition
                  then respond 200
                         [("Content-Type", "application/pdf");
                          ("Content-Disposition", disposition);
                          ("Content-Length", print_Z len)]
                         (PdfBody len)
                  else
                    generationFailed
                      ("Invalid character in header content [" +:+ dq +:+
                       "Content-Disposition" +:+ dq +:+ "]")
              end
          end
    end.

(** What the handler does once the request is admitted: the body, then
    the identifier, whose conversion to a string stands outside every [try]
    and so throws out of the handler, then the rest. *)
Definition admitted (W : World) (req : Request) : FS Response :=
  match parseBody (codec W) (reqBody req) with
  | None => respond 400 [] (ErrorBody "Invalid JSON body")
  | Some body =>
      match idOf body with
      | Throw e => fs_throw e
      | Ret id => answerFor W id
      end
  end.

(** [handler(req, res)]: the new state of the limiter, and the rest of
    the request as an action on the host. *)
Definition handler (W : World) (req : Request) (limiter : gmap string Window)
  : gmap string Window * FS Response :=
  if negb (String.eqb (method req) "POST")
  then (limiter, respond 405 [("Allow", "POST")] (ErrorBody "Method not allowed"))
  else
    match ReportPdfLimiter.rateLimit (now W) (getClientIp req) limiter with
    | (false, limiter') =>
        (limiter', respond 429 [("Retry-After", "60")] (ErrorBody "Rate limit exceeded"))
    | (true, limiter') => (limiter', admitted W req)
    end.

(** The request makes the handler convert an identifier that [String]
    cannot convert: it is a POST that the limiter admits, and the auditId of
    its body, or else the siteId, is such a value. *)
Definition oddIdentifier (W : World) (req : Request) (limiter : gmap string Window)
    (e : string) : Prop :=
  method req = "POST" /\
  (ReportPdfLimiter.rateLimit (now W) (getClientIp req) limiter).1 = true /\
  exists body,
    parseBody (codec W) (reqBody req) = Some body /\ idOf body = Throw e.

(** The status of an answer, for reading off a run. *)
Definition statusOf (r : Outcome Response) : option Z :=
  match r with
  | Ret resp => Some (statusCode resp)
  | Throw _ => None
  end.

(** A sample world: pdfkit is there and writes a page in 350 ms. *)
Definition sampleWorld : World :=
  {| now := 1000; parseURL := SampleUrl.parse; codec := SampleJson.codec;
     engine := SampleEngine.engine;
     pdfModule := Ret (Some (fun _ _ => Produced 350 48213));
     headerValue := fun _ => true |}.

Definition sampleRequest : Request :=
  {| method := "POST"; xForwardedFor := None; remoteAddress := Some "198.51.100.9";
     reqBody := BodyObject (JObj [("auditId", JStr "id-b")]) |}.

(** A request whose auditId is an object with a property [toString] of
    its own. *)
Definition oddRequest : Request :=
  {| method := "POST"; xForwardedFor := None; remoteAddress := Some "198.51.100.9";
     reqBody := BodyObject (JObj [("auditId", JObj [("toString", JNum 1)])]) |}.

End ReportPdf.

(** ** Views of a response's headers *)

Module HeaderViews.

(** The value of the last entry of [entries] whose name is [name] when
    put in lower case. *)
Definition lastValue (name : string) (entries : list (string * string)) : option string :=
  fold_left
    (fun acc kv => if String.eqb (AI.toLowerCase kv.1) name then Some kv.2 else acc)
    entries None.

End HeaderViews.

(** ** A sample world whose analyzers fail *)

Module SampleFailures.
Import RunAudit.

(** The sample world with an SEO analyzer and a security analyzer that
    throw. *)
Definition world : World :=
  let W := SampleWorld.world in
  {| now := now W; requestTime := requestTime W; reportTime := reportTime W;
     parseURL := parseURL W; dnsLookup := dnsLookup W;
     analyzeSEO := fun _ => Throw "fetch failed";
     network := network W; callPSI := callPSI W;
     analyzeSecurity := fun _ _ _ => Throw "TypeError: entries is not a function";
     summarize := summarize W; randomUUID := randomUUID W; codec := codec W |}.

End SampleFailures.

(** * Theorems *)

Module RateLimiterFacts.
Import RateLimiter.

Lemma rateLimit_fresh now ip (limiter : gmap string RateWindow) :
  opens_window limiter ip now ->
  rateLimit now ip limiter =
    (Allowed (RATE_LIMIT_MAX - 1), <[ip := {| count := 1; windowStart := now |}]> limiter).
Proof.
  unfold opens_window, rateLimit. destruct (limiter !! ip) as [rec|]; [|done].
  intros H. apply Z.gt_lt, Z.gtb_lt in H. by rewrite H.
Qed.

Lemma rateLimit_same_window now ip (limiter : gmap string RateWindow) c t0 :
  limiter !! ip = Some {| count := c; windowStart := t0 |} ->
  now - t0 <= RATE_LIMIT_WINDOW_MS ->
  rateLimit now ip limiter =
    (verdict t0 (c + 1) now, <[ip := {| count := c + 1; windowStart := t0 |}]> limiter).
Proof.
  intros Hl Hw. unfold rateLimit, verdict. rewrite Hl. simpl.
  destruct (now - t0 >? RATE_LIMIT_WINDOW_MS) eqn:E.
  - apply Z.gtb_lt in E. lia.
  - by destruct (c + 1 >? RATE_LIMIT_MAX).
Qed.

(** A request made exactly [RATE_LIMIT_WINDOW_MS] after the start of the
    window still counts in that window. *)
Lemma rateLimit_at_window_end ip (limiter : gmap string RateWindow) c t0 :
  limiter !! ip = Some {| count := c; windowStart := t0 |} ->
  rateLimit (t0 + RATE_LIMIT_WINDOW_MS) ip limiter =
    (verdict t0 (c + 1) (t0 + RATE_LIMIT_WINDOW_MS),
     <[ip := {| count := c + 1; windowStart := t0 |}]> limiter).
Proof. intros Hl. apply rateLimit_same_window; [done|lia]. Qed.

(** Requests of other clients leave the window of [ip] alone. *)
Lemma rateLimit_other now ip ip' (limiter : gmap string RateWindow) :
  ip' <> ip -> (rateLimit now ip' limiter).2 !! ip = limiter !! ip.
Proof.
  intros Hne. unfold rateLimit.
  destruct (limiter !! ip') as [rec|]; simpl.
  - destruct (_ >? _); simpl; [by rewrite lookup_insert_ne|].
    destruct (_ >? _); simpl; by rewrite lookup_insert_ne.
  - by rewrite lookup_insert_ne.
Qed.

Lemma earlier_0 ip reqs : earlier ip reqs 0 = 0.
Proof. done. Qed.

Lemma earlier_S_same ip t reqs i :
  earlier ip ((ip, t) :: reqs) (S i) = earlier ip reqs i + 1.
Proof.
  unfold earlier. simpl. rewrite filter_cons_True by done. simpl length. lia.
Qed.

Lemma earlier_S_other ip ip' t reqs i :
  ip' <> ip -> earlier ip ((ip', t) :: reqs) (S i) = earlier ip reqs i.
Proof.
  intros Hne. unfold earlier. simpl. by rewrite filter_cons_False.
Qed.

(** Inside one window the [n]-th request of a client gets [verdict n],
    whatever other clients do in between. *)
Lemma serve_same_window ip t0 reqs :
  forall (limiter : gmap string RateWindow) c,
    limiter !! ip = Some {| count := c; windowStart := t0 |} ->
    (forall t, (ip, t) ∈ reqs -> t - t0 <= RATE_LIMIT_WINDOW_MS) ->
    forall i t, reqs !! i = Some (ip, t) ->
      (serve reqs limiter).1 !! i = Some (verdict t0 (c + earlier ip reqs i + 1) t).
Proof.
  induction reqs as [|[ip' t'] reqs IH]; intros limiter c Hl Hin i t Hi; [done|].
  simpl.
  destruct (rateLimit t' ip' limiter) as [r limiter'] eqn:Er.
  destruct (serve reqs limiter') as [rs limiter''] eqn:Es.
  destruct (decide (ip' = ip)) as [->|Hne].
  - rewrite (rateLimit_same_window t' ip limiter c t0) in Er; [|done|].
    2:{ apply Hin. left. }
    injection Er as <- <-.
    destruct i as [|i]; simpl in *.
    + injection Hi as ->. rewrite earlier_0. by rewrite Z.add_0_r.
    + rewrite earlier_S_same.
      specialize (IH (<[ip:={| count := c + 1; windowStart := t0 |}]> limiter) (c + 1)).
      rewrite Es in IH. simpl in IH.
      rewrite (IH (lookup_insert_eq _ _ _)) with (t := t); [|by intros; apply Hin; right|done].
      do 2 f_equal. lia.
  - destruct i as [|i]; simpl in *; [congruence|].
    rewrite earlier_S_other by done.
    specialize (IH limiter' c). rewrite Es in IH. simpl in IH.
    apply IH; [|by intros; apply Hin; right|done].
    replace limiter' with (rateLimit t' ip' limiter).2 by (by rewrite Er).
    by rewrite rateLimit_other.
Qed.

(** C6.  In run-audit.js the limiter, for any client [ip] and whatever
    other clients do in between: (1) when a request at [t0] starts a window
    and the later requests of [ip] fall within [RATE_LIMIT_WINDOW_MS] of
    [t0], the window's first request is admitted and its [n]-th request is
    admitted (with [RATE_LIMIT_MAX - n] remaining) exactly when
    [n <= RATE_LIMIT_MAX = 10]; from the 11th on it is denied with
    [retryAfter = (t0 + RATE_LIMIT_WINDOW_MS - now) / 1000] seconds, the time
    left until the window ends; (2) once more than the window duration has
    passed since [windowStart], the next request is admitted and stores
    [count = 1, windowStart = now], whatever the count was. *)
Theorem rateLimit_fixed_window :
  (forall (limiter : gmap string RateWindow) ip t0 reqs,
      opens_window limiter ip t0 ->
      (forall t, (ip, t) ∈ reqs -> t - t0 <= RATE_LIMIT_WINDOW_MS) ->
      (serve ((ip, t0) :: reqs) limiter).1 !! 0%nat = Some (Allowed (RATE_LIMIT_MAX - 1)) /\
      forall i t, reqs !! i = Some (ip, t) ->
        let n := earlier ip reqs i + 2 in
        (serve ((ip, t0) :: reqs) limiter).1 !! S i =
          Some (if n <=? RATE_LIMIT_MAX
                then Allowed (RATE_LIMIT_MAX - n)
                else Denied ((t0 + RATE_LIMIT_WINDOW_MS - t) # 1000))) /\
  (forall (limiter : gmap string RateWindow) ip now rec,
      limiter !! ip = Some rec ->
      now - windowStart rec > RATE_LIMIT_WINDOW_MS ->
      rateLimit now ip limiter =
        (Allowed (RATE_LIMIT_MAX - 1),
         <[ip := {| count := 1; windowStart := now |}]> limiter)).
Proof.
  split.
  - intros limiter ip t0 reqs Hopen Hin.
    cbn [serve]. rewrite (rateLimit_fresh _ _ _ Hopen).
    pose proof (serve_same_window ip t0 reqs
      (<[ip:={| count := 1; windowStart := t0 |}]> limiter) 1
      (lookup_insert_eq _ _ _) Hin) as Hs.
    destruct (serve reqs _) as [rs limiter'']. simpl in *.
    split; [done|]. intros i t Hi. rewrite (Hs i t Hi). f_equal.
    unfold verdict. rewrite Z.gtb_ltb.
    destruct (Z.leb_spec (earlier ip reqs i + 2) RATE_LIMIT_MAX);
      destruct (Z.ltb_spec RATE_LIMIT_MAX (1 + earlier ip reqs i + 1));
      try lia; [f_equal; lia | done].
  - intros limiter ip now rec Hl Hw. apply rateLimit_fresh.
    unfold opens_window. by rewrite Hl.
Qed.

Lemma rateLimit_fixed_window_witness :
  (serve (("203.0.113.7", 1000) :: replicate 10 ("203.0.113.7", 2000)) ∅).1 !! 10%nat
    = Some (Denied (59000 # 1000)) /\
  rateLimit 70000 "203.0.113.7"
      {[ "203.0.113.7" := {| count := 11; windowStart := 1000 |} ]}
    = (Allowed 9,
       <["203.0.113.7" := {| count := 1; windowStart := 70000 |}]>
         {[ "203.0.113.7" := {| count := 11; windowStart := 1000 |} ]}).
Proof.
  destruct rateLimit_fixed_window as [Hwin Hreset]. split.
  - refine (proj2 (Hwin ∅ "203.0.113.7" 1000 (replicate 10 ("203.0.113.7", 2000)) _ _)
              9%nat 2000 _).
    + exact I.
    + intros t Hin. apply elem_of_replicate in Hin as [Heq _].
      injection Heq as ->. unfold RATE_LIMIT_WINDOW_MS. lia.
    + reflexivity.
  - apply (Hreset _ _ 70000 {| count := 11; windowStart := 1000 |}).
    + apply lookup_singleton_eq.
    + unfold RATE_LIMIT_WINDOW_MS. simpl. lia.
Defined.

End RateLimiterFacts.

Module SafeResolverFacts.
Import IpAddr SafeResolver.

Lemma isPrivateAddress_returns lookup hostname :
  returns (isPrivateAddress lookup hostname).
Proof.
  unfold isPrivateAddress, returns.
  destruct (lookup hostname); simpl; eauto.
Qed.

(** Conservative union: one flagged address is enough. *)
Lemma isPrivateAddress_any lookup hostname addrs :
  lookup hostname = Ret addrs ->
  isPrivateAddress lookup hostname = Ret true <->
  exists a, In a addrs /\ addressIsPrivate a = true.
Proof.
  intros Hl. unfold isPrivateAddress. rewrite Hl. simpl.
  rewrite <- existsb_exists. split; [by intros [= ->]|by intros ->].
Qed.

Lemma includes_disallowed r :
  includes ["private"; "loopback"; "linkLocal"; "carrierGradeNat"; "uniqueLocal"] r
  = includes disallowedRanges r.
Proof.
  unfold includes, disallowedRanges. simpl.
  destruct (String.eqb r "private"), (String.eqb r "loopback"),
    (String.eqb r "linkLocal"), (String.eqb r "carrierGradeNat"),
    (String.eqb r "uniqueLocal"); reflexivity.
Qed.

Lemma includes_private_loopback r :
  includes ["private"; "loopback"] r = true -> includes disallowedRanges r = true.
Proof.
  unfold includes, disallowedRanges. simpl.
  destruct (String.eqb r "private"), (String.eqb r "loopback"); simpl; try done.
Qed.

(** An address that is not IPv4-mapped is classified as the specification
    says. *)
Lemma addressIsPrivate_native a :
  isIPv4MappedAddress a = false ->
  addressIsPrivate (Ret a) = specDisallowed a.
Proof.
  intros Hm. unfold addressIsPrivate, specDisallowed, toIPv4Address.
  rewrite Hm, andb_false_r, includes_disallowed.
  destruct a; by destruct (includes _ _).
Qed.

(** Whatever the check flags is disallowed by the specification. *)
Lemma addressIsPrivate_sound a :
  addressIsPrivate (Ret a) = true -> specDisallowed a = true.
Proof.
  destruct (isIPv4MappedAddress a) eqn:Hm.
  - unfold addressIsPrivate, specDisallowed.
    assert (Hr : range a = "ipv4Mapped") by (by apply String.eqb_eq).
    rewrite Hr.
    change (includes ["private"; "loopback"; "linkLocal"; "carrierGradeNat"; "uniqueLocal"]
              "ipv4Mapped") with false.
    cbv iota. destruct a as [o|p].
    + change (String.eqb (kind (IPv4 o)) "ipv6") with false. done.
    + unfold toIPv4Address. rewrite Hm.
      change (String.eqb (kind (IPv6 p)) "ipv6") with true. cbn [andb].
      apply includes_private_loopback.
  - by rewrite addressIsPrivate_native.
Qed.

(** C1 (the code departs from the claim).  A lookup answering the single
    address ::ffff:169.254.169.254, the IPv4-mapped form of a link-local
    address, is not flagged: [isPrivateAddress] answers [false], although
    the unwrapped IPv4 form 169.254.169.254 is in the link-local range that
    the check rejects for a plain IPv4 address.  The same holds for the
    mapped carrier-grade NAT address ::ffff:100.64.0.1. *)
Theorem isPrivateAddress_mapped_link_local_allowed :
  let mapped := IPv6 [0; 0; 0; 0; 0; 65535; 43518; 43518] in
  let cgnat := IPv6 [0; 0; 0; 0; 0; 65535; 25664; 1] in
  toIPv4Address mapped = Ret (IPv4 [169; 254; 169; 254]) /\
  range (IPv4 [169; 254; 169; 254]) = "linkLocal" /\
  specDisallowed mapped = true /\
  isPrivateAddress (fun _ => Ret [Ret (IPv4 [169; 254; 169; 254])]) "metadata.test" = Ret true /\
  isPrivateAddress (fun _ => Ret [Ret mapped]) "metadata.test" = Ret false /\
  specDisallowed cgnat = true /\
  isPrivateAddress (fun _ => Ret [Ret cgnat]) "nat.test" = Ret false.
Proof. repeat split; vm_compute; reflexivity. Qed.

End SafeResolverFacts.

Module FetcherFacts.
Import Fetcher.

(** C9.  [fetchWithTimeout] returns a result for every response the
    network delivers before the signal fires, whatever its status: the
    result carries the status and [ok = res.ok], which is [false] for every
    status from 400 up; [text] is a string [t] exactly when the content-type
    header contains "text", "json", "html" or "xml" and reading the body gave
    [t], and is [null] otherwise.  The call throws exactly when the network
    fails or the signal (the timeout, unless the caller gave a signal) fires
    before the response. *)
Theorem fetchWithTimeout_contract net signal msTimeout :
  (forall latency res,
      net = Answers latency res ->
      aborted signal msTimeout latency = false ->
      exists r, fetchWithTimeout net signal msTimeout = Ret r /\
        status r = res_status res /\
        ok r = res_ok res /\
        (400 <= res_status res -> ok r = false) /\
        (forall t, text r = Some t <->
           textLike (default "" (res_headers res !! "content-type")) = true /\
           res_body res = Ret t) /\
        (text r = None <->
           textLike (default "" (res_headers res !! "content-type")) = false \/
           exists e, res_body res = Throw e)) /\
  ((exists e, fetchWithTimeout net signal msTimeout = Throw e) <->
   (exists msg, net = NetworkError msg) \/
   (exists latency res, net = Answers latency res /\
                        aborted signal msTimeout latency = true)).
Proof.
  split.
  - intros latency res -> Hab. unfold fetchWithTimeout, fetch. rewrite Hab. simpl.
    eexists. split; [reflexivity|]. simpl. repeat split.
    + intros Hs. unfold res_ok. apply andb_false_iff. right. apply Z.leb_gt. lia.
    + destruct (textLike _); [|done]. by destruct (res_body res).
    + destruct (textLike _); [|done]. destruct (res_body res); [|done]. congruence.
    + intros [Ht Hb]. rewrite Ht, Hb. done.
    + destruct (textLike _); [|by left]. destruct (res_body res); [done|]. right. eauto.
    + intros [Ht|[e Hb]]; [by rewrite Ht|]. rewrite Hb. by destruct (textLike _).
  - unfold fetchWithTimeout, fetch. destruct net as [msg|latency res]; simpl.
    + split; eauto.
    + destruct (aborted signal msTimeout latency) eqn:Hab; simpl.
      * split; eauto.
      * split; [by intros [e He]|].
        intros [[msg Hm]|(l & r & Heq & Hab')]; [done|]. congruence.
Qed.

Lemma fetchWithTimeout_contract_witness :
  let res := {| res_status := 404;
                res_headers := {[ "content-type" := "text/html; charset=utf-8" ]};
                res_url := "https://example.com/missing";
                res_body := Ret "<h1>Not Found</h1>" |} in
  exists r, fetchWithTimeout (Answers 120 res) None DEFAULT_TIMEOUT = Ret r /\
    status r = 404 /\ ok r = false /\ text r = Some "<h1>Not Found</h1>".
Proof.
  intros res.
  destruct (proj1 (fetchWithTimeout_contract (Answers 120 res) None DEFAULT_TIMEOUT)
              120 res eq_refl eq_refl) as (r & Hr & Hst & Hok & H4 & Htx & _).
  exists r. split; [exact Hr|]. split; [exact Hst|].
  split; [apply H4; simpl; lia|].
  apply Htx. split; reflexivity.
Defined.

End FetcherFacts.

Module PathFacts.

Lemma string_forall_app p s t :
  string_forall p (s +:+ t) = string_forall p s && string_forall p t.
Proof. induction s as [|c s IH]; simpl; [done|]. by rewrite IH, andb_assoc. Qed.

Lemma string_forall_impl (p q : ascii -> bool) s :
  (forall c, p c = true -> q c = true) ->
  string_forall p s = true -> string_forall q s = true.
Proof.
  intros Hpq. induction s as [|c s IH]; simpl; [done|].
  intros [Hc Hs]%andb_true_iff. apply andb_true_iff. auto.
Qed.

(** A string without "/" is a single segment. *)
Lemma segments_no_slash s :
  string_forall (fun c => negb (Ascii.eqb c "/")) s = true -> segments s = [s].
Proof.
  unfold segments. induction s as [|c s IH]; simpl; [done|].
  intros [Hc Hs]%andb_true_iff. apply negb_true_iff in Hc. rewrite Hc.
  by rewrite (IH Hs).
Qed.

Lemma normalize_plain stack s :
  s <> "" -> s <> "." -> s <> ".." -> normalize stack [s] = rev (s :: stack).
Proof.
  intros H1 H2 H3. simpl.
  apply String.eqb_neq in H1, H2, H3. by rewrite H1, H2, H3.
Qed.

Lemma add_ext_snoc (dir : Path) s ext :
  add_ext (dir ++ [s]) ext = dir ++ [s +:+ ext].
Proof.
  induction dir as [|a dir IH]; simpl; [done|].
  rewrite IH. by destruct dir.
Qed.

Lemma length_append s t : String.length (s +:+ t) = (String.length s + String.length t)%nat.
Proof. induction s as [|c s IH]; simpl; [done|]. by rewrite IH. Qed.

Lemma append_assoc s t u : (s +:+ t) +:+ u = s +:+ (t +:+ u).
Proof.
  induction s as [|c s IH]; [done|].
  change (String c ((s +:+ t) +:+ u) = String c (s +:+ t +:+ u)). by rewrite IH.
Qed.

End PathFacts.

Module StorageFacts.
Import Storage PathFacts.

Lemma safeChar_not_slash c : safeChar c = true -> negb (Ascii.eqb c "/") = true.
Proof.
  destruct (Ascii.eqb_spec c "/") as [->|]; [|done]. vm_compute. done.
Qed.

Lemma safeName_safe siteId : string_forall safeChar (safeName siteId) = true.
Proof.
  induction siteId as [|c s IH]; simpl; [done|]. rewrite IH, andb_true_r.
  by destruct (safeChar c) eqn:E.
Qed.

Lemma safeName_length siteId : String.length (safeName siteId) = String.length siteId.
Proof. induction siteId; simpl; congruence. Qed.

(** A [siteId] made of characters of the class is its own file name. *)
Lemma safeName_id siteId : string_forall safeChar siteId = true -> safeName siteId = siteId.
Proof.
  induction siteId as [|c s IH]; simpl; [done|].
  intros [Hc Hs]%andb_true_iff. by rewrite Hc, IH.
Qed.

Lemma json_name_plain s :
  (s +:+ ".json") <> "" /\ (s +:+ ".json") <> "." /\ (s +:+ ".json") <> "..".
Proof.
  repeat split; intros H; apply (f_equal String.length) in H;
    rewrite length_append in H; simpl in H; lia.
Qed.

(** [path.join] has nothing to normalize: the file is the one named
    [safeName siteId ++ ".json"] directly under [AUDITS_DIR]. *)
Lemma auditFile_eq siteId :
  auditFile siteId = AUDITS_DIR ++ [safeName siteId +:+ ".json"].
Proof.
  unfold auditFile, path_join.
  rewrite segments_no_slash.
  - destruct (json_name_plain (safeName siteId)) as (H1 & H2 & H3).
    by rewrite normalize_plain.
  - rewrite string_forall_app. apply andb_true_iff. split; [|done].
    eapply string_forall_impl; [apply safeChar_not_slash|apply safeName_safe].
Qed.

Lemma tmpFile_eq siteId :
  tmpFile siteId = AUDITS_DIR ++ [safeName siteId +:+ ".json.tmp"].
Proof.
  unfold tmpFile. rewrite auditFile_eq, add_ext_snoc.
  by rewrite append_assoc.
Qed.

Lemma tmpFile_ne_auditFile siteId : tmpFile siteId <> auditFile siteId.
Proof.
  rewrite tmpFile_eq, auditFile_eq. intros H%app_inv_head. injection H as H.
  apply (f_equal String.length) in H. rewrite !length_append in H. simpl in H. lia.
Qed.

End StorageFacts.

Module StoreRun.
Import Storage PathFacts StorageFacts.

Lemma parent_snoc (dir : Path) s : parent (dir ++ [s]) = dir.
Proof. unfold parent. apply removelast_last. Qed.

Lemma ensureDir_run d :
  (files d !! AUDITS_DIR = Some Dir \/
   (files d !! AUDITS_DIR = None /\ forall c, files d !! ["data"] <> Some (File c))) ->
  exists d1, ensureDir d = (Ret tt, d1) /\
    files d1 = ensured (files d) /\
    files d1 !! AUDITS_DIR = Some Dir /\
    journal d1 = journal d ++ ensure_changes (files d) /\
    (exists tl, touched d1 = touched d ++ tl /\ forall p, p ∈ tl -> p = AUDITS_DIR).
Proof.
  intros Hready. unfold ensureDir, fs_bind, existsSync, ensured, ensure_changes.
  destruct Hready as [Hdir|[Hnone Hdata]].
  - rewrite Hdir. simpl. eexists. split; [reflexivity|]. simpl.
    repeat split; [done|by rewrite app_nil_r|].
    exists [AUDITS_DIR]. split; [done|]. by intros p ->%list_elem_of_singleton.
  - rewrite Hnone. simpl. unfold mkdirSync. unfold AUDITS_DIR in *. simpl. rewrite Hnone.
    destruct (files d !! ["data"]) as [[c|]|] eqn:Hd; [by destruct (Hdata c)| |].
    + eexists. split; [reflexivity|]. simpl. repeat split.
      * apply lookup_insert_eq.
      * exists [AUDITS_DIR; AUDITS_DIR]. split; [by rewrite <- app_assoc|].
        intros p Hp. repeat (apply elem_of_cons in Hp as [->|Hp]; [done|]).
        by apply elem_of_nil in Hp.
    + eexists. split; [reflexivity|]. simpl. repeat split.
      * apply lookup_insert_eq.
      * exists [AUDITS_DIR; AUDITS_DIR]. split; [by rewrite <- app_assoc|].
        intros p Hp. repeat (apply elem_of_cons in Hp as [->|Hp]; [done|]).
        by apply elem_of_nil in Hp.
Qed.

Lemma ensured_other (f : gmap Path Node) (p : Path) :
  p <> AUDITS_DIR -> p <> ["data"] -> ensured f !! p = f !! p.
Proof.
  intros H1 H2. unfold ensured. destruct (f !! AUDITS_DIR); [done|].
  by rewrite !lookup_insert_ne.
Qed.

Lemma auditFile_not_dir_path siteId :
  auditFile siteId <> AUDITS_DIR /\ auditFile siteId <> ["data"].
Proof. rewrite auditFile_eq. split; intros H; discriminate H. Qed.

Lemma tmpFile_not_dir_path siteId :
  tmpFile siteId <> AUDITS_DIR /\ tmpFile siteId <> ["data"].
Proof. rewrite tmpFile_eq. split; intros H; discriminate H. Qed.

Lemma prefixes_first c s : String c EmptyString ∈ prefixes (String c s).
Proof.
  simpl. right. apply list_elem_of_fmap. exists EmptyString. split; [done|].
  destruct s; left.
Qed.

Lemma prefixes_last s : s ∈ prefixes s.
Proof.
  induction s as [|c s IH]; simpl; [by left|].
  right. apply list_elem_of_fmap. eauto.
Qed.

Lemma is_dir_true (f : gmap Path Node) (p : Path) : f !! p = Some Dir -> is_dir f p = true.
Proof. intros H. unfold is_dir. destruct p; [done|]. by rewrite H. Qed.

Lemma is_dir_false (f : gmap Path Node) (p : Path) :
  p <> [] -> f !! p <> Some Dir -> is_dir f p = false.
Proof.
  intros Hp H. unfold is_dir. destruct p; [done|].
  destruct (f !! (s :: p)) as [[c|]|]; done.
Qed.

Lemma auditFile_parent siteId : parent (auditFile siteId) = AUDITS_DIR.
Proof. rewrite auditFile_eq. apply parent_snoc. Qed.

Lemma tmpFile_parent siteId : parent (tmpFile siteId) = AUDITS_DIR.
Proof. rewrite tmpFile_eq. apply parent_snoc. Qed.

Lemma auditFile_nonempty siteId : auditFile siteId <> [].
Proof. by rewrite auditFile_eq. Qed.

Lemma tmpFile_nonempty siteId : tmpFile siteId <> [].
Proof. by rewrite tmpFile_eq. Qed.

Lemma observable_ensure (f : gmap Path Node) cs :
  observable f (ensure_changes f ++ cs) =
    match f !! AUDITS_DIR with Some _ => [] | None => [ensured f] end ++
    observable (ensured f) cs.
Proof.
  unfold ensure_changes, ensured. by destruct (f !! AUDITS_DIR).
Qed.

(** What [saveAudit] does on a store that is ready: it returns [true]; the
    record's file holds the whole text; while it ran, the record's file held
    either what it held before or the whole text; and the only paths it
    handed to the file system are the directory, the file and the temporary
    file. *)
Lemma saveAudit_run J siteId v d :
  store_ready (files d) siteId ->
  exists d1, saveAudit J siteId v d = (Ret true, d1) /\
    files d1 = <[auditFile siteId := File (JSON_stringify J v)]>
                 (delete (tmpFile siteId) (ensured (files d))) /\
    journal d1 = journal d ++ save_changes (files d) siteId (JSON_stringify J v) /\
    (forall f, f ∈ observable (files d) (save_changes (files d) siteId (JSON_stringify J v)) ->
       f !! auditFile siteId = files d !! auditFile siteId \/
       f !! auditFile siteId = Some (File (JSON_stringify J v))) /\
    (exists tl, touched d1 = touched d ++ tl /\
       forall p, p ∈ tl -> p = AUDITS_DIR \/ p = auditFile siteId \/ p = tmpFile siteId).
Proof.
  intros (Hdir & Hfile & Htmp).
  destruct (ensureDir_run d Hdir) as (d1 & Hrun & Hf1 & Hd1 & Hj1 & (tl1 & Ht1 & Htl1)).
  destruct (auditFile_not_dir_path siteId) as [Hfa Hfd].
  destruct (tmpFile_not_dir_path siteId) as [Hta Htd].
  pose proof (tmpFile_ne_auditFile siteId) as Hne.
  unfold saveAudit, fs_bind. rewrite Hrun.
  unfold writeFile. cbn [files touch].
  rewrite tmpFile_parent, (is_dir_true _ _ Hd1). cbn [negb].
  rewrite is_dir_false; [|apply tmpFile_nonempty|by rewrite Hf1, ensured_other].
  unfold rename. cbn [files touch commit change]. rewrite lookup_insert_eq.
  rewrite auditFile_parent, is_dir_true by (by rewrite lookup_insert_ne).
  cbn [negb].
  rewrite is_dir_false;
    [|apply auditFile_nonempty|by rewrite lookup_insert_ne, Hf1, ensured_other].
  unfold fs_ret. eexists. split; [reflexivity|].
  cbn [files journal touched commit touch change]. rewrite lookup_insert_eq.
  split; [|split; [|split]].
  - rewrite delete_insert_eq, Hf1. done.
  - unfold save_changes. rewrite Hj1, <- !app_assoc. reflexivity.
  - intros f. unfold save_changes. rewrite observable_ensure.
    cbn [observable during change]. rewrite lookup_insert_eq.
    intros Hf. apply elem_of_app in Hf as [Hf|Hf].
    + left. destruct (files d !! AUDITS_DIR); [by apply elem_of_nil in Hf|].
      apply list_elem_of_singleton in Hf as ->. by apply ensured_other.
    + apply elem_of_app in Hf as [Hf|Hf].
      * left. apply list_elem_of_fmap in Hf as (pre & -> & _).
        rewrite lookup_insert_ne by done. by apply ensured_other.
      * right. rewrite app_nil_r in Hf. apply list_elem_of_singleton in Hf as ->.
        apply lookup_insert_eq.
  - eexists. split; [rewrite Ht1, <- !app_assoc; reflexivity|].
    intros p Hp. apply elem_of_app in Hp as [Hp|Hp]; [left; by apply Htl1|].
    repeat (apply elem_of_cons in Hp as [->|Hp]; [by auto|]).
    by apply elem_of_nil in Hp.
Qed.

(** On a store where the record's file holds the text of [v], [getAudit]
    returns [v]. *)
Lemma getAudit_run J siteId v d :
  siteId <> "" ->
  files d !! AUDITS_DIR = Some Dir ->
  files d !! auditFile siteId = Some (File (JSON_stringify J v)) ->
  serializable J v ->
  exists d1, getAudit J siteId d = (Ret v, d1) /\ files d1 = files d.
Proof.
  intros Hid Hdir Hfile Hser. unfold getAudit.
  apply String.eqb_neq in Hid. rewrite Hid.
  unfold fs_bind, ensureDir, fs_bind, existsSync. cbn [files touch].
  rewrite Hdir. simpl. rewrite Hfile. simpl.
  unfold readFile. cbn [files touch]. rewrite Hfile.
  unfold serializable in Hser. rewrite Hser. eexists. split; reflexivity.
Qed.

End StoreRun.

Module Confinement.

Lemma confined_ret {A} S (a : A) : confined S (fs_ret a).
Proof.
  intros d. split; [|done]. exists []. rewrite app_nil_r. split; [done|].
  intros p Hp. by apply elem_of_nil in Hp.
Qed.

Lemma confined_throw {A} S e : confined S (@fs_throw A e).
Proof.
  intros d. split; [|done]. exists []. rewrite app_nil_r. split; [done|].
  intros p Hp. by apply elem_of_nil in Hp.
Qed.

Lemma confined_bind {A B} S (m : FS A) (k : A -> FS B) :
  confined S m -> (forall a, confined S (k a)) -> confined S (fs_bind m k).
Proof.
  intros Hm Hk d. unfold fs_bind. specialize (Hm d).
  destruct (m d) as [[a|e] d1]; simpl in *; [|done].
  destruct Hm as [(tl1 & Ht1 & Hin1) Hf1].
  destruct (Hk a d1) as [(tl2 & Ht2 & Hin2) Hf2].
  split.
  - exists (tl1 ++ tl2). rewrite Ht2, Ht1, app_assoc. split; [done|].
    intros p [?|?]%elem_of_app; auto.
  - intros q Hq. rewrite Hf2, Hf1; auto.
Qed.

Lemma confined_catch {A} S (m : FS A) (h : string -> FS A) :
  confined S m -> (forall e, confined S (h e)) -> confined S (fs_catch m h).
Proof.
  intros Hm Hh d. unfold fs_catch. specialize (Hm d).
  destruct (m d) as [[a|e] d1]; simpl in *; [done|].
  destruct Hm as [(tl1 & Ht1 & Hin1) Hf1].
  destruct (Hh e d1) as [(tl2 & Ht2 & Hin2) Hf2].
  split.
  - exists (tl1 ++ tl2). rewrite Ht2, Ht1, app_assoc. split; [done|].
    intros p [?|?]%elem_of_app; auto.
  - intros q Hq. rewrite Hf2, Hf1; auto.
Qed.

Lemma confined_mono {A} S S' (m : FS A) :
  (forall p, p ∈ S -> p ∈ S') -> confined S m -> confined S' m.
Proof.
  intros Hsub Hm d. destruct (Hm d) as [(tl & Ht & Hin) Hf]. split.
  - exists tl. split; [done|]. auto.
  - intros q Hq. apply Hf. intros p Hp. apply Hq. auto.
Qed.

Lemma confined_console_log S level tag : confined S (console_log level tag).
Proof.
  intros d. split; [|done]. exists []. rewrite app_nil_r. split; [done|].
  intros p Hp. by apply elem_of_nil in Hp.
Qed.

Lemma confined_existsSync S (p : Path) : p ∈ S -> confined S (existsSync p).
Proof.
  intros Hp d. split; [|done]. exists [p]. split; [done|].
  by intros x ->%list_elem_of_singleton.
Qed.

Lemma confined_readFile S (p : Path) : p ∈ S -> confined S (readFile p).
Proof.
  intros Hp d. unfold readFile.
  destruct (files d !! p) as [[c|]|]; simpl;
    (split; [|done]; exists [p]; split; [done|]; by intros x ->%list_elem_of_singleton).
Qed.

Lemma confined_writeFile S (p : Path) data : p ∈ S -> confined S (writeFile p data).
Proof.
  intros Hp d. unfold writeFile. cbn [files touch].
  destruct (negb _); [|destruct (is_dir _ p)]; simpl.
  1,2: split; [|done]; exists [p]; split; [done|]; by intros x ->%list_elem_of_singleton.
  split.
  - exists [p]; split; [done|]; by intros x ->%list_elem_of_singleton.
  - intros q Hq. apply lookup_insert_ne. intros ->. by apply (Hq q Hp).
Qed.

Lemma confined_rename S (src dst : Path) :
  src ∈ S -> dst ∈ S -> confined S (rename src dst).
Proof.
  intros Hs Hd d. unfold rename. cbn [files touch].
  assert (Ht : exists tl, (touched d ++ [src]) ++ [dst] = touched d ++ tl /\
                          forall p, p ∈ tl -> p ∈ S).
  { exists [src; dst]. split; [by rewrite <- app_assoc|].
    intros p Hp. repeat (apply elem_of_cons in Hp as [->|Hp]; [done|]).
    by apply elem_of_nil in Hp. }
  destruct (files d !! src) as [n|] eqn:Hsrc; [|by split].
  destruct (negb _); [by split|]. destruct (is_dir _ dst); [by split|].
  simpl. split; [done|]. intros q Hq. rewrite Hsrc.
  rewrite lookup_insert_ne, lookup_delete_ne; [done| |]; intros ->.
  - by apply (Hq q Hs).
  - by apply (Hq q Hd).
Qed.

Lemma mkdirs_lookup (n : nat) (p q : Path) (f : gmap Path Node) :
  ~ q `prefix_of` p -> mkdirs n p f !! q = f !! q.
Proof.
  intros Hq. induction n as [|n IH]; simpl; [done|].
  rewrite lookup_insert_ne; [done|]. intros <-. apply Hq.
  exists (drop (S n) p). by rewrite take_drop.
Qed.

Lemma confined_mkdirSync S (p : Path) : p ∈ S -> confined S (mkdirSync p).
Proof.
  intros Hp d. unfold mkdirSync. cbn [files touch].
  destruct (file_above _ _ _); simpl.
  - split; [|done]. exists [p]; split; [done|]; by intros x ->%list_elem_of_singleton.
  - split.
    + exists [p]; split; [done|]; by intros x ->%list_elem_of_singleton.
    + intros q Hq. apply mkdirs_lookup. by apply Hq.
Qed.

End Confinement.

Module StoragePaths.
Import Storage PathFacts StorageFacts Confinement.

Lemma safeName_get siteId n c :
  String.get n siteId = Some c ->
  String.get n (safeName siteId) = Some (if safeChar c then c else "_"%char).
Proof.
  revert n. induction siteId as [|a s IH]; intros n; simpl; [done|].
  destruct n as [|n]; [by intros [= ->]|]. apply IH.
Qed.

Lemma confined_ensureDir S : AUDITS_DIR ∈ S -> confined S ensureDir.
Proof.
  intros H. apply confined_bind; [by apply confined_existsSync|].
  intros [|]; [apply confined_ret|by apply confined_mkdirSync].
Qed.

Lemma confined_getAudit J siteId :
  confined [AUDITS_DIR; auditFile siteId] (getAudit J siteId).
Proof.
  unfold getAudit. destruct (String.eqb siteId ""); [apply confined_ret|].
  apply confined_bind; [apply confined_ensureDir; set_solver|]. intros _.
  apply confined_bind; [apply confined_existsSync; set_solver|].
  intros [|]; simpl; [|apply confined_ret].
  apply confined_bind; [apply confined_readFile; set_solver|]. intros raw.
  destruct (JSON_parse J raw); [apply confined_ret|apply confined_throw].
Qed.

Lemma confined_saveAudit J siteId v :
  confined [AUDITS_DIR; auditFile siteId; tmpFile siteId] (saveAudit J siteId v).
Proof.
  unfold saveAudit.
  apply confined_bind; [apply confined_ensureDir; set_solver|]. intros _.
  apply confined_bind; [apply confined_writeFile; set_solver|]. intros _.
  apply confined_bind; [apply confined_rename; set_solver|]. intros _.
  apply confined_ret.
Qed.

(** C10 (as the code has it).  For every [siteId], the name
    [safeName siteId] is [siteId] with each character outside
    [[a-zA-Z0-9-_.]] replaced by an underscore; [path.join] puts the file
    [safeName siteId ++ ".json"] directly under data/audits, the name holding
    no separator.  [getAudit] hands only that file and the directory to the
    file system; [saveAudit] hands it those two and the temporary file
    [safeName siteId ++ ".json.tmp"] of the same directory.  Whether they
    return or throw, every file other than these, and other than the
    directories data and data/audits, is left as it was. *)
Theorem store_paths_confined J siteId v :
  String.length (safeName siteId) = String.length siteId /\
  (forall n c, String.get n siteId = Some c ->
     String.get n (safeName siteId) = Some (if safeChar c then c else "_"%char)) /\
  string_forall (fun c => negb (Ascii.eqb c "/")) (safeName siteId +:+ ".json") = true /\
  auditFile siteId = AUDITS_DIR ++ [safeName siteId +:+ ".json"] /\
  tmpFile siteId = AUDITS_DIR ++ [safeName siteId +:+ ".json.tmp"] /\
  confined [AUDITS_DIR; auditFile siteId] (getAudit J siteId) /\
  confined [AUDITS_DIR; auditFile siteId; tmpFile siteId] (saveAudit J siteId v).
Proof.
  split; [apply safeName_length|].
  split; [apply safeName_get|].
  split.
  { rewrite string_forall_app. apply andb_true_iff. split; [|done].
    eapply string_forall_impl; [apply safeChar_not_slash|apply safeName_safe]. }
  split; [apply auditFile_eq|].
  split; [apply tmpFile_eq|].
  split; [apply confined_getAudit|apply confined_saveAudit].
Qed.

(** C10 as stated fails: saving under the identifier "a" writes
    data/audits/a.json.tmp, which is not the file data/audits/a.json. *)
Lemma saveAudit_touches_tmp_file :
  auditFile "a" = ["data"; "audits"; "a.json"] /\
  ["data"; "audits"; "a.json.tmp"] ∈
    touched (saveAudit SampleJson.codec "a" JNull (disk_of ∅)).2 /\
  ~ confined [AUDITS_DIR; auditFile "a"] (saveAudit SampleJson.codec "a" JNull).
Proof.
  split; [reflexivity|].
  assert (Hin : ["data"; "audits"; "a.json.tmp"] ∈
            touched (saveAudit SampleJson.codec "a" JNull (disk_of ∅)).2).
  { vm_compute. do 2 right. left. }
  split; [exact Hin|].
  intros Hc. destruct (Hc (disk_of ∅)) as [(tl & Ht & Hsub) _].
  simpl in Ht. rewrite <- Ht in Hsub. specialize (Hsub _ Hin).
  apply elem_of_cons in Hsub as [Hsub|Hsub]; [discriminate Hsub|].
  apply list_elem_of_singleton in Hsub. vm_compute in Hsub. discriminate Hsub.
Qed.

End StoragePaths.

Module ChatAnalystFacts.
Import ChatAnalyst PathFacts StorageFacts StoreRun.

Lemma loadAllAuditsJson_run J d :
  exists d1, loadAllAuditsJson J d = (Ret (storeOf J (files d)), d1) /\ files d1 = files d.
Proof.
  unfold loadAllAuditsJson, storeOf, fs_bind, fs_catch, existsSync, readFile.
  cbn [files touch].
  destruct (files d !! auditsJson) as [[raw|]|] eqn:Hf; simpl; rewrite ?Hf.
  - destruct (JSON_parse J _); simpl; eexists; split; reflexivity.
  - eexists; split; reflexivity.
  - eexists; split; reflexivity.
Qed.

Lemma perFile_stage J id d :
  exists d1,
    fs_bind (existsSync (perFile id)) (fun present : bool =>
      if present then
        fs_catch
          (fs_bind (readFile (perFile id)) (fun raw =>
             match JSON_parse J raw with
             | Ret v => fs_ret (Some v)
             | Throw e => fs_throw e
             end))
          (fun _ => fs_ret None)
      else fs_ret None) d
    = (Ret (perFileOf J (files d) id), d1) /\ files d1 = files d.
Proof.
  unfold perFileOf, fs_bind, fs_catch, existsSync, readFile. cbn [files touch].
  destruct (files d !! perFile id) as [[raw|]|] eqn:Hf; simpl; rewrite ?Hf.
  - destruct (JSON_parse J raw); simpl; eexists; split; reflexivity.
  - eexists; split; reflexivity.
  - destruct (bool_decide (perFile id = [])); simpl; rewrite ?Hf;
      eexists; split; reflexivity.
Qed.

Lemma getAudit_guarded J id d :
  exists d1,
    fs_catch (Storage.getAudit J id) (fun _ => fs_ret JNull) d
    = (Ret (storedOf J (files d) id), d1).
Proof.
  unfold storedOf, Storage.getAudit, fs_catch.
  destruct (String.eqb id ""); [eexists; reflexivity|].
  destruct (auditFile_not_dir_path id) as [Hfa Hfd].
  pose proof (auditFile_nonempty id) as Hne.
  unfold fs_bind at 1. unfold Storage.ensureDir, fs_bind at 1, existsSync at 1.
  cbn [files touch].
  assert (Hread : forall d' : Disk,
    files d' !! Storage.auditFile id = files d !! Storage.auditFile id ->
    exists d1,
      match
        fs_bind (existsSync (Storage.auditFile id)) (fun present : bool =>
          if negb present then fs_ret JNull
          else fs_bind (readFile (Storage.auditFile id)) (fun raw =>
                 match JSON_parse J raw with
                 | Ret v => fs_ret v
                 | Throw e => fs_throw ("Audit JSON parse error: " +:+ e)
                 end)) d'
      with
      | (Ret a, d2) => (Ret a, d2)
      | (Throw e, d2) => fs_ret JNull d2
      end
      = (Ret match files d !! Storage.auditFile id with
             | Some (File raw) =>
                 match JSON_parse J raw with Ret v => v | Throw _ => JNull end
             | _ => JNull
             end, d1)).
  { intros d' Hd'. unfold fs_bind, existsSync, readFile. cbn [files touch].
    rewrite Hd'. rewrite (bool_decide_eq_false_2 _ Hne), orb_false_r.
    destruct (files d !! Storage.auditFile id) as [[raw|]|] eqn:Hf; simpl; rewrite ?Hd', ?Hf.
    - destruct (JSON_parse J raw); simpl; eexists; reflexivity.
    - eexists; reflexivity.
    - eexists; reflexivity. }
  destruct (files d !! Storage.AUDITS_DIR) as [n|] eqn:Hdir; simpl.
  - unfold fs_ret at 1. apply Hread. done.
  - unfold mkdirSync. cbn [files touch]. unfold Storage.AUDITS_DIR in *. simpl.
    rewrite Hdir.
    destruct (files d !! ["data"]) as [[c|]|] eqn:Hdata.
    + eexists; reflexivity.
    + apply Hread. cbn [files commit change mkdirs length take].
      by rewrite !lookup_insert_ne.
    + apply Hread. cbn [files commit change mkdirs length take].
      by rewrite !lookup_insert_ne.
Qed.

(** The code computes the layered lookup of the files, and so always
    returns. *)
Lemma findAuditByIdOrSite_layered E J parseURL id d :
  (findAuditByIdOrSite E J parseURL id d).1 =
    Ret (layeredLookup E parseURL id (storeOf J (files d))
           (perFileOf J (files d) id) (storedOf J (files d) id)).
Proof.
  unfold findAuditByIdOrSite, layeredLookup.
  destruct (loadAllAuditsJson_run J d) as (d1 & Hload & Hf1).
  unfold fs_bind at 1. rewrite Hload.
  destruct (inStore E parseURL id (storeOf J (files d))) as [v|]; [done|].
  destruct (perFile_stage J id d1) as (d2 & Hstage & Hf2).
  unfold fs_bind at 1. unfold fs_bind at 1 in Hstage.
  unfold fs_bind at 1.
  destruct (existsSync (perFile id) d1) as [[present|e] d1'] eqn:Hex.
  2:{ unfold existsSync in Hex. discriminate Hex. }
  rewrite Hstage. rewrite Hf1.
  destruct (perFileOf J (files d) id) as [v|]; [done|].
  destruct (getAudit_guarded J id d2) as (d3 & Hget).
  unfold fs_bind at 1. rewrite Hget. rewrite Hf2, Hf1.
  by destruct (truthy (storedOf J (files d) id)).
Qed.

End ChatAnalystFacts.

Module ChatAnalystLayers.
Import ChatAnalyst ChatAnalystFacts.




End ChatAnalystLayers.

Module ChatAnalystExamples.
Import ChatAnalyst ChatAnalystLayers SampleStore.



End ChatAnalystExamples.

Module RunAuditFacts.
Import Perf RunAudit SampleWorld.

(** *** The SSRF step *)

(** When the lookup fails the step lets the request through and leaves the
    host, its console included, as it was: the failure is caught inside
    [isPrivateAddress] and never reaches the handler's [catch]. *)
Lemma ssrfCheck_lookup_failure W url u e d :
  parseURL W url = Ret u ->
  dnsLookup W (hostname u) = Throw e ->
  SafeResolver.isPrivateAddress (dnsLookup W) (hostname u) = Ret false /\
  ssrfCheck W url d = (Ret false, d).
Proof.
  intros Hu Hd. unfold ssrfCheck, SafeResolver.isPrivateAddress.
  rewrite Hu. simpl. rewrite Hd. simpl. by destruct d.
Qed.

(** The handler's warning is printed only when the URL does not parse,
    which [validateUrlText] has excluded before. *)
Lemma ssrfCheck_warns_iff W url d :
  console (ssrfCheck W url d).2 <> console d <-> exists e, parseURL W url = Throw e.
Proof.
  unfold ssrfCheck. destruct (parseURL W url) as [u|e]; simpl.
  - destruct (SafeResolverFacts.isPrivateAddress_returns (dnsLookup W) (hostname u)) as [b ->].
    simpl. split; [done|]. by intros [e He].
  - split; [eauto|]. intros _ H. apply (f_equal length) in H.
    rewrite length_app in H. simpl in H. lia.
Qed.

(** C2 (the code departs from the claim).  With a resolver that fails for
    every name, [isPrivateAddress] answers [false] and the handler goes on to
    answer 200 with the audit; but no warning is printed: the console holds
    only the error of the summary step. *)
Theorem handler_lookup_failure_no_warning :
  let W := worldWith noDns (Fetcher.Answers 120 page) (Ret (report 90)) (Ret (report 75)) in
  let run := (handler W request ∅).2 host in
  dnsLookup W "example.com" = Throw "getaddrinfo ENOTFOUND" /\
  SafeResolver.isPrivateAddress (dnsLookup W) "example.com" = Ret false /\
  statusOf run.1 = Some 200 /\
  is_Some (auditOf run.1) /\
  console run.2 = [(LogError, "[AI Summary Error]")] /\
  (LogWarn, "[SSRF Check Warning]") ∉ console run.2.
Proof.
  intros W run. split; [reflexivity|]. split; [reflexivity|].
  split; [vm_compute; reflexivity|].
  split; [vm_compute; eexists; reflexivity|].
  assert (Hc : console run.2 = [(LogError, "[AI Summary Error]")])
    by (vm_compute; reflexivity).
  split; [exact Hc|]. rewrite Hc. intros H%list_elem_of_singleton. discriminate H.
Qed.

(** *** The performance score *)

Lemma performanceScore_both m d lm im cm rm ld id cd rd ms fs :
  m <> 0 ->
  performanceScore {| mobile := Some (PsiReport (Some m) lm im cm rm);
                      desktop := Some (PsiReport (Some d) ld id cd rd);
                      serverFetchMs := ms; findings := fs |}
  = (m + d + 1) / 2.
Proof.
  intros Hm. unfold performanceScore. simpl.
  apply Z.eqb_neq in Hm. by rewrite Hm.
Qed.

(** [(s + 1) / 2] is [s / 2] rounded to the nearest integer, halves upwards. *)
Lemma round_half s : 2 * ((s + 1) / 2) - 1 <= s <= 2 * ((s + 1) / 2).
Proof. pose proof (Z.div_mod (s + 1) 2). pose proof (Z.mod_pos_bound (s + 1) 2). lia. Qed.

Lemma performanceScore_desktop_only p d ld id cd rd :
  scoreOr0 (mobile p) = 0 ->
  desktop p = Some (PsiReport (Some d) ld id cd rd) ->
  performanceScore p = d.
Proof. intros Hm Hd. unfold performanceScore. by rewrite Hm, Hd. Qed.

Lemma performanceScore_neither p :
  scoreOr0 (mobile p) = 0 -> scoreOr0 (desktop p) = 0 -> performanceScore p = 0.
Proof. intros Hm Hd. unfold performanceScore. by rewrite Hm, Hd. Qed.

Lemma performanceScore_mobile_only p m :
  scoreOr0 (mobile p) = m -> m <> 0 -> scoreOr0 (desktop p) = 0 ->
  performanceScore p = (m + 1) / 2.
Proof.
  intros Hm Hne Hd. unfold performanceScore. rewrite Hm, Hd.
  apply Z.eqb_neq in Hne. rewrite Hne. simpl. f_equal. lia.
Qed.

(** C4 (the code departs from the claim).  With a mobile score of 90 and
    no desktop score (the desktop call of the scoring service failed), the
    section's score is 45, half the mobile score, not 90; a desktop score
    alone is kept as it is.  The handler returns that score. *)
Theorem performanceScore_mobile_only_halved :
  let mobileOnly := {| mobile := Some (report 90);
                       desktop := Some (PsiError "PSI request failed (status=500)");
                       serverFetchMs := Some 120; findings := [] |} in
  let desktopOnly := {| mobile := Some (PsiError "PSI request failed (status=500)");
                        desktop := Some (report 90);
                        serverFetchMs := Some 120; findings := [] |} in
  let W := worldWith publicDns (Fetcher.Answers 120 page) (Ret (report 90))
             (Ret (PsiError "PSI request failed (status=500)")) in
  let run := (handler W request ∅).2 host in
  performanceScore mobileOnly = 45 /\
  performanceScore desktopOnly = 90 /\
  runPerformance W "https://example.com/" = Ret mobileOnly /\
  statusOf run.1 = Some 200 /\
  perfScore <$> (performance <$> auditOf run.1) = Some 45.
Proof.
  intros mobileOnly desktopOnly W run.
  split; [reflexivity|]. split; [reflexivity|]. split; [reflexivity|].
  split; vm_compute; reflexivity.
Qed.

End RunAuditFacts.

Module Isolation.
Import Perf RunAudit SampleWorld.

Lemma say_nil d : say [] d = d.
Proof. destruct d. unfold say. simpl. by rewrite app_nil_r. Qed.

Lemma say_say a b d : say b (say a d) = say (a ++ b) d.
Proof. unfold say. simpl. by rewrite app_assoc. Qed.

Lemma guarded_run {A} tag (dflt : A) m d :
  guarded tag dflt m d = (Ret (settled dflt m), say (logged tag m) d).
Proof.
  unfold guarded. destruct m as [a|e]; simpl; [by rewrite say_nil|done].
Qed.

(** The four analyzers always leave the handler with an audit: whatever
    each of them does, [runAnalyzers] returns, and it only prints. *)
Lemma runAnalyzers_run W url d :
  let seoResult := settled defaultSeo (analyzeSEO W url) in
  let perfResult := settled defaultPerf (runPerformance W url) in
  let securityResult :=
    settled defaultSecurity
      (analyzeSecurity W url (seoHeaders seoResult) (html seoResult)) in
  let rawFindings :=
    {| rawUrl := url; requestedAt := requestTime W; rawSeo := seo seoResult;
       rawPerformance := perfResult; rawSecurity := securityResult |} in
  runAnalyzers W url d =
    (Ret (buildAudit W url seoResult perfResult securityResult
            (settled defaultSummary (summarize W rawFindings)) rawFindings),
     say (logged "[SEO Error]" (analyzeSEO W url) ++
          logged "[Performance Error]" (runPerformance W url) ++
          logged "[Security Error]"
            (analyzeSecurity W url (seoHeaders seoResult) (html seoResult)) ++
          logged "[AI Summary Error]" (summarize W rawFindings)) d).
Proof.
  intros. unfold runAnalyzers, fs_bind. rewrite !guarded_run.
  unfold fs_ret. by rewrite !say_say.
Qed.

(** What the handler does with a request that passed the checks. *)
Lemma admitted_run W req body url d :
  parseBody W (reqBody req) = Some body ->
  urlOfBody body = Ret url ->
  validateUrlText W url = None ->
  (ssrfCheck W url d).1 = Ret false ->
  forall audit d1,
    runAnalyzers W url (ssrfCheck W url d).2 = (Ret audit, d1) ->
    (admitted W req d).1 =
      match (persist W (randomUUID W) audit d1).1 with
      | Ret _ => Ret {| statusCode := 200; resHeaders := [];
                        resBody := AuditBody (randomUUID W) audit |}
      | Throw e => Throw e
      end.
Proof.
  intros Hb Hu Hv Hs audit d1 Hrun. unfold admitted. rewrite Hb, Hu, Hv.
  unfold fs_bind at 1. destruct (ssrfCheck W url d) as [r d0]. simpl in *. subst r.
  unfold fs_bind at 1. rewrite Hrun. unfold fs_bind at 1.
  by destruct (persist W (randomUUID W) audit d1) as [[[]|e] d2].
Qed.

(** C3.  When the performance analyzer throws, the analyzers' step still
    returns an audit, having printed "[Performance Error]": its performance
    section has score 0, no findings and no device reports; its SEO section
    is the score estimate and the findings of the SEO analyzer's result, and
    its security section the score and findings computed from the security
    analyzer's result.  The step returns whatever any analyzer does, and the
    handler then answers 200 with that audit unless the save itself throws. *)
Theorem performance_failure_isolated W url d e :
  runPerformance W url = Throw e ->
  (forall W' url' d', returns (runAnalyzers W' url' d').1) /\
  exists audit d1,
    runAnalyzers W url d = (Ret audit, d1) /\
    files d1 = files d /\
    (LogError, "[Performance Error]") ∈ console d1 /\
    performance audit =
      {| perfScore := 0; perfFindings := []; perfMobile := None; perfDesktop := None;
         perfServerFetchMs := Some 0 |} /\
    (forall s, analyzeSEO W url = Ret s ->
       seoSection audit =
         {| seoScore := scoreEstimate (seo s); seoSectionFindings := seoFindings (seo s) |} /\
       forall sec, analyzeSecurity W url (seoHeaders s) (html s) = Ret sec ->
         security audit =
           {| secScore := Z.max 0 (100 - Z.of_nat (length (secFindings sec)) * 8);
              secSectionFindings := secFindings sec;
              secSectionHeaders := secHeaders sec |}) /\
    (forall req body d0,
       parseBody W (reqBody req) = Some body ->
       urlOfBody body = Ret url ->
       validateUrlText W url = None ->
       ssrfCheck W url d0 = (Ret false, d) ->
       (persist W (randomUUID W) audit d1).1 = Ret tt ->
       (admitted W req d0).1 =
         Ret {| statusCode := 200; resHeaders := [];
                resBody := AuditBody (randomUUID W) audit |}).
Proof.
  intros Hperf. split.
  { intros W' url' d'. rewrite runAnalyzers_run. simpl. eexists. reflexivity. }
  pose proof (runAnalyzers_run W url d) as Hrun. simpl in Hrun.
  rewrite Hperf in Hrun. simpl in Hrun.
  match type of Hrun with
  | _ = (Ret ?a, ?d') => remember a as audit eqn:Ha; remember d' as d1 eqn:Hd1
  end.
  exists audit, d1. split; [exact Hrun|]. split; [by rewrite Hd1|]. split.
  { rewrite Hd1. simpl. rewrite !elem_of_app. right. right. left. }
  split; [by rewrite Ha|]. split.
  { intros s Hs. rewrite Ha, Hs. simpl. split; [done|].
    intros sec Hsec. rewrite Hsec. done. }
  intros req body d0 Hb Hu Hv Hs Hp.
  assert (Hs1 : (ssrfCheck W url d0).1 = Ret false) by (by rewrite Hs).
  pose proof Hrun as Hrun'. replace d with (ssrfCheck W url d0).2 in Hrun' by (by rewrite Hs).
  rewrite (admitted_run W req body url d0 Hb Hu Hv Hs1 _ _ Hrun'). by rewrite Hp.
Qed.

Lemma performance_failure_isolated_witness :
  let W := worldWith publicDns (Fetcher.NetworkError "ECONNRESET")
             (Ret (report 90)) (Ret (report 75)) in
  exists audit,
    (admitted W request host).1
      = Ret {| statusCode := 200; resHeaders := [];
               resBody := AuditBody (randomUUID W) audit |} /\
    perfScore (performance audit) = 0 /\
    perfFindings (performance audit) = [] /\
    seoScore (seoSection audit) = 80 /\
    secScore (security audit) = 84.
Proof.
  intros W.
  destruct (performance_failure_isolated W "https://example.com/" host "ECONNRESET" eq_refl)
    as (_ & audit & d1 & Hrun & _ & _ & Hperf & Hseo & Hresp).
  exists audit. split.
  - apply (Hresp request (JObj [("url", JStr " https://example.com/ ")]) host);
      try reflexivity.
    vm_compute in Hrun. injection Hrun as <- <-. vm_compute. reflexivity.
  - rewrite Hperf. split; [reflexivity|]. split; [reflexivity|].
    destruct (Hseo seoResult eq_refl) as [Hs Hsec]. rewrite Hs.
    split; [reflexivity|]. rewrite (Hsec securityResult eq_refl). reflexivity.
Defined.

Lemma ssrfCheck_only_prints W url d :
  files (ssrfCheck W url d).2 = files d /\
  journal (ssrfCheck W url d).2 = journal d /\
  touched (ssrfCheck W url d).2 = touched d.
Proof.
  unfold ssrfCheck. destruct (obind _ _); simpl; done.
Qed.

Lemma runAnalyzers_only_prints W url d :
  files (runAnalyzers W url d).2 = files d /\
  journal (runAnalyzers W url d).2 = journal d /\
  touched (runAnalyzers W url d).2 = touched d.
Proof. pose proof (runAnalyzers_run W url d) as H. simpl in H. by rewrite H. Qed.

End Isolation.

Module HandlerStore.
Import RunAudit ChatAnalyst ChatAnalystFacts StoreRun.

Lemma assoc_set_field {A} k (x : A) fields : assoc k (set_field k x fields) = Some x.
Proof.
  induction fields as [|[k' v] rest IH]; simpl.
  - by rewrite String.eqb_refl.
  - destruct (String.eqb k k') eqn:E; simpl; [by rewrite String.eqb_refl|].
    by rewrite E.
Qed.

(** The save reads the store, if it can, and ends in the assignment and
    the write. *)
Lemma persist_ends W id audit d :
  exists existing d0,
    files d0 = files d /\ journal d0 = journal d /\
    persist W id audit d =
      match assign existing id (auditData_json audit) with
      | Ret updated => writeFile auditsFile (JSON_stringify (codec W) updated)
      | Throw e => fs_throw e
      end d0.
Proof.
  unfold persist, fs_bind, existsSync, fs_catch, readFile, fs_ret.
  destruct (bool_decide _ || _).
  - change (files (touch auditsFile d)) with (files d).
    destruct (files d !! auditsFile) as [[text|]|].
    + destruct (JSON_parse (codec W) text) as [v|e].
      * exists v, (touch auditsFile (touch auditsFile d)). done.
      * exists (JObj []), (touch auditsFile (touch auditsFile d)). done.
    + exists (JObj []), (touch auditsFile (touch auditsFile d)). done.
    + exists (JObj []), (touch auditsFile (touch auditsFile d)). done.
  - exists (JObj []), (touch auditsFile d). done.
Qed.

(** A save that returns found the directory data/ and did not find a
    directory in the place of data/audits.json. *)
Lemma persist_returned W id audit d d1 :
  persist W id audit d = (Ret tt, d1) ->
  files d !! ["data"] = Some Dir /\ files d !! auditsFile <> Some Dir.
Proof.
  destruct (persist_ends W id audit d) as (existing & d0 & Hf & _ & ->).
  destruct (assign existing id (auditData_json audit)) as [updated|e]; [|done].
  unfold writeFile. cbn [files touch]. rewrite Hf.
  change (parent auditsFile) with ["data"]. unfold is_dir.
  destruct (files d !! ["data"]) as [[c|]|]; cbn [negb]; try done.
  destruct (files d !! auditsFile) as [[c|]|]; try done.
Qed.

(** The save of the handler, when data/ exists and data/audits.json is an
    object or missing: the file then holds the old records and the new one,
    and the lookup by the new identifier returns the new record. *)
Lemma persist_then_lookup W id audit d fields E parseURL' :
  files d !! ["data"] = Some Dir ->
  files d !! auditsFile <> Some Dir ->
  existingFields (codec W) (files d) = Some fields ->
  let updated := JObj (set_field id (auditData_json audit) fields) in
  serializable (codec W) updated ->
  JSON_stringify (codec W) updated <> "" ->
  exists d1,
    persist W id audit d = (Ret tt, d1) /\
    files d1 !! auditsFile = Some (File (JSON_stringify (codec W) updated)) /\
    (findAuditByIdOrSite E (codec W) parseURL' id d1).1 = Ret (Plain (auditData_json audit)).
Proof.
  intros Hdata Hnd Hex updated Hser Hne.
  assert (Hstage : exists d0,
    fs_bind (existsSync auditsFile) (fun present : bool =>
      if present then
        fs_catch
          (fs_bind (readFile auditsFile) (fun text =>
             match JSON_parse (codec W) text with
             | Ret v => fs_ret v
             | Throw e => fs_throw e
             end))
          (fun _ => fs_ret (JObj []))
      else fs_ret (JObj [])) d = (Ret (JObj fields), d0) /\ files d0 = files d).
  { unfold existingFields in Hex.
    unfold fs_bind, fs_catch, existsSync, readFile. cbn [files touch].
    destruct (files d !! auditsFile) as [[text|]|] eqn:Hf; simpl; rewrite ?Hf.
    - destruct (JSON_parse (codec W) text) as [[]|]; simpl; try discriminate Hex;
        injection Hex as <-; eexists; split; reflexivity.
    - done.
    - injection Hex as <-. eexists; split; reflexivity. }
  destruct Hstage as (d0 & Hstage & Hf0).
  unfold persist. unfold fs_bind at 1. unfold fs_bind at 1 in Hstage.
  destruct (existsSync auditsFile d) as [[present|e] d'] eqn:Hex'.
  2:{ unfold existsSync in Hex'. discriminate Hex'. }
  unfold fs_bind at 1. rewrite Hstage. cbn [assign].
  unfold writeFile. cbn [files touch]. rewrite Hf0.
  change (parent auditsFile) with ["data"].
  rewrite (is_dir_true _ _ Hdata). cbn [negb].
  rewrite is_dir_false by done.
  eexists. split; [reflexivity|]. unfold commit, touch. cbn [files change].
  split; [apply lookup_insert_eq|].
  rewrite findAuditByIdOrSite_layered. cbn [files change]. f_equal.
  unfold layeredLookup, storeOf.
  change ChatAnalyst.auditsJson with auditsFile. rewrite lookup_insert_eq.
  apply String.eqb_neq in Hne. fold updated. rewrite Hne.
  unfold serializable in Hser. rewrite Hser.
  unfold inStore, js_get, updated. cbn [truthy js_own]. by rewrite assoc_set_field.
Qed.

End HandlerStore.

Module AuditStore.
Import Storage StorageFacts StoreRun RunAudit Isolation HandlerStore ChatAnalyst.

Lemma ensured_dir (f : gmap Path Node) :
  (f !! AUDITS_DIR = Some Dir \/
   (f !! AUDITS_DIR = None /\ forall c, f !! ["data"] <> Some (File c))) ->
  ensured f !! AUDITS_DIR = Some Dir.
Proof.
  unfold ensured. intros [H|[H _]]; rewrite H; [done|]. apply lookup_insert_eq.
Qed.

(** A 200 answer carries the identifier the handler drew and the audit
    it saved: the save was the last step of the run, made on the files as the
    request found them. *)
Lemma admitted_200_saved W req d resp d1 :
  admitted W req d = (Ret resp, d1) -> statusCode resp = 200 ->
  exists audit d0,
    resBody resp = AuditBody (randomUUID W) audit /\
    files d0 = files d /\
    persist W (randomUUID W) audit d0 = (Ret tt, d1).
Proof.
  unfold admitted, respond, fs_ret.
  destruct (parseBody W (reqBody req)) as [body|]; [|by intros [= <- <-]].
  destruct (urlOfBody body) as [url|e]; [|done].
  destruct (validateUrlText W url) as [vErr|]; [by intros [= <- <-]|].
  destruct (ssrfCheck_only_prints W url d) as (Hf0 & _).
  unfold fs_bind at 1.
  destruct (ssrfCheck W url d) as [[[|]|e] d0]; cbn [fst snd] in Hf0;
    [by intros [= <- <-]| |done].
  destruct (runAnalyzers_only_prints W url d0) as (Hf1 & _).
  unfold fs_bind at 1.
  destruct (runAnalyzers W url d0) as [[audit|e] d2]; cbn [fst snd] in Hf1; [|done].
  unfold fs_bind at 1.
  destruct (persist W (randomUUID W) audit d2) as [[[]|e] d3] eqn:Hp; [|done].
  intros [= <- <-] _. exists audit, d2. split; [done|]. split; [congruence|done].
Qed.

Lemma handler_200_saved W req (limiter : gmap string RateLimiter.RateWindow) d resp d1 :
  (handler W req limiter).2 d = (Ret resp, d1) -> statusCode resp = 200 ->
  exists audit d0,
    resBody resp = AuditBody (randomUUID W) audit /\
    files d0 = files d /\
    persist W (randomUUID W) audit d0 = (Ret tt, d1).
Proof.
  unfold handler.
  destruct (negb _); [by intros [= <- <-]|].
  destruct (RateLimiter.rateLimit _ _ _) as [[remaining|retryAfter] limiter']; cbn [snd];
    [|by intros [= <- <-]].
  apply admitted_200_saved.
Qed.

(** C7 (as the code has it).  [saveAudit(siteId, record)] of lib/storage.js
    takes the identifier from its caller and returns [true]; on a store that
    is ready it writes the text to the temporary file and renames it, so
    that the temporary file is gone afterwards and, at every moment of the
    save, the record's file holds what it held before or the whole text; and
    for a non-empty [siteId] and a record that survives the JSON codec,
    [getAudit(siteId)] then returns the record.  The identifier is drawn by
    the run-audit handler: whenever it answers 200, the answer carries that
    identifier and an audit, and, data/audits.json having been missing, no
    JSON or a JSON object when the request came, the file that this run
    leaves holds the earlier fields and that audit under that identifier, and
    the lookup by the identifier returns that audit. *)
Theorem saveAudit_atomic_roundtrip :
  (forall J siteId v d,
      store_ready (files d) siteId ->
      exists d1,
        saveAudit J siteId v d = (Ret true, d1) /\
        files d1 !! auditFile siteId = Some (File (JSON_stringify J v)) /\
        files d1 !! tmpFile siteId = None /\
        journal d1 = journal d ++ save_changes (files d) siteId (JSON_stringify J v) /\
        (forall f, f ∈ observable (files d)
                         (save_changes (files d) siteId (JSON_stringify J v)) ->
           f !! auditFile siteId = files d !! auditFile siteId \/
           f !! auditFile siteId = Some (File (JSON_stringify J v))) /\
        (siteId <> "" -> serializable J v ->
         exists d2, getAudit J siteId d1 = (Ret v, d2))) /\
  (forall W req (limiter : gmap string RateLimiter.RateWindow) d resp d1,
      (handler W req limiter).2 d = (Ret resp, d1) -> statusCode resp = 200 ->
      exists audit,
        resBody resp = AuditBody (randomUUID W) audit /\
        forall fields E parseURL',
          existingFields (codec W) (files d) = Some fields ->
          let updated := JObj (set_field (randomUUID W) (auditData_json audit) fields) in
          serializable (codec W) updated ->
          JSON_stringify (codec W) updated <> "" ->
          files d1 !! auditsFile = Some (File (JSON_stringify (codec W) updated)) /\
          (findAuditByIdOrSite E (codec W) parseURL' (randomUUID W) d1).1
            = Ret (Plain (auditData_json audit))).
Proof.
  split.
  - intros J siteId v d Hready.
    destruct (saveAudit_run J siteId v d Hready) as (d1 & Hrun & Hf & Hj & Hobs & _).
    destruct Hready as (Hdir & Hfile & Htmp).
    destruct (auditFile_not_dir_path siteId) as [Hfa Hfd].
    destruct (tmpFile_not_dir_path siteId) as [Hta Htd].
    pose proof (tmpFile_ne_auditFile siteId) as Hne.
    exists d1. split; [done|].
    assert (Hfile1 : files d1 !! auditFile siteId = Some (File (JSON_stringify J v)))
      by (rewrite Hf; apply lookup_insert_eq).
    split; [done|]. split.
    { rewrite Hf. rewrite lookup_insert_ne by done. apply lookup_delete_eq. }
    split; [done|]. split; [done|].
    intros Hid Hser. destruct (getAudit_run J siteId v d1 Hid) as (d2 & Hget & _); eauto.
    rewrite Hf. rewrite lookup_insert_ne, lookup_delete_ne by done.
    by apply ensured_dir.
  - intros W req limiter d resp d1 Hrun H200.
    destruct (handler_200_saved W req limiter d resp d1 Hrun H200)
      as (audit & d0 & Hbody & Hf0 & Hp).
    exists audit. split; [done|].
    intros fields E parseURL' Hex updated Hser Hne.
    destruct (persist_returned _ _ _ _ _ Hp) as [Hdata Hnd].
    rewrite <- Hf0 in Hex.
    destruct (persist_then_lookup W (randomUUID W) audit d0 fields E parseURL'
                Hdata Hnd Hex Hser Hne) as (d1' & Hp' & Hfile & Hl).
    rewrite Hp in Hp'. injection Hp' as <-. done.
Qed.

End AuditStore.

Module AuditStoreExamples.
Import Storage RunAudit ChatAnalyst SampleStore SampleWorld AuditStore StoreRun.

Lemma host_ready : store_ready (files host) "example.com".
Proof.
  split; [right; split; [reflexivity|]|split].
  - intros c H. vm_compute in H. discriminate H.
  - intros H. vm_compute in H. discriminate H.
  - intros H. vm_compute in H. discriminate H.
Defined.

Lemma saveAudit_atomic_roundtrip_witness :
  (exists d1 d2,
      saveAudit SampleJson.codec "example.com" recB host = (Ret true, d1) /\
      getAudit SampleJson.codec "example.com" d1 = (Ret recB, d2)) /\
  (exists resp d1,
      (handler world request ∅).2 host = (Ret resp, d1) /\
      resBody resp = AuditBody (randomUUID world) sampleAudit /\
      files d1 !! auditsFile =
        Some (File (SampleJson.print 0
                      (JObj [(randomUUID world, auditData_json sampleAudit)]))) /\
      (findAuditByIdOrSite SampleEngine.engine SampleJson.codec SampleUrl.parse
         (randomUUID world) d1).1 = Ret (Plain (auditData_json sampleAudit))).
Proof.
  destruct saveAudit_atomic_roundtrip as (Hsave & Hhandler). split.
  - destruct (Hsave SampleJson.codec "example.com" recB host host_ready)
      as (d1 & Hrun & _ & _ & _ & _ & Hget).
    destruct Hget as [d2 Hget]; [discriminate|vm_compute; reflexivity|].
    exists d1, d2. split; [exact Hrun|exact Hget].
  - destruct ((handler world request ∅).2 host) as [[resp|e] d1] eqn:Hrun.
    2:{ vm_compute in Hrun. discriminate Hrun. }
    assert (Hresp : resp = {| statusCode := 200; resHeaders := [];
                              resBody := AuditBody (randomUUID world) sampleAudit |}).
    { vm_compute in Hrun. injection Hrun as <- _. vm_compute. reflexivity. }
    destruct (Hhandler world request ∅ host resp d1 Hrun) as (audit & Hbody & Hstored).
    { by rewrite Hresp. }
    assert (Ha : audit = sampleAudit).
    { rewrite Hresp in Hbody. by injection Hbody as <-. }
    subst audit.
    destruct (Hstored [] SampleEngine.engine SampleUrl.parse) as [Hfile Hfind].
    + reflexivity.
    + vm_compute. reflexivity.
    + intros H. vm_compute in H. discriminate H.
    + exists resp, d1. split; [done|]. split; [by rewrite Hresp|]. split; [exact Hfile|].
      exact Hfind.
Defined.

(** C7 as stated fails.  In lib/storage.js the identifier is the caller's
    and the result is [true]: a second record saved under "example.com"
    replaces the first, and a record saved under the empty identifier is not
    found again.  In run-audit.js, where the identifier is drawn, the file
    data/audits.json is written in place: no temporary file is used, and a
    reader can meet the file when it holds only the first character, which
    does not parse.  And when data/audits.json holds a JSON array, the
    handler answers 200 with an identifier under which nothing is stored: the
    file is written back as it was and the lookup by the identifier returns
    [null]. *)
Lemma save_neither_fresh_nor_atomic :
  let J := SampleJson.codec in
  let d1 := (saveAudit J "example.com" recA host).2 in
  let d2 := (saveAudit J "example.com" recB d1).2 in
  let d3 := (persist world (randomUUID world) sampleAudit host).2 in
  let text := JSON_stringify J (JObj [(randomUUID world, auditData_json sampleAudit)]) in
  let listed := disk_of {[ ["data"] := Dir; auditsFile := File "[]" ]} in
  let run := (handler world request ∅).2 listed in
  (saveAudit J "example.com" recA host).1 = Ret true /\
  (saveAudit J "example.com" recB d1).1 = Ret true /\
  (getAudit J "example.com" d2).1 = Ret recB /\
  recA <> recB /\
  (getAudit J "" (saveAudit J "" recA host).2).1 = Ret JNull /\
  touched d3 = [auditsFile; auditsFile] /\
  journal d3 = [Wrote auditsFile text] /\
  (exists f, f ∈ observable (files host) (journal d3) /\
             f !! auditsFile = Some (File "{") /\
             storeOf J f = JNull) /\
  run.1 = Ret {| statusCode := 200; resHeaders := [];
                 resBody := AuditBody (randomUUID world) sampleAudit |} /\
  files run.2 !! auditsFile = Some (File "[]") /\
  (findAuditByIdOrSite SampleEngine.engine J SampleUrl.parse (randomUUID world) run.2).1
    = Ret (Plain JNull).
Proof.
  intros J d1 d2 d3 text listed run.
  split; [vm_compute; reflexivity|]. split; [vm_compute; reflexivity|].
  split; [vm_compute; reflexivity|]. split; [discriminate|].
  split; [vm_compute; reflexivity|]. split; [vm_compute; reflexivity|].
  assert (Hj : journal d3 = [Wrote auditsFile text]) by (vm_compute; reflexivity).
  split; [exact Hj|].
  split.
  { exists (<[auditsFile := File "{"]> (files host)).
    split; [|split; vm_compute; reflexivity].
    rewrite Hj. cbn [observable during]. apply elem_of_app. left.
    apply list_elem_of_fmap. exists "{". split; [reflexivity|].
    apply (prefixes_first "{"). }
  split; [vm_compute; reflexivity|]. split; [vm_compute; reflexivity|].
  vm_compute. reflexivity.
Qed.

End AuditStoreExamples.

Module AIFacts.
Import AI.

Lemma mapM_Ret {A B} (f : A -> Outcome B) l ys :
  mapM f l = Ret ys <-> Forall2 (fun x y => f x = Ret y) l ys.
Proof.
  revert ys. induction l as [|x l IH]; intros ys; simpl.
  - split; [intros [= <-]; constructor|]. intros H. by inversion H.
  - destruct (f x) as [y|e] eqn:Hx; simpl.
    + destruct (mapM f l) as [ys'|e] eqn:Hl; simpl.
      * split.
        -- intros [= <-]. constructor; [done|]. by apply IH.
        -- intros H. inversion H as [|? y' ? ys'' Hy Hrest]; subst.
           rewrite Hx in Hy. injection Hy as <-.
           apply IH in Hrest. by injection Hrest as <-.
      * split; [done|]. intros H. inversion H as [|? y' ? ys'' Hy Hrest]; subst.
        by apply IH in Hrest.
    + split; [done|]. intros H. inversion H as [|? y' ? ys'' Hy Hrest]; subst.
      congruence.
Qed.

Lemma mapM_returns {A B} (f : A -> Outcome B) l :
  returns (mapM f l) <-> Forall (fun x => returns (f x)) l.
Proof.
  split.
  - intros [ys Hys]. apply mapM_Ret in Hys.
    induction Hys as [|x y l ys Hxy _ IH]; constructor; [by exists y|done].
  - induction 1 as [|x l [y Hy] _ [ys Hys]]; simpl; [by eexists|].
    rewrite Hy, Hys. by eexists.
Qed.

Lemma mapM_length {A B} (f : A -> Outcome B) l ys :
  mapM f l = Ret ys -> length ys = length l.
Proof. intros H. apply mapM_Ret in H. symmetry. by eapply Forall2_length. Qed.

Lemma printable_take n relevant : printable relevant -> printable (take n relevant).
Proof. apply Forall_take. Qed.

Lemma joined_returns v : returns (joined v) <-> returns (js_String v).
Proof. destruct v; simpl; try done. split; intros _; by eexists. Qed.

(** The citations are built when [String] converts the values. *)
Lemma citations_run n l : printable l <-> returns (mapM (citation n) l).
Proof.
  rewrite mapM_returns. unfold printable. apply Forall_iff. intros kv.
  unfold citation. split.
  - intros [text ->]. by eexists.
  - destruct (js_String kv.2) as [text|e]; [by eexists|]. by intros [? ?].
Qed.

(** Every citation names a property of the evidence and carries the head
    of its text. *)
Lemma citations_from n l cites :
  mapM (citation n) l = Ret cites ->
  forall c, c ∈ cites ->
    exists kv text,
      kv ∈ l /\ js_String kv.2 = Ret text /\
      c = JObj [("section", JStr kv.1); ("excerpt", JStr (slice0 n text))].
Proof.
  intros H. apply mapM_Ret in H.
  induction H as [|kv c0 l cites Hkv _ IH]; intros c Hc.
  - by apply elem_of_nil in Hc.
  - apply elem_of_cons in Hc as [->|Hc].
    + unfold citation in Hkv. destruct (js_String kv.2) as [text|e] eqn:Ht; [|done].
      injection Hkv as <-. exists kv, text. split; [left|done].
    + destruct (IH c Hc) as (kv' & text & Hin & Ht & ->).
      exists kv', text. split; [by right|done].
Qed.

(** The fallback returns exactly when [String] converts every value. *)
Lemma fallback_returns relevant query :
  returns (fallbackAnswerFromSnippets relevant query) <-> printable relevant.
Proof.
  unfold fallbackAnswerFromSnippets. split.
  - intros [r Hr].
    destruct (mapM (citation 300) (take 6 relevant)) as [cites|e]; [|done].
    cbn [obind] in Hr.
    destruct (mapM (fun kv => joined kv.2) relevant) as [pieces|e] eqn:Hp; [|done].
    assert (Hall : returns (mapM (fun kv : string * json => joined kv.2) relevant))
      by (by exists pieces).
    apply mapM_returns in Hall. unfold printable.
    eapply Forall_impl; [exact Hall|]. intros kv. apply joined_returns.
  - intros Hp.
    destruct (proj1 (citations_run 300 _) (printable_take 6 _ Hp)) as [cites ->].
    assert (Hall : returns (mapM (fun kv : string * json => joined kv.2) relevant)).
    { apply mapM_returns. eapply Forall_impl; [exact Hp|]. intros kv. apply joined_returns. }
    destruct Hall as [pieces ->]. by eexists.
Qed.

(** What the fallback returns. *)
Lemma fallback_run relevant query r :
  fallbackAnswerFromSnippets relevant query = Ret r ->
  exists cites pieces,
    mapM (citation 300) (take 6 relevant) = Ret cites /\
    mapM (fun kv => joined kv.2) relevant = Ret pieces /\
    r = fallbackReply cites pieces.
Proof.
  unfold fallbackAnswerFromSnippets.
  destruct (mapM (citation 300) (take 6 relevant)) as [cites|e]; [|done].
  cbn [obind].
  destruct (mapM (fun kv => joined kv.2) relevant) as [pieces|e]; [|done].
  intros [= <-]. by exists cites, pieces.
Qed.

(** When no provider gets an answer through, the chain ends in the
    fallback, having warned of every enabled provider. *)
Lemma chain_all_fail J heuristic callers cites user relevant query :
  Forall (fails user) callers ->
  chain J heuristic callers cites user relevant query =
    obind (fallbackAnswerFromSnippets relevant query)
          (fun r => Ret (map name (List.filter enabled callers), r)).
Proof.
  induction 1 as [|c rest Hc _ IH]; cbn [chain List.filter map]; [done|].
  destruct (enabled c) eqn:He; [|exact IH].
  assert (Hw : warning (name c) (chain J heuristic rest cites user relevant query) =
               obind (fallbackAnswerFromSnippets relevant query)
                     (fun r => Ret (map name (c :: List.filter enabled rest), r))).
  { rewrite IH. unfold warning.
    by destruct (fallbackAnswerFromSnippets relevant query). }
  destruct Hc as [Hd|[[e Hth]|(text & Hr & Hblank)]].
  - congruence.
  - by rewrite Hth.
  - by rewrite Hr, Hblank.
Qed.

Lemma fallbackReply_urgency cites pieces :
  urgency (fallbackReply cites pieces) = JStr "Low" \/
  urgency (fallbackReply cites pieces) = JStr "Medium".
Proof.
  unfold fallbackReply. cbn [urgency].
  destruct (_ || _ || _); auto.
Qed.

(** On evidence that [String] converts the chain keeps its promise: for
    every such evidence map and every non-empty query, when every provider
    of the chain is disabled, throws or answers blank text, [answerQuery]
    returns the reply of [fallbackAnswerFromSnippets], having warned of the
    enabled providers: its answer is a non-empty string, its urgency is Low
    or Medium (so one of Low, Medium, High), and every citation's section is
    a key of the evidence map. *)
Lemma answerQuery_fallback J heuristic callers relevant query user :
  query <> "" ->
  printable relevant ->
  userPrompt relevant query = Ret user ->
  Forall (fails user) callers ->
  exists r,
    answerQuery J heuristic callers relevant query
      = Ret (map name (List.filter enabled callers), r) /\
    fallbackAnswerFromSnippets relevant query = Ret r /\
    (exists s, answer r = JStr s /\ s <> "") /\
    (urgency r = JStr "Low" \/ urgency r = JStr "Medium" \/ urgency r = JStr "High") /\
    exists cs,
      citations r = JArr cs /\
      forall c, c ∈ cs ->
        exists k, js_own c "section" = Some (JStr k) /\ k ∈ map fst relevant.
Proof.
  intros Hq Hp Huser Hfail. unfold answerQuery.
  apply String.eqb_neq in Hq. rewrite Hq.
  destruct (proj1 (citations_run 400 _) (printable_take 8 _ Hp)) as [cites ->].
  rewrite Huser. cbn [obind].
  rewrite (chain_all_fail J heuristic callers cites user relevant query Hfail).
  destruct (proj2 (fallback_returns relevant query) Hp) as [r Hr].
  rewrite Hr. cbn [obind]. exists r. split; [done|]. split; [done|].
  destruct (fallback_run _ _ _ Hr) as (cs & pieces & Hcs & _ & ->). split.
  { exists unavailable. split; [reflexivity|]. discriminate. }
  split.
  { destruct (fallbackReply_urgency cs pieces) as [H|H]; auto. }
  exists cs. split; [reflexivity|].
  intros c Hc. destruct (citations_from _ _ _ Hcs c Hc) as (kv & text & Hin & _ & ->).
  exists kv.1. split; [reflexivity|].
  apply list_elem_of_fmap. exists kv. split; [done|].
  by apply (subseteq_take 6 relevant).
Qed.

Lemma answerQuery_fallback_sample :
  exists r,
    answerQuery SampleJson.codec SampleChain.firstLine SampleChain.callers
      SampleChain.evidence "Why is the site slow?" = Ret (["gemini"; "deepseek"], r) /\
    urgency r = JStr "Medium" /\
    exists cs,
      citations r = JArr cs /\
      forall c, c ∈ cs ->
        exists k, js_own c "section" = Some (JStr k) /\
                  k ∈ ["seo.findings"; "performance"; "security.score"].
Proof.
  destruct (userPrompt SampleChain.evidence "Why is the site slow?") as [user|e] eqn:Hu;
    [|vm_compute in Hu; discriminate Hu].
  destruct (answerQuery_fallback SampleJson.codec SampleChain.firstLine SampleChain.callers
              SampleChain.evidence "Why is the site slow?" user)
    as (r & Hrun & Hr & _ & _ & Hc).
  - discriminate.
  - repeat constructor; by eexists.
  - exact Hu.
  - constructor; [left; reflexivity|].
    constructor; [right; left; eexists; reflexivity|].
    constructor; [right; right; eexists; split; reflexivity|].
    constructor.
  - exists r. split; [exact Hrun|].
    split; [|exact Hc].
    vm_compute in Hr. injection Hr as <-. reflexivity.
Defined.


End AIFacts.

Module RateLimiterMore.
Import RateLimiter RateLimiterViews RateLimiterFacts.

(** The answer to a request, and the window it leaves, depend on the
    limiter only through the window of the requesting client. *)
Lemma rateLimit_local now ip (l1 l2 : gmap string RateWindow) :
  l1 !! ip = l2 !! ip ->
  (rateLimit now ip l1).1 = (rateLimit now ip l2).1 /\
  (rateLimit now ip l1).2 !! ip = (rateLimit now ip l2).2 !! ip.
Proof.
  intros H. unfold rateLimit. rewrite <- H.
  destruct (l1 !! ip) as [rec|]; simpl.
  - destruct (_ >? _); simpl; [by rewrite !lookup_insert_eq|].
    destruct (_ >? _); simpl; by rewrite !lookup_insert_eq.
  - by rewrite !lookup_insert_eq.
Qed.

Lemma serve_own_requests_gen ip reqs :
  forall l1 l2 : gmap string RateWindow,
    l1 !! ip = l2 !! ip ->
    ownVerdicts ip reqs (serve reqs l1).1
    = (serve (filter (fun r => r.1 = ip) reqs) l2).1.
Proof.
  induction reqs as [|[ip' t] reqs IH]; intros l1 l2 Hl; [done|].
  cbn [serve].
  destruct (rateLimit t ip' l1) as [r1 l1'] eqn:E1.
  destruct (serve reqs l1') as [rs1 l1''] eqn:Es1.
  destruct (decide (ip' = ip)) as [->|Hne].
  - rewrite filter_cons_True by done. cbn [serve].
    destruct (rateLimit t ip l2) as [r2 l2'] eqn:E2.
    destruct (serve (filter _ reqs) l2') as [rs2 l2''] eqn:Es2.
    destruct (rateLimit_local t ip l1 l2 Hl) as [Hr Hs].
    rewrite E1, E2 in Hr, Hs. simpl in Hr, Hs. subst r2.
    unfold ownVerdicts. cbn [zip zip_with fst snd]. rewrite filter_cons_True by done.
    cbn [map snd]. f_equal.
    specialize (IH l1' l2' Hs). rewrite Es1, Es2 in IH. exact IH.
  - rewrite filter_cons_False by done.
    unfold ownVerdicts. cbn [zip zip_with fst snd]. rewrite filter_cons_False by done.
    assert (Hs : l1' !! ip = l2 !! ip).
    { replace l1' with (rateLimit t ip' l1).2 by (by rewrite E1).
      by rewrite rateLimit_other. }
    specialize (IH l1' l2 Hs). rewrite Es1 in IH. exact IH.
Qed.

(** X1.  Clients are limited independently: in any run of the limiter the
    answers given to one client are those it would get if it were the only
    client. *)
Theorem serve_own_requests ip reqs (limiter : gmap string RateWindow) :
  ownVerdicts ip reqs (serve reqs limiter).1
  = (serve (filter (fun r => r.1 = ip) reqs) limiter).1.
Proof. by apply serve_own_requests_gen. Qed.

Lemma rateLimit_counted now ip (limiter : gmap string RateWindow) :
  counted limiter ->
  counted (rateLimit now ip limiter).2 /\ remainingInRange (rateLimit now ip limiter).1.
Proof.
  intros Hc. unfold rateLimit.
  assert (Hins : forall rec, 1 <= count rec -> counted (<[ip := rec]> limiter)).
  { intros rec Hrec ip' rec'. destruct (decide (ip = ip')) as [->|Hne].
    - rewrite lookup_insert_eq. by intros [= <-].
    - rewrite lookup_insert_ne by done. apply Hc. }
  destruct (limiter !! ip) as [rec|] eqn:Hl; simpl.
  - pose proof (Hc ip rec Hl) as Hrec.
    destruct (_ >? _); simpl.
    + split; [by apply Hins|]. unfold RATE_LIMIT_MAX. lia.
    + destruct (Z.gtb_spec (count rec + 1) RATE_LIMIT_MAX); simpl.
      * split; [|done]. apply Hins. simpl. lia.
      * split; [apply Hins; simpl; lia|]. unfold RATE_LIMIT_MAX in *. lia.
  - split; [by apply Hins|]. unfold RATE_LIMIT_MAX. simpl. lia.
Qed.

Lemma serve_counted reqs :
  forall limiter : gmap string RateWindow,
    counted limiter ->
    counted (serve reqs limiter).2 /\ Forall remainingInRange (serve reqs limiter).1.
Proof.
  induction reqs as [|[ip t] reqs IH]; intros limiter Hc; [by split|].
  cbn [serve]. destruct (rateLimit_counted t ip limiter Hc) as [Hc' Hr].
  destruct (rateLimit t ip limiter) as [r limiter'].
  destruct (IH limiter' Hc') as [Hc'' Hrs].
  destruct (serve reqs limiter') as [rs limiter'']. simpl in *.
  split; [done|]. by constructor.
Qed.

(** X2.  From the empty limiter on, whatever the requests and their
    times, every stored window has counted at least one request and every
    admission reports a [remaining] between 0 and 9. *)
Theorem serve_remaining_in_range reqs :
  counted (serve reqs ∅).2 /\ Forall remainingInRange (serve reqs ∅).1.
Proof. apply serve_counted. intros ip rec H. by rewrite lookup_empty in H. Qed.

End RateLimiterMore.

Module HandlerGates.
Import RateLimiter Perf RunAudit Isolation SampleWorld.

(** The save makes one change, the write of data/audits.json, and makes
    it only when it returns. *)
Lemma persist_journal W id audit d :
  match (persist W id audit d).1 with
  | Ret _ =>
      exists text, journal (persist W id audit d).2 = journal d ++ [Wrote auditsFile text] /\
                   files (persist W id audit d).2 = <[auditsFile := File text]> (files d)
  | Throw _ =>
      journal (persist W id audit d).2 = journal d /\
      files (persist W id audit d).2 = files d
  end.
Proof.
  assert (Hend : forall existing (d0 : Disk),
    files d0 = files d -> journal d0 = journal d ->
    let r := match assign existing id (auditData_json audit) with
             | Ret updated => writeFile auditsFile (JSON_stringify (codec W) updated)
             | Throw e => fs_throw e
             end d0 in
    match r.1 with
    | Ret _ =>
        exists text, journal r.2 = journal d ++ [Wrote auditsFile text] /\
                     files r.2 = <[auditsFile := File text]> (files d)
    | Throw _ => journal r.2 = journal d /\ files r.2 = files d
    end).
  { intros existing d0 Hf Hj.
    destruct (assign existing id (auditData_json audit)) as [updated|e];
      [|unfold fs_throw; by split].
    unfold writeFile. cbn [files touch]. rewrite Hf.
    destruct (negb (is_dir (files d) (parent auditsFile))); cbv beta iota zeta;
      [by split|].
    destruct (is_dir (files d) auditsFile); cbv beta iota zeta; [by split|].
    cbn [commit journal files change touch fst snd].
    eexists. rewrite Hj, Hf. split; reflexivity. }
  assert (Hrun : exists existing d0,
    files d0 = files d /\ journal d0 = journal d /\
    persist W id audit d =
      match assign existing id (auditData_json audit) with
      | Ret updated => writeFile auditsFile (JSON_stringify (codec W) updated)
      | Throw e => fs_throw e
      end d0).
  { unfold persist, fs_bind, existsSync, fs_catch, readFile, fs_ret.
    destruct (bool_decide _ || _).
    - change (files (touch auditsFile d)) with (files d).
      destruct (files d !! auditsFile) as [[text|]|].
      + destruct (JSON_parse (codec W) text) as [v|e].
        * exists v, (touch auditsFile (touch auditsFile d)). done.
        * exists (JObj []), (touch auditsFile (touch auditsFile d)). done.
      + exists (JObj []), (touch auditsFile (touch auditsFile d)). done.
      + exists (JObj []), (touch auditsFile (touch auditsFile d)). done.
    - exists (JObj []), (touch auditsFile d). done. }
  destruct Hrun as (existing & d0 & Hf & Hj & ->). exact (Hend existing d0 Hf Hj).
Qed.

(** X3.  The handler changes the files only when it answers 200, and
    then by one write of data/audits.json; every other answer, and every
    exception, leaves all files as they were. *)
Theorem handler_writes_only_on_200 W req (limiter : gmap string RateWindow) d :
  let run := (handler W req limiter).2 d in
  (statusOf run.1 = Some 200 ->
   exists text, journal run.2 = journal d ++ [Wrote auditsFile text] /\
                files run.2 = <[auditsFile := File text]> (files d)) /\
  (statusOf run.1 <> Some 200 -> journal run.2 = journal d /\ files run.2 = files d).
Proof.
  intros run. subst run. unfold handler.
  destruct (negb _); [simpl; split; [discriminate|done]|].
  destruct (rateLimit _ _ _) as [[remaining|retryAfter] limiter']; cbn [snd];
    [|simpl; split; [discriminate|done]].
  unfold admitted, respond.
  destruct (parseBody W (reqBody req)) as [body|]; [|simpl; split; [discriminate|done]].
  destruct (urlOfBody body) as [url|e]; [|simpl; split; [discriminate|done]].
  destruct (validateUrlText W url) as [vErr|]; [simpl; split; [discriminate|done]|].
  destruct (ssrfCheck_only_prints W url d) as (Hf0 & Hj0 & _).
  unfold fs_bind, fs_ret.
  destruct (ssrfCheck W url d) as [[[|]|e] d0]; cbn [fst snd] in Hf0, Hj0;
    [cbn [fst snd statusOf statusCode]; split; [discriminate|done]|
    |cbn [fst snd statusOf]; split; [discriminate|done]].
  destruct (runAnalyzers_only_prints W url d0) as (Hf1 & Hj1 & _).
  destruct (runAnalyzers W url d0) as [[audit|e] d1]; cbn [fst snd] in Hf1, Hj1;
    [|cbn [fst snd statusOf]; split; [discriminate|by rewrite Hf1, Hj1]].
  pose proof (persist_journal W (randomUUID W) audit d1) as Hp.
  destruct (persist W (randomUUID W) audit d1) as [[[]|e] d2];
    cbn [fst snd statusOf statusCode] in Hp |- *.
  - split; [|done]. intros _. destruct Hp as (text & Hj & Hf). exists text.
    by rewrite Hj, Hf, Hj1, Hf1, Hj0, Hf0.
  - destruct Hp as [Hj Hf]. split; [discriminate|]. intros _.
    by rewrite Hj, Hf, Hj1, Hf1, Hj0, Hf0.
Qed.

Lemma handler_writes_only_on_200_witness :
  exists text,
    journal ((handler world request ∅).2 host).2 = journal host ++ [Wrote auditsFile text] /\
    files ((handler world request ∅).2 host).2 = <[auditsFile := File text]> (files host).
Proof.
  apply (proj1 (handler_writes_only_on_200 world request ∅ host)).
  vm_compute. reflexivity.
Defined.

Lemma validateUrlText_ok W u :
  validateUrlText W u = None ->
  u <> "" /\ (String.length u <= 2000)%nat /\
  exists parsed, parseURL W u = Ret parsed /\
                 (protocol parsed = "http:" \/ protocol parsed = "https:").
Proof.
  unfold validateUrlText.
  destruct (String.eqb_spec u ""); [done|].
  destruct (Nat.ltb_spec 2000 (String.length u)); [done|].
  destruct (parseURL W u) as [parsed|]; [|done].
  destruct (String.eqb_spec (protocol parsed) "http:");
    destruct (String.eqb_spec (protocol parsed) "https:"); simpl; try done;
    intros _; repeat split; eauto; lia.
Qed.

(** X4.  The handler answers 200 only to a POST that the limiter
    admitted, whose body gave a non-empty url of at most 2000 characters
    that parses with protocol http: or https:, and for whose hostname the
    address check answered [false]. *)
Theorem handler_200_only_if W req (limiter : gmap string RateWindow) d :
  statusOf ((handler W req limiter).2 d).1 = Some 200 ->
  method req = "POST" /\
  allowed (rateLimit (now W) (default "unknown" (nonempty (getClientIp req))) limiter).1 = true /\
  exists body url parsed,
    parseBody W (reqBody req) = Some body /\
    urlOfBody body = Ret url /\
    url <> "" /\ (String.length url <= 2000)%nat /\
    parseURL W url = Ret parsed /\
    (protocol parsed = "http:" \/ protocol parsed = "https:") /\
    SafeResolver.isPrivateAddress (dnsLookup W) (hostname parsed) = Ret false.
Proof.
  unfold handler.
  destruct (String.eqb_spec (method req) "POST") as [Hm|]; [|discriminate]. cbn [negb].
  destruct (rateLimit _ _ _) as [[remaining|retryAfter] limiter']; cbn [snd fst allowed];
    [|discriminate].
  unfold admitted, respond.
  destruct (parseBody W (reqBody req)) as [body|] eqn:Hb; [|discriminate].
  destruct (urlOfBody body) as [url|e] eqn:Hu; [|discriminate].
  destruct (validateUrlText W url) as [vErr|] eqn:Hv; [discriminate|].
  destruct (validateUrlText_ok W url Hv) as (Hne & Hlen & parsed & Hparse & Hproto).
  unfold fs_bind at 1, ssrfCheck. rewrite Hparse. cbn [obind].
  destruct (SafeResolverFacts.isPrivateAddress_returns (dnsLookup W) (hostname parsed))
    as [refused Hr].
  rewrite Hr. destruct refused; [discriminate|].
  intros _. split; [done|]. split; [done|].
  exists body, url, parsed. done.
Qed.

Lemma handler_200_only_if_witness :
  method request = "POST" /\
  allowed (rateLimit (now world) (default "unknown" (nonempty (getClientIp request))) ∅).1
    = true /\
  exists body url parsed,
    parseBody world (reqBody request) = Some body /\
    urlOfBody body = Ret url /\
    url <> "" /\ (String.length url <= 2000)%nat /\
    parseURL world url = Ret parsed /\
    (protocol parsed = "http:" \/ protocol parsed = "https:") /\
    SafeResolver.isPrivateAddress (dnsLookup world) (hostname parsed) = Ret false.
Proof.
  apply (handler_200_only_if world request ∅ host). vm_compute. reflexivity.
Defined.

(** X5.  A request whose url passes validation and whose hostname
    resolves to a list holding a flagged address is answered 400 before
    anything else happens: the host is left exactly as it was, nothing is
    printed, and the answer does not depend on the analyzers. *)
Theorem handler_refuses_private W req body url parsed addrs a d :
  parseBody W (reqBody req) = Some body ->
  urlOfBody body = Ret url ->
  validateUrlText W url = None ->
  parseURL W url = Ret parsed ->
  dnsLookup W (hostname parsed) = Ret addrs ->
  In a addrs -> SafeResolver.addressIsPrivate a = true ->
  admitted W req d =
    (Ret {| statusCode := 400; resHeaders := [];
            resBody := ErrorBody "URL resolves to a private or disallowed IP" |}, d).
Proof.
  intros Hb Hu Hv Hp Hd Hin Ha. unfold admitted. rewrite Hb, Hu, Hv.
  unfold fs_bind, ssrfCheck. rewrite Hp. cbn [obind].
  assert (Hr : SafeResolver.isPrivateAddress (dnsLookup W) (hostname parsed) = Ret true).
  { apply (SafeResolverFacts.isPrivateAddress_any _ _ addrs Hd). eauto. }
  rewrite Hr. reflexivity.
Qed.

Lemma handler_refuses_private_witness :
  let W := worldWith (fun _ => Ret [Ret (IpAddr.IPv4 [10; 0; 0; 5])])
             (Fetcher.Answers 120 page) (Ret (report 90)) (Ret (report 75)) in
  let req := {| method := "POST"; xForwardedFor := None;
                remoteAddress := Some "198.51.100.9";
                reqBody := BodyObject (JObj [("url", JStr "http://10.0.0.5/anything")]) |} in
  admitted W req host =
    (Ret {| statusCode := 400; resHeaders := [];
            resBody := ErrorBody "URL resolves to a private or disallowed IP" |}, host).
Proof.
  intros W req.
  apply (handler_refuses_private W req (JObj [("url", JStr "http://10.0.0.5/anything")])
           "http://10.0.0.5/anything"
           {| protocol := "http:"; hostname := "10.0.0.5" |}
           [Ret (IpAddr.IPv4 [10; 0; 0; 5])] (Ret (IpAddr.IPv4 [10; 0; 0; 5])));
    try reflexivity.
  left. reflexivity.
Defined.

End HandlerGates.

Module RetryAfter.
Import RateLimiter RateLimiterViews RunAudit.

Lemma retryAfterHeader_range n :
  0 <= n <= 60000 ->
  exists k, 1 <= k <= 60 /\ retryAfterHeader (n # 1000) = print_Z k.
Proof.
  intros Hn. unfold retryAfterHeader. cbn [Qnum].
  destruct (Z.eqb_spec n 0) as [->|Hne].
  - exists 60. split; [lia|reflexivity].
  - exists (Qceiling (n # 1000)). split; [|reflexivity].
    unfold Qceiling, Qfloor. cbn [Qopp Qnum Qden].
    pose proof (Z.div_mod (- n) 1000 ltac:(lia)) as Hd.
    pose proof (Z.mod_pos_bound (- n) 1000 ltac:(lia)) as Hm.
    change (Z.pos 1000) with 1000. lia.
Qed.

Lemma rateLimit_retryAfter now ip (limiter : gmap string RateWindow) :
  startedBy now limiter ->
  startedBy now (rateLimit now ip limiter).2 /\
  retryAfterInRange (rateLimit now ip limiter).1.
Proof.
  intros Hs. unfold rateLimit.
  assert (Hins : forall rec, windowStart rec <= now -> startedBy now (<[ip := rec]> limiter)).
  { intros rec Hrec ip' rec'. destruct (decide (ip = ip')) as [->|Hne].
    - rewrite lookup_insert_eq. by intros [= <-].
    - rewrite lookup_insert_ne by done. apply Hs. }
  destruct (limiter !! ip) as [rec|] eqn:Hl; cbn [fst snd].
  - pose proof (Hs ip rec Hl) as Hrec.
    destruct (Z.gtb_spec (now - windowStart rec) RATE_LIMIT_WINDOW_MS); cbn [fst snd].
    + split; [by apply Hins|done].
    + cbn [count windowStart].
      destruct (count rec + 1 >? RATE_LIMIT_MAX); cbn [fst snd].
      * split; [by apply Hins|]. apply retryAfterHeader_range.
        unfold RATE_LIMIT_WINDOW_MS in *. lia.
      * split; [by apply Hins|done].
  - split; [by apply Hins|done].
Qed.

Lemma startedBy_mono t t' (limiter : gmap string RateWindow) :
  t <= t' -> startedBy t limiter -> startedBy t' limiter.
Proof. intros Ht Hs ip rec Hl. specialize (Hs ip rec Hl). lia. Qed.

Lemma serve_retryAfter reqs :
  forall lo (limiter : gmap string RateWindow),
    inOrder lo reqs -> startedBy lo limiter ->
    Forall retryAfterInRange (serve reqs limiter).1.
Proof.
  induction reqs as [|[ip t] reqs IH]; intros lo limiter Ho Hs; [by constructor|].
  destruct Ho as [Hlo Ho]. cbn [serve].
  destruct (rateLimit_retryAfter t ip limiter (startedBy_mono _ _ _ Hlo Hs)) as [Hs' Hr].
  destruct (rateLimit t ip limiter) as [r limiter'].
  specialize (IH t limiter' Ho Hs').
  destruct (serve reqs limiter') as [rs limiter'']. simpl in *. by constructor.
Qed.

(** X6.  When the clock does not go back, every denial of a run that
    starts from the empty limiter carries a Retry-After header that is the
    decimal of a whole number of seconds between 1 and 60. *)
Theorem serve_retryAfter_in_range lo reqs :
  inOrder lo reqs -> Forall retryAfterInRange (serve reqs ∅).1.
Proof.
  intros Ho. apply (serve_retryAfter reqs lo ∅ Ho).
  intros ip rec H. by rewrite lookup_empty in H.
Qed.

Lemma serve_retryAfter_in_range_witness :
  inOrder 0 (("203.0.113.7", 1000) :: replicate 10 ("203.0.113.7", 2500)) /\
  Forall retryAfterInRange
    (serve (("203.0.113.7", 1000) :: replicate 10 ("203.0.113.7", 2500)) ∅).1 /\
  (serve (("203.0.113.7", 1000) :: replicate 10 ("203.0.113.7", 2500)) ∅).1 !! 10%nat
    = Some (Denied (58500 # 1000)) /\
  retryAfterHeader (58500 # 1000) = "59".
Proof.
  assert (Ho : inOrder 0 (("203.0.113.7", 1000) :: replicate 10 ("203.0.113.7", 2500))).
  { simpl. repeat split; lia. }
  split; [exact Ho|]. split; [exact (serve_retryAfter_in_range 0 _ Ho)|].
  split; reflexivity.
Defined.

End RetryAfter.

Module StoreRecords.
Import Storage PathFacts StorageFacts StoreRun Confinement StoragePaths StoreViews.

Lemma append_inj_l s t e : s +:+ e = t +:+ e -> s = t.
Proof.
  revert t. induction s as [|c s IH]; intros [|c' t] H; simpl in H.
  - done.
  - apply (f_equal String.length) in H. rewrite !length_append in H. simpl in H. lia.
  - apply (f_equal String.length) in H. rewrite !length_append in H. simpl in H. lia.
  - injection H as -> H. f_equal. by apply IH.
Qed.

Lemma json_ne_tmp s t : s +:+ ".json" <> t +:+ ".json.tmp".
Proof.
  revert s. induction t as [|c t IH]; intros s H.
  - do 5 (destruct s as [|? s]; [discriminate H|]; simpl in H; injection H as _ H).
    apply (f_equal String.length) in H. rewrite !length_append in H. simpl in H. lia.
  - destruct s as [|c' s].
    + apply (f_equal String.length) in H. rewrite !length_append in H. simpl in H. lia.
    + simpl in H. injection H as _ H. by apply (IH s).
Qed.

Lemma auditFile_inj s1 s2 : auditFile s1 = auditFile s2 -> safeName s1 = safeName s2.
Proof.
  rewrite !auditFile_eq. intros H%app_inv_head. injection H as H.
  by apply append_inj_l in H.
Qed.

Lemma auditFile_ne_tmpFile s1 s2 : auditFile s2 <> tmpFile s1.
Proof.
  rewrite auditFile_eq, tmpFile_eq. intros H%app_inv_head. injection H as H.
  by apply json_ne_tmp in H.
Qed.

Lemma prefix_same_length (q p : Path) : length q = length p -> q `prefix_of` p -> p = q.
Proof.
  intros Hl [k ->]. rewrite length_app in Hl. destruct k; [by rewrite app_nil_r|].
  simpl in Hl. lia.
Qed.

Lemma auditFile_length s : length (auditFile s) = 3%nat.
Proof. by rewrite auditFile_eq. Qed.

Lemma tmpFile_length s : length (tmpFile s) = 3%nat.
Proof. by rewrite tmpFile_eq. Qed.

(** The record's file of another name is none of the paths a save
    touches, and lies under none of them. *)
Lemma auditFile_apart s1 s2 :
  safeName s1 <> safeName s2 ->
  forall p, p ∈ [AUDITS_DIR; auditFile s1; tmpFile s1] -> ~ auditFile s2 `prefix_of` p.
Proof.
  intros Hne p Hp Hpre.
  repeat (apply elem_of_cons in Hp as [->|Hp]).
  - destruct Hpre as [k Hk]. apply (f_equal length) in Hk.
    rewrite length_app, auditFile_length in Hk. simpl in Hk. lia.
  - apply prefix_same_length in Hpre; [|by rewrite !auditFile_length].
    by apply auditFile_inj in Hpre.
  - apply prefix_same_length in Hpre; [|by rewrite auditFile_length, tmpFile_length].
    symmetry in Hpre. by apply auditFile_ne_tmpFile in Hpre.
  - by apply elem_of_nil in Hp.
Qed.

(** What [getAudit] answers on a store whose directory is there or can be
    made: it depends on the record's file alone. *)
Lemma getAudit_outcome J siteId d :
  siteId <> "" ->
  (files d !! AUDITS_DIR = Some Dir \/
   (files d !! AUDITS_DIR = None /\ forall c, files d !! ["data"] <> Some (File c))) ->
  (getAudit J siteId d).1 =
    match files d !! auditFile siteId with
    | None => Ret JNull
    | Some Dir => Throw "EISDIR"
    | Some (File raw) =>
        match JSON_parse J raw with
        | Ret v => Ret v
        | Throw e => Throw ("Audit JSON parse error: " +:+ e)
        end
    end.
Proof.
  intros Hid Hdir. unfold getAudit. apply String.eqb_neq in Hid. rewrite Hid.
  destruct (ensureDir_run d Hdir) as (d1 & Hrun & Hf1 & _).
  destruct (auditFile_not_dir_path siteId) as [Hfa Hfd].
  unfold fs_bind. rewrite Hrun. unfold existsSync, readFile. cbn [files touch].
  rewrite Hf1, ensured_other by done.
  rewrite (bool_decide_eq_false_2 _ (auditFile_nonempty siteId)), orb_false_r.
  destruct (files d !! auditFile siteId) as [[raw|]|] eqn:Hf; simpl.
  - rewrite Hf1, ensured_other, Hf by done. by destruct (JSON_parse J raw).
  - by rewrite Hf1, ensured_other, Hf by done.
  - done.
Qed.

(** X7.  Two identifiers with the same safe name share one record: on a
    store that is ready, a record saved under one of them is what
    [getAudit] returns for the other, whatever the other held before. *)
Theorem saveAudit_shared_name J s1 s2 v d :
  safeName s1 = safeName s2 -> s2 <> "" ->
  store_ready (files d) s1 -> serializable J v ->
  exists d1 d2, saveAudit J s1 v d = (Ret true, d1) /\ getAudit J s2 d1 = (Ret v, d2).
Proof.
  intros Hname Hid Hready Hser.
  destruct (saveAudit_run J s1 v d Hready) as (d1 & Hrun & Hf & _).
  destruct Hready as (Hdir & _).
  destruct (auditFile_not_dir_path s1) as [Hfa Hfd].
  destruct (tmpFile_not_dir_path s1) as [Hta Htd].
  pose proof (tmpFile_ne_auditFile s1) as Hne.
  assert (Hfile : auditFile s2 = auditFile s1) by (unfold auditFile; by rewrite Hname).
  destruct (getAudit_run J s2 v d1 Hid) as (d2 & Hget & _); [| |done|by eauto].
  - rewrite Hf, lookup_insert_ne, lookup_delete_ne by done.
    unfold ensured. destruct Hdir as [H|[H _]]; rewrite H; [done|].
    apply lookup_insert_eq.
  - rewrite Hfile, Hf. apply lookup_insert_eq.
Qed.

Lemma saveAudit_shared_name_witness :
  safeName "shop/eu" = safeName "shop_eu" /\
  exists d1 d2,
    saveAudit SampleJson.codec "shop/eu" SampleStore.recB SampleWorld.host = (Ret true, d1) /\
    getAudit SampleJson.codec "shop_eu" d1 = (Ret SampleStore.recB, d2).
Proof.
  split; [reflexivity|].
  apply (saveAudit_shared_name SampleJson.codec "shop/eu" "shop_eu").
  - reflexivity.
  - discriminate.
  - split; [right; split; [reflexivity|]|split];
      intros; intros H; vm_compute in H; discriminate H.
  - vm_compute. reflexivity.
Defined.

(** X8.  Records with different safe names do not disturb each other:
    whether the save of one returns or throws, the file of the other is
    left as it was, and on a store that is ready [getAudit] answers for the
    other what it answered before. *)
Theorem saveAudit_other_record J s1 s2 v d :
  safeName s1 <> safeName s2 ->
  files (saveAudit J s1 v d).2 !! auditFile s2 = files d !! auditFile s2 /\
  (s2 <> "" -> store_ready (files d) s1 ->
   (getAudit J s2 (saveAudit J s1 v d).2).1 = (getAudit J s2 d).1).
Proof.
  intros Hne.
  assert (Hkeep : files (saveAudit J s1 v d).2 !! auditFile s2 = files d !! auditFile s2).
  { apply (confined_saveAudit J s1 v d). by apply auditFile_apart. }
  split; [exact Hkeep|]. intros Hid Hready.
  rewrite !getAudit_outcome; [by rewrite Hkeep|done|apply Hready|done|].
  destruct (saveAudit_run J s1 v d Hready) as (d1 & Hrun & Hf & _).
  rewrite Hrun. simpl. left. rewrite Hf.
  destruct (auditFile_not_dir_path s1) as [Hfa _].
  destruct (tmpFile_not_dir_path s1) as [Hta _].
  rewrite lookup_insert_ne, lookup_delete_ne by done.
  destruct Hready as (Hdir & _). unfold ensured.
  destruct Hdir as [H|[H _]]; rewrite H; [done|]. apply lookup_insert_eq.
Qed.

Lemma saveAudit_other_record_witness :
  let J := SampleJson.codec in
  let d := (saveAudit J "example.com" SampleStore.recA SampleWorld.host).2 in
  (getAudit J "example.com" (saveAudit J "example.org" SampleStore.recB d).2).1
  = (getAudit J "example.com" d).1.
Proof.
  intros J d.
  apply (saveAudit_other_record J "example.org" "example.com" SampleStore.recB d).
  - discriminate.
  - discriminate.
  - split; [left; reflexivity|split]; intros H; vm_compute in H; discriminate H.
Defined.

End StoreRecords.

Module ReadOnly.
Import Storage ChatAnalyst StoreViews.

Lemma readOnly_ret {A} (a : A) : readOnly (fs_ret a).
Proof.
  intros d. split; [done|]. exists []. rewrite app_nil_r. split; [done|].
  intros c Hc. by apply elem_of_nil in Hc.
Qed.

Lemma readOnly_throw {A} e : readOnly (@fs_throw A e).
Proof.
  intros d. split; [done|]. exists []. rewrite app_nil_r. split; [done|].
  intros c Hc. by apply elem_of_nil in Hc.
Qed.

Lemma readOnly_bind {A B} (m : FS A) (k : A -> FS B) :
  readOnly m -> (forall a, readOnly (k a)) -> readOnly (fs_bind m k).
Proof.
  intros Hm Hk d. unfold fs_bind. specialize (Hm d).
  destruct (m d) as [[a|e] d1]; simpl in *; [|done].
  destruct Hm as [Hf1 (cs1 & Hj1 & Hc1)].
  destruct (Hk a d1) as [Hf2 (cs2 & Hj2 & Hc2)].
  split; [by auto|].
  exists (cs1 ++ cs2). rewrite Hj2, Hj1, app_assoc. split; [done|].
  intros c [?|?]%elem_of_app; auto.
Qed.

Lemma readOnly_catch {A} (m : FS A) (h : string -> FS A) :
  readOnly m -> (forall e, readOnly (h e)) -> readOnly (fs_catch m h).
Proof.
  intros Hm Hh d. unfold fs_catch. specialize (Hm d).
  destruct (m d) as [[a|e] d1]; simpl in *; [done|].
  destruct Hm as [Hf1 (cs1 & Hj1 & Hc1)].
  destruct (Hh e d1) as [Hf2 (cs2 & Hj2 & Hc2)].
  split; [by auto|].
  exists (cs1 ++ cs2). rewrite Hj2, Hj1, app_assoc. split; [done|].
  intros c [?|?]%elem_of_app; auto.
Qed.

Lemma readOnly_console_log level tag : readOnly (console_log level tag).
Proof.
  intros d. split; [done|]. exists []. simpl. rewrite app_nil_r. split; [done|].
  intros c Hc. by apply elem_of_nil in Hc.
Qed.

Lemma readOnly_existsSync (p : Path) : readOnly (existsSync p).
Proof.
  intros d. split; [done|]. exists []. simpl. rewrite app_nil_r. split; [done|].
  intros c Hc. by apply elem_of_nil in Hc.
Qed.

Lemma readOnly_readFile (p : Path) : readOnly (readFile p).
Proof.
  intros d. unfold readFile.
  destruct (files d !! p) as [[c|]|]; simpl;
    (split; [done|]; exists []; rewrite app_nil_r; split; [done|];
     intros x Hx; by apply elem_of_nil in Hx).
Qed.

(** Making directories where no file is in the way keeps what is there. *)
Lemma mkdirs_keeps (n : nat) (p q : Path) (f : gmap Path Node) node :
  file_above n p f = false -> f !! q = Some node -> mkdirs n p f !! q = Some node.
Proof.
  intros Hab Hq. induction n as [|n IH]; simpl in *; [done|].
  destruct (decide (take (S n) p = q)) as [Heq|Hne].
  - rewrite Heq in *. rewrite Hq in Hab. rewrite lookup_insert_eq.
    by destruct node.
  - rewrite lookup_insert_ne by done. apply IH.
    by destruct (f !! take (S n) p) as [[]|].
Qed.

Lemma readOnly_mkdirSync (p : Path) : readOnly (mkdirSync p).
Proof.
  intros d. unfold mkdirSync. cbn [files touch].
  destruct (file_above _ _ _) eqn:Hab; simpl.
  - split; [done|]. exists []. rewrite app_nil_r. split; [done|].
    intros x Hx. by apply elem_of_nil in Hx.
  - split; [intros q node Hq; by apply mkdirs_keeps|].
    exists [MadeDirs p]. split; [done|].
    intros c ->%list_elem_of_singleton. eauto.
Qed.

Lemma readOnly_getAudit J siteId : readOnly (getAudit J siteId).
Proof.
  unfold getAudit. destruct (String.eqb siteId ""); [apply readOnly_ret|].
  apply readOnly_bind.
  { apply readOnly_bind; [apply readOnly_existsSync|].
    intros [|]; [apply readOnly_ret|apply readOnly_mkdirSync]. }
  intros _. apply readOnly_bind; [apply readOnly_existsSync|].
  intros [|]; simpl; [|apply readOnly_ret].
  apply readOnly_bind; [apply readOnly_readFile|]. intros raw.
  destruct (JSON_parse J raw); [apply readOnly_ret|apply readOnly_throw].
Qed.

Lemma readOnly_loadAllAuditsJson J : readOnly (loadAllAuditsJson J).
Proof.
  unfold loadAllAuditsJson. apply readOnly_bind; [apply readOnly_existsSync|].
  intros [|]; simpl; [|apply readOnly_ret].
  apply readOnly_catch.
  - apply readOnly_bind; [apply readOnly_readFile|]. intros raw.
    destruct (JSON_parse J _); [apply readOnly_ret|apply readOnly_throw].
  - intros _. apply readOnly_bind; [apply readOnly_console_log|].
    intros _. apply readOnly_ret.
Qed.

Lemma readOnly_findAuditByIdOrSite E J parseURL id :
  readOnly (findAuditByIdOrSite E J parseURL id).
Proof.
  unfold findAuditByIdOrSite.
  apply readOnly_bind; [apply readOnly_loadAllAuditsJson|]. intros audits.
  destruct (inStore E parseURL id audits); [apply readOnly_ret|].
  apply readOnly_bind; [apply readOnly_existsSync|]. intros present.
  apply readOnly_bind.
  { destruct present; [|apply readOnly_ret].
    apply readOnly_catch; [|intros _; apply readOnly_ret].
    apply readOnly_bind; [apply readOnly_readFile|]. intros raw.
    destruct (JSON_parse J raw); [apply readOnly_ret|apply readOnly_throw]. }
  intros [v|]; [apply readOnly_ret|].
  apply readOnly_bind.
  { apply readOnly_catch; [apply readOnly_getAudit|intros _; apply readOnly_ret]. }
  intros s. destruct (truthy s); apply readOnly_ret.
Qed.

(** X9.  The lookups change no file: after [getAudit] of lib/storage.js
    and after [findAuditByIdOrSite] of chat-analyst.js, whatever the
    identifier and whatever the disk holds, every file and directory that
    was there is still there with the same content, and nothing was written
    or renamed; the only change they can make is to create directories. *)
Theorem lookups_change_no_file E J parseURL id :
  readOnly (getAudit J id) /\ readOnly (findAuditByIdOrSite E J parseURL id).
Proof.
  split; [apply readOnly_getAudit|apply readOnly_findAuditByIdOrSite].
Qed.

End ReadOnly.

Module FieldFacts.

(** Setting one field leaves the others as they were. *)
Lemma assoc_set_field_ne {A} k k' (x : A) fields :
  k' <> k -> assoc k' (set_field k x fields) = assoc k' fields.
Proof.
  intros Hne. induction fields as [|[k0 v] rest IH]; simpl.
  - apply String.eqb_neq in Hne. by rewrite Hne.
  - destruct (String.eqb_spec k k0) as [->|Hk]; simpl.
    + apply String.eqb_neq in Hne. by rewrite Hne.
    + by rewrite IH.
Qed.

End FieldFacts.

Module StoreLookup.
Import Storage PathFacts StorageFacts StoreRun StoreRecords RunAudit HandlerStore.
Import ChatAnalyst ChatAnalystFacts FieldFacts.

(** X10.  The save of the run-audit handler keeps the earlier audits:
    when data/audits.json holds an object, every audit stored under another
    identifier is still returned by the lookup of chat-analyst.js after a
    new audit has been saved. *)
Theorem persist_keeps_earlier_audits W id audit d fields E parseURL' k v :
  files d !! ["data"] = Some Dir ->
  files d !! auditsFile <> Some Dir ->
  existingFields (codec W) (files d) = Some fields ->
  serializable (codec W) (JObj (set_field id (auditData_json audit) fields)) ->
  JSON_stringify (codec W) (JObj (set_field id (auditData_json audit) fields)) <> "" ->
  k <> id -> assoc k fields = Some v -> truthy v = true ->
  exists d1,
    persist W id audit d = (Ret tt, d1) /\
    (findAuditByIdOrSite E (codec W) parseURL' k d1).1 = Ret (Plain v).
Proof.
  intros Hdata Hnd Hex Hser Hne Hk Hv Ht.
  destruct (persist_then_lookup W id audit d fields E parseURL' Hdata Hnd Hex Hser Hne)
    as (d1 & Hp & Hf & _).
  exists d1. split; [done|].
  rewrite findAuditByIdOrSite_layered. f_equal.
  unfold layeredLookup, storeOf.
  change ChatAnalyst.auditsJson with auditsFile. rewrite Hf.
  apply String.eqb_neq in Hne. rewrite Hne.
  unfold serializable in Hser. rewrite Hser.
  unfold inStore, js_get. cbn [truthy js_own]. rewrite assoc_set_field_ne, Hv by done.
  cbn [vtruthy]. by rewrite Ht.
Qed.

Lemma persist_keeps_earlier_audits_witness :
  exists d1,
    persist SampleWorld.world (randomUUID SampleWorld.world) sampleAudit SampleStore.disk
      = (Ret tt, d1) /\
    (findAuditByIdOrSite SampleEngine.engine SampleJson.codec SampleUrl.parse "id-a" d1).1
      = Ret (Plain SampleStore.recA).
Proof.
  apply (persist_keeps_earlier_audits SampleWorld.world (randomUUID SampleWorld.world)
           sampleAudit SampleStore.disk
           [("id-a", SampleStore.recA); ("id-b", SampleStore.recB)]
           SampleEngine.engine SampleUrl.parse "id-a" SampleStore.recA).
  - reflexivity.
  - intros H. vm_compute in H. discriminate H.
  - vm_compute. reflexivity.
  - vm_compute. reflexivity.
  - intros H. vm_compute in H. discriminate H.
  - discriminate.
  - reflexivity.
  - reflexivity.
Defined.

Lemma perFile_safe id : string_forall safeChar id = true -> perFile id = auditFile id.
Proof. intros H. unfold perFile, auditFile, AUDITS_DIR. by rewrite safeName_id. Qed.

(** X11.  A record saved with [saveAudit] of lib/storage.js under an
    identifier made of the characters [[a-zA-Z0-9-_.]] is what the lookup
    of chat-analyst.js returns for that identifier, unless data/audits.json
    already answers it: by a truthy property of that name, its own or
    inherited from a built-in prototype (as for "constructor"), or by a
    record that passes a test of the loop. *)
Theorem saveAudit_then_lookup E J parseURL siteId v d :
  string_forall safeChar siteId = true ->
  store_ready (files d) siteId ->
  serializable J v ->
  inStore E parseURL siteId (storeOf J (files d)) = None ->
  exists d1,
    saveAudit J siteId v d = (Ret true, d1) /\
    (findAuditByIdOrSite E J parseURL siteId d1).1 = Ret (Plain v).
Proof.
  intros Hsafe Hready Hser Hstore.
  destruct (saveAudit_run J siteId v d Hready) as (d1 & Hrun & Hf & _).
  exists d1. split; [done|].
  rewrite findAuditByIdOrSite_layered. f_equal.
  assert (Hjson : files d1 !! auditsJson = files d !! auditsJson).
  { rewrite Hf, lookup_insert_ne, lookup_delete_ne, ensured_other; try done.
    - rewrite tmpFile_eq. discriminate.
    - rewrite auditFile_eq. discriminate. }
  unfold layeredLookup.
  replace (storeOf J (files d1)) with (storeOf J (files d))
    by (unfold storeOf; by rewrite Hjson).
  rewrite Hstore. unfold perFileOf. rewrite (perFile_safe _ Hsafe), Hf, lookup_insert_eq.
  unfold serializable in Hser. by rewrite Hser.
Qed.

Lemma saveAudit_then_lookup_witness :
  exists d1,
    saveAudit SampleJson.codec "example.org" SampleStore.recC SampleWorld.host
      = (Ret true, d1) /\
    (findAuditByIdOrSite SampleEngine.engine SampleJson.codec SampleUrl.parse
       "example.org" d1).1 = Ret (Plain SampleStore.recC).
Proof.
  apply saveAudit_then_lookup.
  - reflexivity.
  - split; [right; split; [reflexivity|]|split];
      intros; intros H; vm_compute in H; discriminate H.
  - vm_compute. reflexivity.
  - reflexivity.
Defined.

Lemma split_up_two s : split "/" ("../../" +:+ s) = ".." :: ".." :: split "/" s.
Proof.
  change ("../../" +:+ s) with (String "." (String "." (String "/"
            (String "." (String "." (String "/" s)))))).
  cbn [split Ascii.eqb Bool.eqb].
  destruct (split "/" s); reflexivity.
Qed.

(** The path of the per-record file of chat-analyst.js is built from the
    identifier as it comes: two ".." segments lead out of data/audits. *)
Lemma perFile_up_two name :
  string_forall (fun c => negb (Ascii.eqb c "/")) name = true ->
  perFile ("../../" +:+ name) = [name +:+ ".json"].
Proof.
  intros Hname. unfold perFile, path_join, segments.
  rewrite append_assoc, split_up_two.
  fold (segments (name +:+ ".json")). rewrite segments_no_slash.
  - destruct (json_name_plain name) as (H1 & H2 & H3).
    apply String.eqb_neq in H1, H2, H3.
    cbn [rev app normalize String.eqb Ascii.eqb Bool.eqb orb]. by rewrite H1, H2, H3.
  - rewrite string_forall_app. by rewrite Hname.
Qed.

(** X12.  The lookup of chat-analyst.js is not confined to the data
    directory: for an identifier "../../name" that data/audits.json does not
    answer, it returns the parsed content of the file name.json of the
    working directory. *)
Theorem lookup_reads_outside_data E J parseURL name v d :
  string_forall (fun c => negb (Ascii.eqb c "/")) name = true ->
  files d !! [name +:+ ".json"] = Some (File (JSON_stringify J v)) ->
  serializable J v ->
  inStore E parseURL ("../../" +:+ name) (storeOf J (files d)) = None ->
  (findAuditByIdOrSite E J parseURL ("../../" +:+ name) d).1 = Ret (Plain v).
Proof.
  intros Hname Hfile Hser Hstore.
  rewrite findAuditByIdOrSite_layered. f_equal.
  unfold layeredLookup. rewrite Hstore.
  unfold perFileOf. rewrite (perFile_up_two _ Hname), Hfile.
  unfold serializable in Hser. by rewrite Hser.
Qed.

Lemma lookup_reads_outside_data_witness :
  let secrets := JObj [("name", JStr "website-auditor-agent"); ("private", JBool true)] in
  let d := disk_of {[ ["data"] := Dir;
                      ["package.json"] := File (SampleJson.print 0 secrets) ]} in
  (findAuditByIdOrSite SampleEngine.engine SampleJson.codec SampleUrl.parse
     "../../package" d).1 = Ret (Plain secrets).
Proof.
  intros secrets d.
  apply (lookup_reads_outside_data SampleEngine.engine SampleJson.codec SampleUrl.parse
           "package" secrets d).
  - reflexivity.
  - reflexivity.
  - vm_compute. reflexivity.
  - reflexivity.
Defined.

End StoreLookup.

Module SecurityFacts.
Import RunAudit Isolation.

Lemma analyzeSecurity_fromHandler parseURL libraries url pageHeaders page :
  exists rest,
    Security.forHandler parseURL libraries url pageHeaders page =
      Ret {| secFindings := map snd Security.required ++ rest; secHeaders := [] |} /\
    (length rest <= 2)%nat.
Proof.
  unfold Security.forHandler, Security.analyzeSecurity, Security.fromHandler.
  cbn [obind assoc Security.present List.filter negb map snd app].
  eexists. split; [reflexivity|].
  rewrite length_app.
  destruct (parseURL url) as [parsed|]; [destruct (String.eqb _ _)|];
    destruct (libraries _); simpl; lia.
Qed.

(** X13.  In the run-audit handler the security analyzer never sees the
    page's headers: it is handed the [Headers] object itself where it looks
    for a property [headers].  So for every world whose security analyzer
    is that of lib/security.js, whatever the page and its headers, the
    audit starts its security findings with the four missing-header
    findings, lists no headers, and has a security score from 52 to 68. *)
Theorem handler_security_ignores_headers W libraries url d :
  (forall u h page,
     analyzeSecurity W u h page = Security.forHandler (parseURL W) libraries u h page) ->
  exists audit d1,
    runAnalyzers W url d = (Ret audit, d1) /\
    take 4 (secSectionFindings (security audit)) = map snd Security.required /\
    secSectionHeaders (security audit) = [] /\
    52 <= secScore (security audit) <= 68.
Proof.
  intros HW. pose proof (runAnalyzers_run W url d) as Hrun. cbv zeta in Hrun.
  eexists _, _. split; [exact Hrun|].
  cbn [security buildAudit secSectionFindings secSectionHeaders secScore].
  rewrite HW.
  destruct (analyzeSecurity_fromHandler (parseURL W) libraries url
              (seoHeaders (settled defaultSeo (analyzeSEO W url)))
              (html (settled defaultSeo (analyzeSEO W url)))) as (rest & -> & Hlen).
  cbn [settled secFindings secHeaders]. split; [reflexivity|]. split; [reflexivity|].
  unfold securityScore. rewrite length_app. cbn [length map Security.required]. lia.
Qed.

Lemma handler_security_ignores_headers_witness :
  exists audit d1,
    runAnalyzers Security.sampleWorld "https://example.com/" SampleWorld.host
      = (Ret audit, d1) /\
    take 4 (secSectionFindings (security audit)) = map snd Security.required /\
    secSectionHeaders (security audit) = [] /\
    52 <= secScore (security audit) <= 68.
Proof.
  apply (handler_security_ignores_headers Security.sampleWorld (fun _ => [])).
  reflexivity.
Defined.

End SecurityFacts.

Module AddressRanges.
Import IpAddr SafeResolver.

Ltac arith := Z.to_euclidean_division_equations; lia.

(** Settle the comparisons of the goal one by one, by arithmetic where
    the context decides them and by cases where it does not. *)
Ltac settle_atoms :=
  repeat (cbn [andb orb];
    match goal with
    | |- context [?x =? ?y] =>
        first [ replace (x =? y) with true by (symmetry; apply Z.eqb_eq; arith)
              | replace (x =? y) with false by (symmetry; apply Z.eqb_neq; arith)
              | destruct (Z.eqb_spec x y) ]
    end).

Lemma matchCIDR_cons f fs s ss partSize bits :
  matchCIDR (f :: fs) (s :: ss) partSize bits =
    if bits >? 0 then
      if Z.shiftr f (Z.max 0 (partSize - bits)) =? Z.shiftr s (Z.max 0 (partSize - bits))
      then matchCIDR fs ss partSize (bits - partSize) else false
    else true.
Proof. reflexivity. Qed.

Lemma matchCIDR_done fs ss partSize bits :
  bits <= 0 -> matchCIDR fs ss partSize bits = true.
Proof.
  intros H. destruct fs, ss; try reflexivity. rewrite matchCIDR_cons.
  destruct (Z.gtb_spec bits 0); [lia|done].
Qed.

(** A part wholly inside the prefix is compared as it is. *)
Lemma matchCIDR_octet f fs s ss bits :
  8 <= bits ->
  matchCIDR (f :: fs) (s :: ss) 8 bits = (f =? s) && matchCIDR fs ss 8 (bits - 8).
Proof.
  intros H. rewrite matchCIDR_cons.
  destruct (Z.gtb_spec bits 0); [|lia].
  rewrite Z.max_l by lia. rewrite !Z.shiftr_0_r. by destruct (f =? s).
Qed.

(** The part the prefix ends in is compared on its leading bits. *)
Lemma matchCIDR_part f fs s ss bits :
  0 < bits < 8 ->
  matchCIDR (f :: fs) (s :: ss) 8 bits = (f / 2 ^ (8 - bits) =? s / 2 ^ (8 - bits)).
Proof.
  intros H. rewrite matchCIDR_cons.
  destruct (Z.gtb_spec bits 0); [|lia].
  rewrite Z.max_r by lia. rewrite !Z.shiftr_div_pow2 by lia.
  rewrite matchCIDR_done by lia. by destruct (_ =? _).
Qed.

Lemma addressIsPrivate_ipv4_range o :
  addressIsPrivate (Ret (IPv4 o)) =
    includes ["private"; "loopback"; "linkLocal"; "carrierGradeNat"; "uniqueLocal"]
             (range (IPv4 o)).
Proof. unfold addressIsPrivate. cbn [kind]. by destruct (includes _ _). Qed.

(** X14.  Which IPv4 addresses the check refuses: an address a.b.c.d is
    flagged exactly when it lies in 10.0.0.0/8, 127.0.0.0/8, 169.254.0.0/16,
    172.16.0.0/12, 192.168.0.0/16 or 100.64.0.0/10.  Every other IPv4
    address passes, the unspecified range 0.0.0.0/8 and the reserved ranges
    included. *)
Theorem addressIsPrivate_ipv4 a b c d :
  0 <= a < 256 -> 0 <= b < 256 -> 0 <= c < 256 -> 0 <= d < 256 ->
  addressIsPrivate (Ret (IPv4 [a; b; c; d])) = true <->
  a = 10 \/ a = 127 \/ (a = 169 /\ b = 254) \/ (a = 172 /\ 16 <= b <= 31) \/
  (a = 192 /\ b = 168) \/ (a = 100 /\ 64 <= b <= 127).
Proof.
  intros Ha Hb Hc Hd. rewrite addressIsPrivate_ipv4_range. unfold range, SpecialRanges4.
  cbn [subnetMatch existsb matches].
  repeat first
    [ rewrite matchCIDR_octet by lia
    | rewrite matchCIDR_part by lia
    | rewrite matchCIDR_done by lia ].
  assert (E1 : 2 ^ (8 - 4) = 16) by reflexivity.
  assert (E2 : 2 ^ (8 - (10 - 8)) = 64) by reflexivity.
  assert (E3 : 2 ^ (8 - (12 - 8)) = 16) by reflexivity.
  assert (E4 : 2 ^ (8 - (15 - 8)) = 2) by reflexivity.
  rewrite E1, E2, E3, E4. clear E1 E2 E3 E4.
  settle_atoms.
  all: match goal with
  | |- context [includes ?l ?x] =>
      let v := eval vm_compute in (includes l x) in change (includes l x) with v
  end.
  all: (split; [intros Hflag; try discriminate Hflag|intros Hin; try reflexivity]).
  all: arith.
Qed.

Lemma addressIsPrivate_ipv4_witness :
  addressIsPrivate (Ret (IPv4 [172; 20; 1; 1])) = true /\
  addressIsPrivate (Ret (IPv4 [0; 0; 0; 0])) <> true.
Proof.
  split.
  - apply (addressIsPrivate_ipv4 172 20 1 1); lia.
  - intros H. apply (addressIsPrivate_ipv4 0 0 0 0) in H; lia.
Defined.

Lemma matchCIDR_whole f fs s ss partSize bits :
  0 < partSize <= bits ->
  matchCIDR (f :: fs) (s :: ss) partSize bits =
    (f =? s) && matchCIDR fs ss partSize (bits - partSize).
Proof.
  intros H. rewrite matchCIDR_cons.
  destruct (Z.gtb_spec bits 0); [|lia].
  rewrite Z.max_l by lia. rewrite !Z.shiftr_0_r. by destruct (f =? s).
Qed.

Lemma matchCIDR_lead f fs s ss partSize bits :
  0 < bits < partSize ->
  matchCIDR (f :: fs) (s :: ss) partSize bits =
    (f / 2 ^ (partSize - bits) =? s / 2 ^ (partSize - bits)).
Proof.
  intros H. rewrite matchCIDR_cons.
  destruct (Z.gtb_spec bits 0); [|lia].
  rewrite Z.max_r by lia. rewrite !Z.shiftr_div_pow2 by lia.
  rewrite matchCIDR_done by lia. by destruct (_ =? _).
Qed.

Ltac evaluate_names :=
  repeat match goal with
  | |- context [includes ?l ?x] =>
      let v := eval vm_compute in (includes l x) in change (includes l x) with v
  | |- context [String.eqb ?x ?y] =>
      let v := eval vm_compute in (String.eqb x y) in change (String.eqb x y) with v
  end.

(** The second list of the check, on the IPv4 form of a mapped address. *)
Lemma private_or_loopback_ipv4 a b c d :
  0 <= a < 256 -> 0 <= b < 256 -> 0 <= c < 256 -> 0 <= d < 256 ->
  includes ["private"; "loopback"] (range (IPv4 [a; b; c; d])) = true <->
  a = 10 \/ a = 127 \/ (a = 172 /\ 16 <= b <= 31) \/ (a = 192 /\ b = 168).
Proof.
  intros Ha Hb Hc Hd. unfold range, SpecialRanges4.
  cbn [subnetMatch existsb matches].
  repeat first
    [ rewrite matchCIDR_octet by lia
    | rewrite matchCIDR_part by lia
    | rewrite matchCIDR_done by lia ].
  assert (E1 : 2 ^ (8 - 4) = 16) by reflexivity.
  assert (E2 : 2 ^ (8 - (10 - 8)) = 64) by reflexivity.
  assert (E3 : 2 ^ (8 - (12 - 8)) = 16) by reflexivity.
  assert (E4 : 2 ^ (8 - (15 - 8)) = 2) by reflexivity.
  rewrite E1, E2, E3, E4. clear E1 E2 E3 E4.
  settle_atoms.
  all: evaluate_names.
  all: (split; [intros Hflag; try discriminate Hflag|intros Hin; try reflexivity]).
  all: arith.
Qed.

(** The range of an IPv6 address, as far as the check looks at it. *)
Lemma range_ipv6 p0 p1 p2 p3 p4 p5 p6 p7 :
  Forall (fun x => 0 <= x < 65536) [p0; p1; p2; p3; p4; p5; p6; p7] ->
  (includes ["private"; "loopback"; "linkLocal"; "carrierGradeNat"; "uniqueLocal"]
     (range (IPv6 [p0; p1; p2; p3; p4; p5; p6; p7])) = true <->
   65152 <= p0 <= 65215 \/ 64512 <= p0 <= 65023 \/
   (p0 = 0 /\ p1 = 0 /\ p2 = 0 /\ p3 = 0 /\ p4 = 0 /\ p5 = 0 /\ p6 = 0 /\ p7 = 1)) /\
  (isIPv4MappedAddress (IPv6 [p0; p1; p2; p3; p4; p5; p6; p7]) = true <->
   p0 = 0 /\ p1 = 0 /\ p2 = 0 /\ p3 = 0 /\ p4 = 0 /\ p5 = 65535).
Proof.
  intros Hb. repeat (apply Forall_cons in Hb as [? Hb]). clear Hb.
  unfold isIPv4MappedAddress, range, SpecialRanges6.
  cbn [subnetMatch existsb matches].
  repeat first
    [ rewrite matchCIDR_whole by lia
    | rewrite matchCIDR_lead by lia
    | rewrite matchCIDR_done by lia ].
  assert (E1 : 2 ^ (16 - 10) = 64) by reflexivity.
  assert (E2 : 2 ^ (16 - 8) = 256) by reflexivity.
  assert (E3 : 2 ^ (16 - 7) = 512) by reflexivity.
  rewrite E1, E2, E3. clear E1 E2 E3.
  settle_atoms.
  all: evaluate_names.
  all: split.
  all: (split; [intros Hflag; try discriminate Hflag|intros Hin; try reflexivity]).
  all: arith.
Qed.

(** X21.  Which IPv6 addresses the check refuses: an address is flagged
    exactly when it lies in fe80::/10 or fc00::/7, is ::1, or is an
    IPv4-mapped address ::ffff:a.b.c.d whose IPv4 form lies in 10.0.0.0/8,
    127.0.0.0/8, 172.16.0.0/12 or 192.168.0.0/16.  A mapped link-local or
    carrier-grade NAT address is not flagged. *)
Theorem addressIsPrivate_ipv6 p0 p1 p2 p3 p4 p5 p6 p7 :
  Forall (fun x => 0 <= x < 65536) [p0; p1; p2; p3; p4; p5; p6; p7] ->
  addressIsPrivate (Ret (IPv6 [p0; p1; p2; p3; p4; p5; p6; p7])) = true <->
  65152 <= p0 <= 65215 \/ 64512 <= p0 <= 65023 \/
  (p0 = 0 /\ p1 = 0 /\ p2 = 0 /\ p3 = 0 /\ p4 = 0 /\ p5 = 0 /\ p6 = 0 /\ p7 = 1) \/
  (p0 = 0 /\ p1 = 0 /\ p2 = 0 /\ p3 = 0 /\ p4 = 0 /\ p5 = 65535 /\
   (p6 / 256 = 10 \/ p6 / 256 = 127 \/
    (p6 / 256 = 172 /\ 16 <= p6 mod 256 <= 31) \/
    (p6 / 256 = 192 /\ p6 mod 256 = 168))).
Proof.
  intros Hb. destruct (range_ipv6 _ _ _ _ _ _ _ _ Hb) as [Hfirst Hmapped].
  repeat (apply Forall_cons in Hb as [? Hb]). clear Hb.
  unfold addressIsPrivate, toIPv4Address. cbn [kind nth].
  change (String.eqb "ipv6" "ipv6") with true. cbn [andb].
  destruct (includes _ (range (IPv6 _))) eqn:Hflag.
  - split; [intros _|done]. pose proof (proj1 Hfirst eq_refl) as Hin. clear -Hin. tauto.
  - assert (Hnot : ~ (65152 <= p0 <= 65215 \/ 64512 <= p0 <= 65023 \/
              (p0 = 0 /\ p1 = 0 /\ p2 = 0 /\ p3 = 0 /\ p4 = 0 /\ p5 = 0 /\
               p6 = 0 /\ p7 = 1))).
    { intros Hin. apply Hfirst in Hin. discriminate Hin. }
    destruct (isIPv4MappedAddress (IPv6 _)) eqn:Hm.
    + pose proof (proj1 Hmapped eq_refl) as Hparts.
      change 255 with (Z.ones 8). rewrite !Z.land_ones, !Z.shiftr_div_pow2 by lia.
      change (2 ^ 8) with 256.
      rewrite private_or_loopback_ipv4;
        [|apply Z.div_pos || idtac; Z.to_euclidean_division_equations; lia..].
      clear Hfirst Hmapped Hflag. tauto.
    + split; [done|]. intros Hin.
      assert (Hm' : false = true) by (apply Hmapped; clear -Hin Hnot; tauto).
      discriminate Hm'.
Qed.

Lemma addressIsPrivate_ipv6_witness :
  addressIsPrivate (Ret (IPv6 [0; 0; 0; 0; 0; 65535; 2560; 5])) = true /\
  addressIsPrivate (Ret (IPv6 [0; 0; 0; 0; 0; 65535; 43518; 43518])) <> true.
Proof.
  split.
  - apply (addressIsPrivate_ipv6 0 0 0 0 0 65535 2560 5).
    + repeat constructor; lia.
    + do 3 right. repeat split; try reflexivity. left. reflexivity.
  - intros H. apply (addressIsPrivate_ipv6 0 0 0 0 0 65535 43518 43518) in H.
    + assert (E1 : 43518 / 256 = 169) by reflexivity.
      rewrite E1 in H. lia.
    + repeat constructor; lia.
Defined.

End AddressRanges.

Module AIChain.
Import AI AIFacts.

Lemma chain_past_failures J heuristic before rest cites user relevant query :
  Forall (fails user) before ->
  chain J heuristic (before ++ rest) cites user relevant query =
    obind (chain J heuristic rest cites user relevant query)
          (fun '(warned, r) => Ret (map name (List.filter enabled before) ++ warned, r)).
Proof.
  induction 1 as [|p before Hp _ IH]; cbn [app chain List.filter map].
  - by destruct (chain J heuristic rest cites user relevant query) as [[warned r]|e].
  - destruct (enabled p) eqn:He; [|exact IH].
    assert (Hw : warning (name p) (chain J heuristic (before ++ rest) cites user relevant query) =
                 obind (chain J heuristic rest cites user relevant query)
                       (fun '(warned, r) =>
                          Ret (map name (p :: List.filter enabled before) ++ warned, r))).
    { rewrite IH. unfold warning.
      by destruct (chain J heuristic rest cites user relevant query) as [[warned r]|e]. }
    destruct Hp as [Hd|[[e Hth]|(text & Hr & Hblank)]].
    + congruence.
    + by rewrite Hth.
    + by rewrite Hr, Hblank.
Qed.

(** X15.  The chain stops at the first provider that answers: when the
    citations and the user prompt could be built, the providers before [c]
    are disabled, throw or answer blank text, and [c] is enabled and answers
    text that is not blank, [answerQuery] returns the reading of that text,
    whatever providers come after [c]; the warnings name the enabled
    providers before [c], in order. *)
Theorem answerQuery_first_answer J heuristic before c after relevant query cites user text :
  query <> "" ->
  mapM (citation 400) (take 8 relevant) = Ret cites ->
  userPrompt relevant query = Ret user ->
  Forall (fails user) before ->
  enabled c = true ->
  call c systemPrompt user = Ret text ->
  trim text <> "" ->
  answerQuery J heuristic (before ++ c :: after) relevant query =
    Ret (map name (List.filter enabled before), interpret J heuristic (trim text) cites).
Proof.
  intros Hq Hcites Huser Hfail He Hcall Htext. unfold answerQuery.
  apply String.eqb_neq in Hq. rewrite Hq, Hcites, Huser. cbn [obind].
  rewrite (chain_past_failures _ _ _ _ _ _ _ _ Hfail).
  cbn [chain]. rewrite He, Hcall.
  apply String.eqb_neq in Htext. rewrite Htext. cbn [obind].
  by rewrite app_nil_r.
Qed.

Lemma answerQuery_first_answer_witness :
  let deepseek :=
    {| name := "deepseek"; enabled := true;
       call := fun _ _ => Ret " Compress the hero image. " |} in
  let never := {| name := "local"; enabled := true; call := fun _ _ => Throw "unused" |} in
  exists cites,
    mapM (citation 400) (take 8 SampleChain.evidence) = Ret cites /\
    answerQuery SampleJson.codec SampleChain.firstLine
        (firstn 2 SampleChain.callers ++ deepseek :: [never])
        SampleChain.evidence "Why is the site slow?" =
      Ret (["gemini"],
           interpret SampleJson.codec SampleChain.firstLine "Compress the hero image." cites).
Proof.
  intros deepseek never.
  destruct (mapM (citation 400) (take 8 SampleChain.evidence)) as [cites|e] eqn:Hc;
    [|vm_compute in Hc; discriminate Hc].
  destruct (userPrompt SampleChain.evidence "Why is the site slow?") as [user|e] eqn:Hu;
    [|vm_compute in Hu; discriminate Hu].
  exists cites. split; [reflexivity|].
  apply (answerQuery_first_answer SampleJson.codec SampleChain.firstLine
           (firstn 2 SampleChain.callers) deepseek [never] SampleChain.evidence
           "Why is the site slow?" cites user " Compress the hero image. ").
  - discriminate.
  - exact Hc.
  - exact Hu.
  - constructor; [left; reflexivity|].
    constructor; [right; left; eexists; reflexivity|]. constructor.
  - reflexivity.
  - reflexivity.
  - discriminate.
Defined.

Lemma substring_length n s : (String.length (String.substring 0 n s) <= n)%nat.
Proof.
  revert s. induction n as [|n IH]; intros [|c s]; simpl; try lia.
  specialize (IH s). lia.
Qed.

(** X16.  The evidence fallback returns exactly when [String] converts
    every value of the evidence, and throws otherwise; the reply it returns
    has something to offer and keeps it short: a non-empty answer, an urgency
    that is Low or Medium, from one to four suggested actions, and as many
    citations as the evidence has keys, at most six, each naming a key of
    the evidence with an excerpt of at most 300 characters. *)
Theorem fallback_shape relevant query :
  (returns (fallbackAnswerFromSnippets relevant query) <-> printable relevant) /\
  forall r,
    fallbackAnswerFromSnippets relevant query = Ret r ->
    (exists s, answer r = JStr s /\ s <> "") /\
    (urgency r = JStr "Low" \/ urgency r = JStr "Medium") /\
    exists cs acts,
      citations r = JArr cs /\
      length cs = Nat.min 6 (length relevant) /\
      (forall c, c ∈ cs ->
         exists k e, c = JObj [("section", JStr k); ("excerpt", JStr e)] /\
                     k ∈ map fst relevant /\
                     (String.length e <= 300)%nat) /\
      suggestedActions r = JArr (map JStr acts) /\
      (1 <= length acts <= 4)%nat.
Proof.
  split; [apply fallback_returns|].
  intros r Hr. destruct (fallback_run _ _ _ Hr) as (cs & pieces & Hcs & _ & ->).
  split; [exists unavailable; split; [reflexivity|discriminate]|].
  split; [apply fallbackReply_urgency|].
  unfold fallbackReply. cbn [citations suggestedActions].
  eexists _, _. split; [reflexivity|]. split; [|split; [|split; [reflexivity|]]].
  - by rewrite (mapM_length _ _ _ Hcs), length_take.
  - intros c Hc. destruct (citations_from _ _ _ Hcs c Hc) as (kv & text & Hin & _ & ->).
    exists kv.1, (slice0 300 text). split; [reflexivity|]. split.
    + apply list_elem_of_fmap. exists kv. split; [done|].
      by apply (subseteq_take 6 relevant).
    + apply substring_length.
  - destruct (matchesWord None _ brokenWords), (matchesWord None _ speedWords),
      (matchesWord None _ headerWords), (matchesWord None _ metaWords); simpl; lia.
Qed.

Lemma fallback_shape_witness :
  exists r cs acts,
    fallbackAnswerFromSnippets SampleChain.evidence "Why is the site slow?" = Ret r /\
    urgency r = JStr "Medium" /\
    citations r = JArr cs /\ length cs = 3%nat /\
    suggestedActions r = JArr (map JStr acts) /\ (1 <= length acts <= 4)%nat.
Proof.
  destruct (fallbackAnswerFromSnippets SampleChain.evidence "Why is the site slow?")
    as [r|e] eqn:Hr; [|vm_compute in Hr; discriminate Hr].
  destruct (proj2 (fallback_shape SampleChain.evidence "Why is the site slow?") r Hr)
    as (_ & _ & cs & acts & Hc & Hlen & _ & Ha & Hn).
  exists r, cs, acts. split; [reflexivity|]. split.
  { vm_compute in Hr. injection Hr as <-. reflexivity. }
  split; [exact Hc|]. split; [exact Hlen|]. split; [exact Ha|exact Hn].
Defined.

End AIChain.

Module EndpointLimiterFacts.
Import EndpointLimiters EndpointLimiterViews.

Lemma chat_step now ip (limiter : gmap string Window) :
  ChatAnalystLimiter.rateLimit now ip limiter =
    (count (next now (limiter !! ip)) <=? ChatAnalystLimiter.RATE_MAX,
     <[ip := next now (limiter !! ip)]> limiter).
Proof.
  unfold ChatAnalystLimiter.rateLimit, recordOf, next.
  destruct (limiter !! ip) as [rec|]; simpl; [done|].
  rewrite Z.sub_diag. reflexivity.
Qed.

Lemma pdf_step now ip (limiter : gmap string Window) :
  ReportPdfLimiter.rateLimit now ip limiter =
    (count (next now (limiter !! ip)) <=? ReportPdfLimiter.RATE_MAX,
     <[ip := next now (limiter !! ip)]> limiter).
Proof.
  unfold ReportPdfLimiter.rateLimit, recordOf, next.
  destruct (limiter !! ip) as [rec|]; simpl; [done|].
  rewrite Z.sub_diag. reflexivity.
Qed.

Lemma chart_step now ip (limiter : gmap string Window) :
  ChartDataLimiter.rateLimit now ip limiter =
    (count (next now (limiter !! ip)) <=? ChartDataLimiter.RATE_MAX,
     <[ip := next now (limiter !! ip)]> limiter).
Proof.
  unfold ChartDataLimiter.rateLimit, recordOf, next.
  destruct (limiter !! ip) as [rec|]; simpl.
  - by destruct (_ >? _).
  - rewrite Z.sub_diag. reflexivity.
Qed.

Lemma runAudit_step now ip (limiter : gmap string Window) :
  (RateLimiter.rateLimit now ip (asRateWindow <$> limiter)).2 =
    asRateWindow <$> <[ip := next now (limiter !! ip)]> limiter.
Proof.
  unfold RateLimiter.rateLimit, next. rewrite lookup_fmap, fmap_insert.
  destruct (limiter !! ip) as [rec|]; simpl; [|done].
  destruct (_ >? _); simpl; [done|]. by destruct (_ >? _).
Qed.

Section Windowed.
Variable max : Z.
Variable rl : Z -> string -> gmap string Window -> bool * gmap string Window.
Hypothesis rl_step : forall now ip (limiter : gmap string Window),
  rl now ip limiter =
    (count (next now (limiter !! ip)) <=? max, <[ip := next now (limiter !! ip)]> limiter).

Lemma serveWith_same_window ip t0 reqs :
  forall (limiter : gmap string Window) c,
    limiter !! ip = Some {| count := c; start := t0 |} ->
    (forall t, (ip, t) ∈ reqs -> t - t0 <= RATE_WINDOW_MS) ->
    forall i t, reqs !! i = Some (ip, t) ->
      (serveWith rl reqs limiter).1 !! i
      = Some (c + RateLimiter.earlier ip reqs i + 1 <=? max).
Proof.
  induction reqs as [|[ip' t'] reqs IH]; intros limiter c Hl Hin i t Hi; [done|].
  cbn [serveWith]. rewrite rl_step.
  destruct (serveWith rl reqs (<[ip' := next t' (limiter !! ip')]> limiter))
    as [rs limiter''] eqn:Es.
  destruct (decide (ip' = ip)) as [->|Hne].
  - rewrite Hl. unfold next. cbn [start count].
    assert (Hw : t' - t0 <= RATE_WINDOW_MS) by (apply Hin; left).
    destruct (Z.gtb_spec (t' - t0) RATE_WINDOW_MS); [lia|].
    rewrite Hl in Es. unfold next in Es. cbn [start count] in Es.
    destruct (Z.gtb_spec (t' - t0) RATE_WINDOW_MS); [lia|].
    destruct i as [|i]; simpl in *.
    + by rewrite RateLimiterFacts.earlier_0, Z.add_0_r.
    + rewrite RateLimiterFacts.earlier_S_same.
      specialize (IH (<[ip := {| count := c + 1; start := t0 |}]> limiter) (c + 1)).
      rewrite Es in IH. simpl in IH.
      rewrite (IH (lookup_insert_eq _ _ _)) with (t := t); [|by intros; apply Hin; right|done].
      do 2 f_equal. lia.
  - destruct i as [|i]; simpl in *; [congruence|].
    rewrite RateLimiterFacts.earlier_S_other by done.
    specialize (IH (<[ip' := next t' (limiter !! ip')]> limiter) c).
    rewrite Es in IH. simpl in IH.
    apply IH with (t := t);
      [by rewrite lookup_insert_ne|by intros; apply Hin; right|done].
Qed.

Lemma serveWith_window (limiter : gmap string Window) ip t0 reqs :
  opens limiter ip t0 ->
  (forall t, (ip, t) ∈ reqs -> t - t0 <= RATE_WINDOW_MS) ->
  (serveWith rl ((ip, t0) :: reqs) limiter).1 !! 0%nat = Some (1 <=? max) /\
  forall i t, reqs !! i = Some (ip, t) ->
    (serveWith rl ((ip, t0) :: reqs) limiter).1 !! S i
    = Some (RateLimiter.earlier ip reqs i + 2 <=? max).
Proof.
  intros Hopen Hin. cbn [serveWith]. rewrite rl_step.
  assert (Hnext : next t0 (limiter !! ip) = {| count := 1; start := t0 |}).
  { unfold opens in Hopen. unfold next. destruct (limiter !! ip) as [rec|]; [|done].
    destruct (Z.gtb_spec (t0 - start rec) RATE_WINDOW_MS); [done|lia]. }
  rewrite Hnext.
  pose proof (serveWith_same_window ip t0 reqs
    (<[ip := {| count := 1; start := t0 |}]> limiter) 1 (lookup_insert_eq _ _ _) Hin) as Hs.
  destruct (serveWith rl reqs _) as [rs limiter'']. simpl in *.
  split; [done|]. intros i t Hi. rewrite (Hs i t Hi). do 2 f_equal. lia.
Qed.

End Windowed.

(** X17.  The limiters of chat-analyst.js, generate-report-pdf.js and
    audit-chart-data.js are fixed windows like that of run-audit.js, each
    with its own bound: when a request of a client at [t0] starts a window
    and the client's later requests fall within 60000 ms of [t0], the first
    request is admitted and the [n]-th request of the window is admitted
    exactly when [n] is at most 12, 8 and 20 respectively, whatever other
    clients do in between. *)
Theorem endpoint_limiters_fixed_window (limiter : gmap string Window) ip t0 reqs :
  opens limiter ip t0 ->
  (forall t, (ip, t) ∈ reqs -> t - t0 <= RATE_WINDOW_MS) ->
  ((serveWith ChatAnalystLimiter.rateLimit ((ip, t0) :: reqs) limiter).1 !! 0%nat
     = Some true /\
   (serveWith ReportPdfLimiter.rateLimit ((ip, t0) :: reqs) limiter).1 !! 0%nat
     = Some true /\
   (serveWith ChartDataLimiter.rateLimit ((ip, t0) :: reqs) limiter).1 !! 0%nat
     = Some true) /\
  forall i t, reqs !! i = Some (ip, t) ->
    let n := RateLimiter.earlier ip reqs i + 2 in
    (serveWith ChatAnalystLimiter.rateLimit ((ip, t0) :: reqs) limiter).1 !! S i
      = Some (n <=? 12) /\
    (serveWith ReportPdfLimiter.rateLimit ((ip, t0) :: reqs) limiter).1 !! S i
      = Some (n <=? 8) /\
    (serveWith ChartDataLimiter.rateLimit ((ip, t0) :: reqs) limiter).1 !! S i
      = Some (n <=? 20).
Proof.
  intros Hopen Hin.
  destruct (serveWith_window _ _ chat_step limiter ip t0 reqs Hopen Hin) as [Hc0 Hc].
  destruct (serveWith_window _ _ pdf_step limiter ip t0 reqs Hopen Hin) as [Hp0 Hp].
  destruct (serveWith_window _ _ chart_step limiter ip t0 reqs Hopen Hin) as [Hg0 Hg].
  split; [by repeat split|].
  intros i t Hi n. subst n. split; [|split].
  - exact (Hc i t Hi).
  - exact (Hp i t Hi).
  - exact (Hg i t Hi).
Qed.

Lemma endpoint_limiters_fixed_window_witness :
  let reqs := replicate 12 ("203.0.113.7", 2000) in
  (serveWith ChatAnalystLimiter.rateLimit (("203.0.113.7", 1000) :: reqs) ∅).1 !! 12%nat
    = Some false /\
  (serveWith ReportPdfLimiter.rateLimit (("203.0.113.7", 1000) :: reqs) ∅).1 !! 12%nat
    = Some false /\
  (serveWith ChartDataLimiter.rateLimit (("203.0.113.7", 1000) :: reqs) ∅).1 !! 12%nat
    = Some true.
Proof.
  intros reqs.
  refine (proj2 (endpoint_limiters_fixed_window ∅ "203.0.113.7" 1000 reqs _ _)
            11%nat 2000 _).
  - exact I.
  - intros t Hin. apply elem_of_replicate in Hin as [Heq _].
    injection Heq as ->. unfold RATE_WINDOW_MS. lia.
  - reflexivity.
Defined.

(** X18.  The four limiters count alike: on the same stored windows, a
    request leaves the same window (count and start) for its client in
    chat-analyst.js, generate-report-pdf.js, audit-chart-data.js and
    run-audit.js, although the code of audit-chart-data.js resets the count
    to 0 and run-audit.js updates its record on separate paths; the
    endpoints differ only in the bound the count is compared with. *)
Theorem limiters_count_alike now ip (limiter : gmap string Window) :
  let after := (ChatAnalystLimiter.rateLimit now ip limiter).2 in
  (ReportPdfLimiter.rateLimit now ip limiter).2 = after /\
  (ChartDataLimiter.rateLimit now ip limiter).2 = after /\
  (RateLimiter.rateLimit now ip (asRateWindow <$> limiter)).2 = asRateWindow <$> after /\
  exists w, after !! ip = Some w /\
    (ChatAnalystLimiter.rateLimit now ip limiter).1 = (count w <=? 12) /\
    (ReportPdfLimiter.rateLimit now ip limiter).1 = (count w <=? 8) /\
    (ChartDataLimiter.rateLimit now ip limiter).1 = (count w <=? 20) /\
    RateLimiter.allowed (RateLimiter.rateLimit now ip (asRateWindow <$> limiter)).1
      = (count w <=? 10).
Proof.
  cbv zeta. rewrite chat_step, pdf_step, chart_step, runAudit_step. cbn [fst snd].
  split; [done|]. split; [done|]. split; [done|].
  exists (next now (limiter !! ip)). rewrite lookup_insert_eq.
  split; [done|]. split; [done|]. split; [done|]. split; [done|].
  unfold RateLimiter.rateLimit, next. rewrite lookup_fmap.
  destruct (limiter !! ip) as [rec|]; simpl; [|done].
  destruct (_ >? _); simpl; [done|].
  unfold RateLimiter.RATE_LIMIT_MAX.
  destruct (Z.gtb_spec (count rec + 1) 10), (Z.leb_spec (count rec + 1) 10); simpl; lia || done.
Qed.

End EndpointLimiterFacts.

Module AuditRanges.
Import Perf RunAudit Isolation AuditViews.

Lemma scoreOr0_range p :
  psiInRange (Ret p) -> 0 <= scoreOr0 (Some p) <= 100.
Proof.
  destruct p as [e|[s|] lcp inp cls raw]; simpl; lia.
Qed.

Lemma performanceScore_range p :
  (forall m, mobile p = Some m -> psiInRange (Ret m)) ->
  (forall k, desktop p = Some k -> psiInRange (Ret k)) ->
  0 <= performanceScore p <= 100.
Proof.
  intros Hm Hd. unfold performanceScore.
  assert (H1 : 0 <= scoreOr0 (mobile p) <= 100).
  { destruct (mobile p) as [m|]; [by apply scoreOr0_range, Hm|simpl; lia]. }
  assert (H2 : 0 <= scoreOr0 (desktop p) <= 100).
  { destruct (desktop p) as [k|]; [by apply scoreOr0_range, Hd|simpl; lia]. }
  destruct (negb _); [|done].
  Z.to_euclidean_division_equations. lia.
Qed.

(** X19.  Every audit the analyzers' step builds is in range, provided
    the scoring service reports percentages: the performance score and the
    security score lie between 0 and 100, the performance section has at
    most three findings, and the server fetch time it reports is below
    the 10000 ms timeout of the timing fetch (0 when the analyzer failed). *)
Theorem audit_in_range W url d :
  psiInRange (callPSI W url "mobile") ->
  psiInRange (callPSI W url "desktop") ->
  exists audit d1,
    runAnalyzers W url d = (Ret audit, d1) /\
    0 <= perfScore (performance audit) <= 100 /\
    0 <= secScore (security audit) <= 100 /\
    (length (perfFindings (performance audit)) <= 3)%nat /\
    exists ms, perfServerFetchMs (performance audit) = Some ms /\ ms < 10000.
Proof.
  intros Hm Hd. pose proof (runAnalyzers_run W url d) as Hrun. cbv zeta in Hrun.
  eexists _, _. split; [exact Hrun|].
  cbn [performance security buildAudit perfScore secScore perfFindings perfServerFetchMs].
  assert (Hperf : let p := settled defaultPerf (runPerformance W url) in
            (forall m, mobile p = Some m -> psiInRange (Ret m)) /\
            (forall k, desktop p = Some k -> psiInRange (Ret k)) /\
            (length (findings p) <= 3)%nat /\
            exists ms, serverFetchMs p = Some ms /\ ms < 10000).
  { unfold runPerformance, analyzePerformance, Fetcher.fetchWithTimeout, Fetcher.fetch,
      Fetcher.aborted, Fetcher.abortAfter.
    destruct (network W url) as [msg|latency res]; cbn [obind settled].
    { repeat split; try done; simpl; [lia|]. exists 0. split; [done|lia]. }
    destruct (Z.leb_spec 10000 latency); cbn [obind settled].
    { repeat split; try done; simpl; [lia|]. exists 0. split; [done|lia]. }
    destruct (callPSI W url "mobile") as [m|]; cbn [obind settled].
    2:{ repeat split; try done; simpl; [lia|]. exists 0. split; [done|lia]. }
    destruct (callPSI W url "desktop") as [k|]; cbn [obind settled].
    2:{ repeat split; try done; simpl; [lia|]. exists 0. split; [done|lia]. }
    cbn [mobile desktop findings serverFetchMs Fetcher.elapsed].
    split; [by intros ? [= <-]|]. split; [by intros ? [= <-]|]. split.
    - rewrite !length_app.
      destruct (negb _ && _); destruct (perfScoreOf m) as [s|]; [destruct (s <? 60)| |destruct (s <? 60)|];
        destruct (perfScoreOf k) as [s'|]; try destruct (s' <? 70); simpl; lia.
    - exists latency. split; [done|lia]. }
  destruct Hperf as (Hmob & Hdesk & Hlen & Hms).
  split; [by apply performanceScore_range|]. split; [unfold securityScore; lia|].
  split; [exact Hlen|exact Hms].
Qed.

Lemma audit_in_range_witness :
  exists audit d1,
    runAnalyzers SampleWorld.world "https://example.com/" SampleWorld.host = (Ret audit, d1) /\
    0 <= perfScore (performance audit) <= 100 /\
    0 <= secScore (security audit) <= 100 /\
    (length (perfFindings (performance audit)) <= 3)%nat /\
    exists ms, perfServerFetchMs (performance audit) = Some ms /\ ms < 10000.
Proof.
  apply (audit_in_range SampleWorld.world "https://example.com/" SampleWorld.host);
    simpl; lia.
Defined.

End AuditRanges.

Module ListingFacts.
Import Storage Listing PathFacts StorageFacts StoreRun.

Lemma substring_all s : String.substring 0 (String.length s) s = s.
Proof. induction s as [|c s IH]; simpl; [done|]. by rewrite IH. Qed.

Lemma substring_append_l s t : String.substring 0 (String.length s) (s +:+ t) = s.
Proof.
  induction s as [|c s IH]; simpl; [by destruct t|]. by rewrite IH.
Qed.

Lemma substring_append_r s t :
  String.substring (String.length s) (String.length t) (s +:+ t) = t.
Proof. induction s as [|c s IH]; simpl; [apply substring_all|exact IH]. Qed.

Lemma substring_split k s :
  (k <= String.length s)%nat ->
  s = String.substring 0 k s +:+ String.substring k (String.length s - k) s.
Proof.
  revert s. induction k as [|k IH]; intros s Hk.
  - rewrite Nat.sub_0_r, substring_all. by destruct s.
  - destruct s as [|c s]; simpl in *; [lia|].
    change (String c s =
            String c (String.substring 0 k s +:+
                      String.substring k (String.length s - k) s)).
    f_equal. apply IH. lia.
Qed.

Lemma endsWith_append n suffix : endsWith (n +:+ suffix) suffix = true.
Proof.
  unfold endsWith. rewrite length_append.
  replace (String.length n + String.length suffix - String.length suffix)%nat
    with (String.length n) by lia.
  rewrite substring_append_r, String.eqb_refl, andb_true_r.
  apply Nat.leb_le. lia.
Qed.

Lemma endsWith_inv f suffix :
  endsWith f suffix = true ->
  f = String.substring 0 (String.length f - String.length suffix) f +:+ suffix.
Proof.
  unfold endsWith. intros [Hlen Heq]%andb_true_iff.
  apply Nat.leb_le in Hlen. apply String.eqb_eq in Heq.
  rewrite (substring_split (String.length f - String.length suffix) f) at 1 by lia.
  f_equal. rewrite <- Heq at 3. f_equal. lia.
Qed.

Lemma stripJson_append n : stripJson (n +:+ ".json") = n.
Proof.
  unfold stripJson. rewrite endsWith_append, length_append. simpl String.length.
  replace (String.length n + 5 - 5)%nat with (String.length n) by lia.
  apply substring_append_l.
Qed.

Lemma removelast_snoc_last (p : Path) name :
  last p = Some name -> p = removelast p ++ [name].
Proof.
  induction p as [|x [|y l] IH]; intros H; [done|by injection H as ->|].
  change (x :: y :: l = x :: (removelast (y :: l) ++ [name])). f_equal. by apply IH.
Qed.

Lemma childOf_spec (dir p : Path) name :
  childOf dir p = Some name <-> p = dir ++ [name].
Proof.
  unfold childOf, parent. split.
  - destruct (bool_decide_reflect (removelast p = dir)) as [<-|]; [|done].
    apply removelast_snoc_last.
  - intros ->. rewrite removelast_last, bool_decide_eq_true_2 by done.
    apply last_snoc.
Qed.

(** The names of the listing, read off the files. *)
Lemma listed_spec (f : gmap Path Node) n :
  n ∈ map stripJson
        (List.filter (fun e => endsWith e ".json")
           (omap (fun kv => childOf AUDITS_DIR kv.1) (map_to_list f)))
  <-> is_Some (f !! (AUDITS_DIR ++ [n +:+ ".json"])).
Proof.
  split.
  - intros (e & -> & He)%list_elem_of_fmap.
    apply list_elem_of_In, filter_In in He as [He Hends].
    apply list_elem_of_In, list_elem_of_omap in He as ([p node] & Hin & Hchild).
    apply elem_of_map_to_list in Hin. apply childOf_spec in Hchild. simpl in Hchild.
    subst p. unfold stripJson. rewrite Hends.
    pose proof (endsWith_inv e ".json" Hends) as Hjoin.
    change (String.length ".json") with 5%nat in Hjoin. rewrite <- Hjoin. eauto.
  - intros [node Hnode]. apply list_elem_of_fmap. exists (n +:+ ".json").
    split; [by rewrite stripJson_append|].
    apply list_elem_of_In, filter_In. split; [|apply endsWith_append].
    apply list_elem_of_In, list_elem_of_omap.
    exists (AUDITS_DIR ++ [n +:+ ".json"], node). split.
    + by apply elem_of_map_to_list.
    + by apply childOf_spec.
Qed.

Lemma listAudits_run d :
  files d !! AUDITS_DIR = Some Dir ->
  (listAudits d).1 =
    Ret (map stripJson
           (List.filter (fun e => endsWith e ".json")
              (omap (fun kv => childOf AUDITS_DIR kv.1) (map_to_list (files d))))).
Proof.
  intros Hdir. unfold listAudits, fs_bind, ensureDir, fs_bind, existsSync, fs_ret, readdir.
  cbn [files touch]. rewrite Hdir.
  rewrite bool_decide_eq_true_2 by eauto. cbn [orb files touch].
  by rewrite (is_dir_true _ _ Hdir).
Qed.

(** X20.  The listing shows the records that are stored: whenever
    [listAudits] returns, a name is listed exactly when data/audits holds an
    entry of that name with the extension .json; and on a store that is
    ready, after [saveAudit(siteId, record)] the listing returns and holds
    the safe name of [siteId]. *)
Theorem listAudits_lists_records :
  (forall d names d1,
     listAudits d = (Ret names, d1) ->
     forall n, n ∈ names <-> is_Some (files d !! (AUDITS_DIR ++ [n +:+ ".json"]))) /\
  (forall J siteId v d,
     store_ready (files d) siteId ->
     exists names,
       (listAudits (saveAudit J siteId v d).2).1 = Ret names /\
       safeName siteId ∈ names).
Proof.
  split.
  - intros d names d1 Hrun n.
    unfold listAudits, fs_bind, ensureDir, fs_bind, existsSync, fs_ret, readdir,
      mkdirSync in Hrun.
    cbn [files touch] in Hrun.
    destruct (files d !! AUDITS_DIR) as [node|] eqn:Hdir.
    + rewrite bool_decide_eq_true_2 in Hrun by eauto. cbn [orb files touch] in Hrun.
      destruct (is_dir (files d) AUDITS_DIR); [|by rewrite Hdir in Hrun].
      injection Hrun as <- _. apply listed_spec.
    + rewrite bool_decide_eq_false_2 in Hrun by (by intros [? ?]).
      rewrite bool_decide_eq_false_2 in Hrun by done. cbn [orb files touch] in Hrun.
      destruct (file_above _ _ _); [done|].
      cbn [files touch commit change] in Hrun.
      destruct (is_dir _ AUDITS_DIR);
        [|by destruct (_ !! AUDITS_DIR) in Hrun].
      injection Hrun as <- _. rewrite listed_spec.
      unfold AUDITS_DIR. cbn [mkdirs length take app].
      by rewrite !lookup_insert_ne.
  - intros J siteId v d Hready.
    destruct (saveAudit_run J siteId v d Hready) as (d1 & Hrun & Hf & _).
    rewrite Hrun. cbn [snd].
    destruct (auditFile_not_dir_path siteId) as [Hfa Hfd].
    destruct (tmpFile_not_dir_path siteId) as [Hta Htd].
    pose proof (tmpFile_ne_auditFile siteId) as Hne.
    assert (Hdir : files d1 !! AUDITS_DIR = Some Dir).
    { rewrite Hf, lookup_insert_ne, lookup_delete_ne by done.
      destruct Hready as (Hd & _). unfold ensured.
      destruct Hd as [H|[H _]]; rewrite H; [done|]. apply lookup_insert_eq. }
    eexists. split; [by apply listAudits_run|].
    apply listed_spec. rewrite <- auditFile_eq, Hf, lookup_insert_eq. eauto.
Qed.

Lemma listAudits_lists_records_witness :
  exists names,
    (listAudits (saveAudit SampleJson.codec "shop/eu" SampleStore.recB SampleWorld.host).2).1
      = Ret names /\
    safeName "shop/eu" ∈ names.
Proof.
  apply (proj2 listAudits_lists_records SampleJson.codec "shop/eu" SampleStore.recB
           SampleWorld.host).
  split; [right; split; [reflexivity|]|split];
    intros; intros H; vm_compute in H; discriminate H.
Defined.

End ListingFacts.

Module HeaderKey.
Import RateLimiter RunAudit RequestViews.

Lemma letters_length n : String.length (letters n) = n.
Proof. induction n; simpl; congruence. Qed.

Lemma split_letters n : split "," (letters n) = [letters n].
Proof. induction n as [|n IH]; simpl; [done|]. by rewrite IH. Qed.

Lemma trimEnd_letters n : trimEnd (letters n) = letters n.
Proof.
  induction n as [|n IH]; [done|].
  cbn [letters trimEnd]. rewrite IH. by destruct n.
Qed.

Lemma trim_letters n : trim (letters n) = letters n.
Proof.
  unfold trim. destruct n; [done|]. cbn [letters trimStart].
  change (is_space "a") with false. cbv iota. apply (trimEnd_letters (S n)).
Qed.

Lemma unusedKey_fresh (limiter : gmap string RateWindow) :
  limiter !! unusedKey limiter = None.
Proof.
  destruct (limiter !! unusedKey limiter) as [rec|] eqn:Hl; [|done]. exfalso.
  assert (Hin : String.length (unusedKey limiter)
                ∈ String.length <$> (map_to_list limiter).*1).
  { apply list_elem_of_fmap. exists (unusedKey limiter). split; [done|].
    apply list_elem_of_fmap. exists (unusedKey limiter, rec). split; [done|].
    by apply elem_of_map_to_list. }
  apply max_list_elem_of_le in Hin. unfold unusedKey in Hin at 1.
  rewrite letters_length in Hin. lia.
Qed.

Lemma getClientIp_letters n req :
  getClientIp (withForwardedFor (letters (S n)) req) = Some (letters (S n)).
Proof.
  unfold getClientIp, withForwardedFor, nonempty. cbn [xForwardedFor].
  change (String.eqb (letters (S n)) "") with false. cbv iota.
  rewrite split_letters. cbn [map head]. by rewrite trim_letters.
Qed.

Lemma unusedKey_client (limiter : gmap string RateWindow) req :
  default "unknown" (nonempty (getClientIp (withForwardedFor (unusedKey limiter) req)))
  = unusedKey limiter.
Proof. unfold unusedKey. by rewrite getClientIp_letters. Qed.

(** X22.  The limiter of run-audit.js is keyed by what the client writes
    in X-Forwarded-For, not by its address: whatever windows the limiter
    holds, there is a header value with which a POST is admitted and handled
    as if no limit applied, a new window being opened under that value. *)
Theorem limiter_keyed_by_header W req (limiter : gmap string RateWindow) :
  method req = "POST" ->
  exists h,
    (handler W (withForwardedFor h req) limiter).2 = admitted W req /\
    (handler W (withForwardedFor h req) limiter).1 !! h
      = Some {| count := 1; windowStart := now W |}.
Proof.
  intros Hm. exists (unusedKey limiter). unfold handler.
  rewrite unusedKey_client.
  cbn [method withForwardedFor]. rewrite Hm.
  change (String.eqb "POST" "POST") with true. cbn [negb].
  unfold rateLimit. rewrite unusedKey_fresh. cbn [fst snd].
  split; [reflexivity|]. apply lookup_insert_eq.
Qed.

Lemma limiter_keyed_by_header_witness :
  let limiter : gmap string RateWindow :=
    {[ "203.0.113.7" := {| count := 11; windowStart := 900 |} ]} in
  statusOf ((handler SampleWorld.world SampleWorld.request limiter).2 SampleWorld.host).1
    = Some 429 /\
  exists h,
    (handler SampleWorld.world (withForwardedFor h SampleWorld.request) limiter).2
      = admitted SampleWorld.world SampleWorld.request /\
    (handler SampleWorld.world (withForwardedFor h SampleWorld.request) limiter).1 !! h
      = Some {| count := 1; windowStart := now SampleWorld.world |}.
Proof.
  intros limiter. split; [vm_compute; reflexivity|].
  apply (limiter_keyed_by_header SampleWorld.world SampleWorld.request limiter).
  reflexivity.
Defined.

End HeaderKey.

Module EdgeCases.
Import Storage StoreRun StoreRecords Perf RunAudit Isolation.

(** X23.  [getAudit] at its edges: for the empty identifier it answers
    [null] without looking at the disk; for any other identifier, on a
    store whose directory is there or can be made, it answers [null] when
    the record's file is missing, the parsed value when the file holds
    JSON, and throws "Audit JSON parse error: ..." when the file holds
    anything else (and EISDIR when a directory has the file's name). *)
Theorem getAudit_edges J siteId d :
  getAudit J "" d = (Ret JNull, d) /\
  (siteId <> "" ->
   (files d !! AUDITS_DIR = Some Dir \/
    (files d !! AUDITS_DIR = None /\ forall c, files d !! ["data"] <> Some (File c))) ->
   (getAudit J siteId d).1 =
     match files d !! auditFile siteId with
     | None => Ret JNull
     | Some Dir => Throw "EISDIR"
     | Some (File raw) =>
         match JSON_parse J raw with
         | Ret v => Ret v
         | Throw e => Throw ("Audit JSON parse error: " +:+ e)
         end
     end).
Proof. split; [reflexivity|apply getAudit_outcome]. Qed.

Lemma getAudit_edges_witness :
  let d := disk_of {[ ["data"] := Dir; AUDITS_DIR := Dir;
                      auditFile "example.com" := File "{ truncated" ]} in
  (getAudit SampleJson.codec "example.com" d).1
    = Throw "Audit JSON parse error: Unexpected token in JSON" /\
  (getAudit SampleJson.codec "example.org" d).1 = Ret JNull.
Proof.
  intros d. split.
  - rewrite (proj2 (getAudit_edges SampleJson.codec "example.com" d));
      [reflexivity|discriminate|left; reflexivity].
  - rewrite (proj2 (getAudit_edges SampleJson.codec "example.org" d));
      [reflexivity|discriminate|left; reflexivity].
Defined.

(** X24.  A body without a usable url does not always get the 400 answer:
    when the body is [null], or its [url] is a truthy value that is no
    string, the handler throws a TypeError before it has validated
    anything, and nothing is printed or written. *)
Theorem admitted_throws_on_malformed_body W req body d :
  parseBody W (reqBody req) = Some body ->
  (body = JNull \/
   exists v, js_own body "url" = Some v /\ truthy v = true /\ forall s, v <> JStr s) ->
  exists e, admitted W req d = (Throw e, d).
Proof.
  intros Hb Hbad. unfold admitted. rewrite Hb.
  destruct Hbad as [->|(v & Hget & Ht & Hns)]; [by eexists|].
  unfold urlOfBody. rewrite Hget, Ht.
  destruct v as [|b|n|s0|items|fields]; [| | |by destruct (Hns s0)| |];
    destruct body; by eexists.
Qed.

Lemma admitted_throws_on_malformed_body_witness :
  let req := {| method := "POST"; xForwardedFor := None;
                remoteAddress := Some "198.51.100.9";
                reqBody := BodyObject (JObj [("url", JNum 5)]) |} in
  exists e, admitted SampleWorld.world req SampleWorld.host = (Throw e, SampleWorld.host).
Proof.
  intros req.
  apply (admitted_throws_on_malformed_body SampleWorld.world req (JObj [("url", JNum 5)])).
  - vm_compute. reflexivity.
  - right. exists (JNum 5). repeat split; discriminate.
Defined.

(** X25.  What a failing analyzer leaves in the audit: when the SEO
    analyzer throws, the SEO section has score 0 and no findings; when the
    security analyzer throws, the security section has no findings and no
    headers, and so the score 100; when the summary throws, the audit
    carries the default summary.  Each failure is printed under its own
    tag, and the step returns an audit in every case. *)
Theorem analyzer_failures_defaults W url d :
  exists audit d1,
    runAnalyzers W url d = (Ret audit, d1) /\
    (forall e, analyzeSEO W url = Throw e ->
       seoSection audit = {| seoScore := 0; seoSectionFindings := [] |} /\
       (LogError, "[SEO Error]") ∈ console d1) /\
    (forall e,
       analyzeSecurity W url (seoHeaders (settled defaultSeo (analyzeSEO W url)))
         (html (settled defaultSeo (analyzeSEO W url))) = Throw e ->
       security audit =
         {| secScore := 100; secSectionFindings := []; secSectionHeaders := [] |} /\
       (LogError, "[Security Error]") ∈ console d1) /\
    (forall e, summarize W (raw audit) = Throw e ->
       aiSummary audit = defaultSummary /\
       (LogError, "[AI Summary Error]") ∈ console d1).
Proof.
  pose proof (runAnalyzers_run W url d) as Hrun. cbv zeta in Hrun.
  eexists _, _. split; [exact Hrun|].
  cbn [seoSection security aiSummary raw buildAudit console say].
  split; [|split].
  - intros e He. rewrite He. cbn [settled logged seo defaultSeo scoreEstimate seoFindings].
    split; [reflexivity|]. rewrite !elem_of_app. right. left. left.
  - intros e He. rewrite He. cbn [settled logged].
    split; [reflexivity|]. rewrite !elem_of_app. right. right. right. left. left.
  - intros e He. rewrite He. cbn [settled logged].
    split; [reflexivity|]. rewrite !elem_of_app. do 4 right. left.
Qed.

Lemma analyzer_failures_defaults_witness :
  exists audit d1,
    runAnalyzers SampleFailures.world "https://example.com/" SampleWorld.host
      = (Ret audit, d1) /\
    seoSection audit = {| seoScore := 0; seoSectionFindings := [] |} /\
    security audit =
      {| secScore := 100; secSectionFindings := []; secSectionHeaders := [] |} /\
    aiSummary audit = defaultSummary /\
    console d1 = [(LogError, "[SEO Error]"); (LogError, "[Security Error]");
                  (LogError, "[AI Summary Error]")].
Proof.
  destruct (analyzer_failures_defaults SampleFailures.world "https://example.com/"
              SampleWorld.host) as (audit & d1 & Hrun & Hseo & Hsec & Hsum).
  exists audit, d1. split; [exact Hrun|].
  split; [exact (proj1 (Hseo "fetch failed" eq_refl))|].
  split; [exact (proj1 (Hsec "TypeError: entries is not a function" eq_refl))|].
  split; [exact (proj1 (Hsum "TypeError: summarize is not a function" eq_refl))|].
  pose proof Hrun as Hc. vm_compute in Hc. injection Hc as _ <-. reflexivity.
Defined.

(** X26.  A store the handler cannot read is started afresh: when
    data/audits.json holds text that is no JSON, the save does not fail; it
    replaces the file by an object holding the new audit alone, so that
    whatever the file held is gone. *)
Theorem persist_resets_unreadable_store W id audit d text e :
  files d !! ["data"] = Some Dir ->
  files d !! auditsFile = Some (File text) ->
  JSON_parse (codec W) text = Throw e ->
  exists d1,
    persist W id audit d = (Ret tt, d1) /\
    files d1 !! auditsFile =
      Some (File (JSON_stringify (codec W) (JObj [(id, auditData_json audit)]))).
Proof.
  intros Hdata Hfile Hparse.
  unfold persist, fs_bind, fs_catch, existsSync, readFile, fs_ret, fs_throw, writeFile.
  cbn [files touch]. rewrite Hfile.
  rewrite bool_decide_eq_true_2 by eauto. cbn [orb files touch].
  rewrite Hfile, Hparse. cbn [assign set_field files touch].
  change (parent auditsFile) with ["data"].
  rewrite (is_dir_true _ _ Hdata). cbn [negb].
  rewrite is_dir_false by (done || by rewrite Hfile).
  eexists. split; [reflexivity|]. cbn [files commit change]. apply lookup_insert_eq.
Qed.

Lemma persist_resets_unreadable_store_witness :
  let d := disk_of {[ ["data"] := Dir; auditsFile := File "{ truncated" ]} in
  exists d1,
    persist SampleWorld.world "id-new" sampleAudit d = (Ret tt, d1) /\
    files d1 !! auditsFile =
      Some (File (JSON_stringify SampleJson.codec
                    (JObj [("id-new", auditData_json sampleAudit)]))).
Proof.
  intros d.
  apply (persist_resets_unreadable_store SampleWorld.world "id-new" sampleAudit d
           "{ truncated" "Unexpected token in JSON").
  - reflexivity.
  - reflexivity.
  - vm_compute. reflexivity.
Defined.

End EdgeCases.

Module ReportPdfFacts.
Import EndpointLimiters RunAudit ReportPdf StoreViews.

Lemma generationFailed_run msg d :
  exists resp,
    generationFailed msg d =
      (Ret resp, say [(LogError, "generate-report-pdf error:")] d) /\
    (statusCode resp = 501 \/ statusCode resp = 504 \/ statusCode resp = 500) /\
    resBody resp <> ErrorBody "Failed to load audit".
Proof.
  unfold generationFailed, fs_bind, console_log, respond, fs_ret, say.
  destruct (_ || _); [|destruct (js_includes _ "timed out")];
    eexists; (split; [reflexivity|]); simpl; (split; [tauto|discriminate]).
Qed.

(** Once it has the identifier the handler always answers, and only
    prints. *)
Lemma answerFor_answers W id d :
  exists resp d1,
    answerFor W id d = (Ret resp, d1) /\
    statusCode resp ∈ [400; 404; 501; 504; 500; 200] /\
    resBody resp <> ErrorBody "Failed to load audit" /\
    (forall p n, files d !! p = Some n -> files d1 !! p = Some n).
Proof.
  unfold answerFor, respond, fs_ret.
  destruct (String.eqb id "").
  { eexists _, _. split; [reflexivity|]. simpl. repeat split; [repeat constructor|discriminate|done]. }
  pose proof (ChatAnalystFacts.findAuditByIdOrSite_layered (engine W) (codec W) (parseURL W)
                id d) as Hret.
  destruct (ReadOnly.readOnly_findAuditByIdOrSite (engine W) (codec W) (parseURL W) id d)
    as [Hkeep _].
  unfold fs_bind at 1. unfold fs_catch. unfold fs_bind at 1.
  destruct (ChatAnalyst.findAuditByIdOrSite (engine W) (codec W) (parseURL W) id d)
    as [o d0]. simpl in Hret, Hkeep. subst o. unfold fs_ret.
  set (layered := fun d : Disk =>
         ChatAnalyst.layeredLookup (engine W) (parseURL W) id
           (ChatAnalyst.storeOf (codec W) (files d))
           (ChatAnalyst.perFileOf (codec W) (files d) id)
           (ChatAnalyst.storedOf (codec W) (files d) id)).
  change (ChatAnalyst.layeredLookup _ _ _ _ _ _) with (layered d).
  destruct (vtruthy _); cbn [negb].
  2:{ eexists _, _. split; [reflexivity|]. simpl. repeat split; [repeat constructor|discriminate|done]. }
  assert (Hfail : forall msg d1, files d1 = files d0 -> exists resp d2,
    generationFailed msg d1 = (Ret resp, d2) /\
    statusCode resp ∈ [400; 404; 501; 504; 500; 200] /\
    resBody resp <> ErrorBody "Failed to load audit" /\
    (forall p n, files d !! p = Some n -> files d2 !! p = Some n)).
  { intros msg d1 Hf1. destruct (generationFailed_run msg d1) as (resp & Hrun & Hst & Hb).
    eexists _, _. split; [exact Hrun|]. split; [|split; [done|]].
    - destruct Hst as [Hs|[Hs|Hs]]; rewrite Hs; repeat constructor.
    - intros p n Hp. simpl. rewrite Hf1. auto. }
  assert (Hgen : forall create d1, files d1 = files d0 -> exists resp d2,
    match timeoutPromise (create id (layered d)) 20000 "PDF generation timed out" with
    | Ret len =>
        if headerValue W ("inline; filename=" +:+ dq +:+ id +:+ "-audit.pdf" +:+ dq)
        then fun d => (Ret {| statusCode := 200;
                       resHeaders :=
                         [("Content-Type", "application/pdf");
                          ("Content-Disposition",
                           "inline; filename=" +:+ dq +:+ id +:+ "-audit.pdf" +:+ dq);
                          ("Content-Length", print_Z len)];
                       resBody := PdfBody len |}, d)
        else generationFailed
               ("Invalid character in header content [" +:+ dq +:+
                "Content-Disposition" +:+ dq +:+ "]")
    | Throw msg => generationFailed msg
    end d1 = (Ret resp, d2) /\
    statusCode resp ∈ [400; 404; 501; 504; 500; 200] /\
    resBody resp <> ErrorBody "Failed to load audit" /\
    (forall p n, files d !! p = Some n -> files d2 !! p = Some n)).
  { intros create d1 Hf1.
    destruct (timeoutPromise _ _ _) as [len|msg]; [|by apply Hfail].
    destruct (headerValue W _); [|by apply Hfail].
    eexists _, _. split; [reflexivity|]. simpl.
    repeat split; [repeat constructor|discriminate|by intros; rewrite Hf1; auto]. }
  unfold fs_bind, console_log.
  destruct (pdfModule W) as [[create|]|e].
  - by apply Hgen.
  - eexists _, _. split; [reflexivity|]. simpl.
    repeat split; [repeat constructor|discriminate|by auto].
  - eexists _, _. split; [reflexivity|]. simpl.
    repeat split; [repeat constructor|discriminate|by auto].
Qed.

(** X27.  The handler of generate-report-pdf.js answers every request
    but those whose identifier [String] cannot convert: for these, and only
    for these, it throws the [TypeError] of the conversion, which stands
    outside every [try].  When it answers, the status is one of 405, 429,
    400, 404, 501, 504, 500 and 200, and the answer "Failed to load audit" is
    never given, as the lookup cannot fail.  Whether it answers or throws, no
    file that was there is changed. *)
Theorem pdf_handler_answers_all_but_odd_ids W req (limiter : gmap string Window) d :
  let run := (ReportPdf.handler W req limiter).2 d in
  (forall p n, files d !! p = Some n -> files run.2 !! p = Some n) /\
  (forall e, run.1 = Throw e <-> oddIdentifier W req limiter e) /\
  ((forall e, ~ oddIdentifier W req limiter e) ->
   exists resp,
     run.1 = Ret resp /\
     statusCode resp ∈ [405; 429; 400; 404; 501; 504; 500; 200] /\
     resBody resp <> ErrorBody "Failed to load audit").
Proof.
  intros run. subst run. unfold oddIdentifier, ReportPdf.handler.
  destruct (String.eqb_spec (method req) "POST") as [Hm|Hm]; cbn [negb].
  2:{ simpl. split; [done|]. split.
      - intros e. split; [done|]. by intros [? _].
      - intros _. eexists. split; [reflexivity|]. simpl.
        split; [repeat constructor|discriminate]. }
  destruct (ReportPdfLimiter.rateLimit _ _ _) as [[|] limiter']; cbn [fst snd].
  2:{ simpl. split; [done|]. split.
      - intros e. split; [done|]. by intros (_ & ? & _).
      - intros _. eexists. split; [reflexivity|]. simpl.
        split; [repeat constructor|discriminate]. }
  unfold ReportPdf.admitted, respond, fs_ret, fs_throw.
  destruct (ReportPdf.parseBody (codec W) (reqBody req)) as [body|].
  2:{ simpl. split; [done|]. split.
      - intros e. split; [done|]. by intros (_ & _ & body & ? & _).
      - intros _. eexists. split; [reflexivity|]. simpl.
        split; [repeat constructor|discriminate]. }
  destruct (idOf body) as [id|e0] eqn:Hid.
  - destruct (answerFor_answers W id d) as (resp & d1 & -> & Hst & Hb & Hkeep).
    cbn [fst snd]. split; [done|]. split.
    + intros e. split; [done|]. intros (_ & _ & body' & [= <-] & Hthrow). congruence.
    + intros _. exists resp. split; [done|]. split; [|done].
      do 2 apply list_elem_of_further. exact Hst.
  - cbn [fst snd]. split; [done|]. split.
    + intros e. split.
      * intros [= <-]. repeat split; try done. by exists body.
      * intros (_ & _ & body' & [= <-] & Hthrow). congruence.
    + intros Hno. exfalso. apply (Hno e0). repeat split; try done. by exists body.
Qed.

Lemma pdf_handler_answers_all_but_odd_ids_witness :
  (exists resp,
     ((ReportPdf.handler ReportPdf.sampleWorld sampleRequest ∅).2 SampleStore.disk).1
       = Ret resp /\
     statusCode resp ∈ [405; 429; 400; 404; 501; 504; 500; 200]) /\
  ((ReportPdf.handler ReportPdf.sampleWorld oddRequest ∅).2 SampleStore.disk).1
    = Throw "TypeError: Cannot convert object to primitive value".
Proof.
  split.
  - destruct (pdf_handler_answers_all_but_odd_ids ReportPdf.sampleWorld sampleRequest ∅
                SampleStore.disk) as (_ & _ & Hanswers).
    destruct Hanswers as (resp & Hrun & Hst & _).
    + intros e (_ & _ & body & Hb & Hid). vm_compute in Hb. injection Hb as <-.
      vm_compute in Hid. discriminate Hid.
    + exists resp. split; [exact Hrun|exact Hst].
  - apply (proj1 (proj2 (pdf_handler_answers_all_but_odd_ids ReportPdf.sampleWorld
                            oddRequest ∅ SampleStore.disk))).
    split; [reflexivity|]. split; [vm_compute; reflexivity|].
    eexists. split; reflexivity.
Defined.

Lemma generationFailed_not_200 msg d :
  ReportPdf.statusOf (generationFailed msg d).1 <> Some 200.
Proof.
  destruct (generationFailed_run msg d) as (resp & -> & Hst & _). simpl.
  destruct Hst as [Hs|[Hs|Hs]]; rewrite Hs; discriminate.
Qed.

(** X28.  The handler of generate-report-pdf.js answers 200 only to a
    POST that the limiter admitted, whose body names an identifier that is
    not blank, for which the lookup found a truthy audit, and for which the
    PDF module is there and produced the buffer in less than 20000 ms. *)
Theorem pdf_200_only_if W req (limiter : gmap string Window) d :
  ReportPdf.statusOf ((ReportPdf.handler W req limiter).2 d).1 = Some 200 ->
  method req = "POST" /\
  (ReportPdfLimiter.rateLimit (now W) (ReportPdf.getClientIp req) limiter).1 = true /\
  exists body id audit create t len,
    ReportPdf.parseBody (codec W) (reqBody req) = Some body /\
    idOf body = Ret id /\
    id <> "" /\
    (ChatAnalyst.findAuditByIdOrSite (engine W) (codec W) (parseURL W) id d).1 = Ret audit /\
    vtruthy audit = true /\
    pdfModule W = Ret (Some create) /\
    create id audit = Produced t len /\ t < 20000.
Proof.
  unfold ReportPdf.handler.
  destruct (String.eqb_spec (method req) "POST") as [Hm|]; [|discriminate]. cbn [negb].
  destruct (ReportPdfLimiter.rateLimit _ _ _) as [[|] limiter']; cbn [fst snd];
    [|discriminate].
  unfold ReportPdf.admitted, respond.
  destruct (ReportPdf.parseBody (codec W) (reqBody req)) as [body|] eqn:Hb; [|discriminate].
  destruct (idOf body) as [id|e] eqn:Hidof; [|discriminate].
  unfold answerFor, respond.
  destruct (String.eqb_spec id "") as [|Hid]; [discriminate|].
  pose proof (ChatAnalystFacts.findAuditByIdOrSite_layered (engine W) (codec W) (parseURL W)
                id d) as Hret.
  unfold fs_bind at 1. unfold fs_catch. unfold fs_bind at 1.
  destruct (ChatAnalyst.findAuditByIdOrSite (engine W) (codec W) (parseURL W) id d)
    as [o d0]. cbn [fst] in Hret. subst o. unfold fs_ret at 1.
  match goal with |- context [vtruthy ?a] => set (audit := a) end.
  destruct (vtruthy audit) eqn:Ht; cbn [negb]; [|discriminate].
  unfold fs_bind at 1.
  destruct (pdfModule W) as [[create|]|e] eqn:Hmod.
  - unfold fs_ret at 1.
    destruct (create id audit) as [t len|t msg|] eqn:Hrun; cbn [timeoutPromise].
    + destruct (Z.ltb_spec t 20000).
      * intros _. split; [done|]. split; [done|].
        exists body, id, audit, create, t, len. repeat split; try done.
        apply ChatAnalystFacts.findAuditByIdOrSite_layered.
      * intros H200. by apply generationFailed_not_200 in H200.
    + destruct (t <? 20000); intros H200; by apply generationFailed_not_200 in H200.
    + intros H200. by apply generationFailed_not_200 in H200.
  - discriminate.
  - unfold fs_bind, console_log, fs_ret. discriminate.
Qed.

Lemma pdf_200_only_if_witness :
  exists body id audit create t len,
    ReportPdf.parseBody SampleJson.codec (reqBody sampleRequest) = Some body /\
    idOf body = Ret id /\
    id <> "" /\
    (ChatAnalyst.findAuditByIdOrSite SampleEngine.engine SampleJson.codec SampleUrl.parse id
       SampleStore.disk).1 = Ret audit /\
    vtruthy audit = true /\
    pdfModule ReportPdf.sampleWorld = Ret (Some create) /\
    create id audit = Produced t len /\ t < 20000.
Proof.
  apply (pdf_200_only_if ReportPdf.sampleWorld sampleRequest ∅ SampleStore.disk).
  vm_compute. reflexivity.
Defined.

End ReportPdfFacts.

Module SecurityHeaders.
Import RunAudit Security HeaderViews.

Lemma collect_from name entries :
  name <> "__proto__" ->
  forall acc,
    assoc name
      (fold_left
         (fun (acc : list (string * string)) (kv : string * string) =>
            let k := AI.toLowerCase kv.1 in
            if String.eqb k "__proto__" then acc else set_field k kv.2 acc)
         entries acc)
    = fold_left
        (fun (acc : option string) (kv : string * string) =>
           if String.eqb (AI.toLowerCase kv.1) name then Some kv.2 else acc)
        entries (assoc name acc).
Proof.
  intros Hname. induction entries as [|[k v] rest IH]; intros acc; [done|].
  cbn [fold_left fst snd]. rewrite IH. f_equal.
  destruct (String.eqb_spec (AI.toLowerCase k) "__proto__") as [Hp|Hp].
  - destruct (String.eqb_spec (AI.toLowerCase k) name); [congruence|done].
  - destruct (String.eqb_spec (AI.toLowerCase k) name) as [<-|Hk].
    + apply HandlerStore.assoc_set_field.
    + apply FieldFacts.assoc_set_field_ne. congruence.
Qed.

(** The headers the analyzer collects hold, under a lower-case name, the
    last value the response gives for it. *)
Lemma collect_lastValue name entries :
  name <> "__proto__" -> assoc name (collect entries) = lastValue name entries.
Proof. intros Hname. unfold collect, lastValue. by rewrite collect_from. Qed.

Ltac in_required H :=
  unfold required in H;
  repeat (apply elem_of_cons in H as [H|H]); [..|by apply elem_of_nil in H].

Lemma required_name n n' f : (n, f) ∈ required -> (n', f) ∈ required -> n = n'.
Proof.
  intros H H'. in_required H; injection H as -> ->; in_required H';
    first [discriminate H' | by injection H' as ->].
Qed.

Lemma required_plain n f :
  (n, f) ∈ required ->
  n <> "__proto__" /\ title f <> "No HTTPS redirect" /\ title f <> "Permissive CORS" /\
  title f <> "Detected JS libraries — verify versions".
Proof. intros H. in_required H; injection H as -> ->; repeat split; discriminate. Qed.

Lemma missing_spec (hdrs : list (string * string)) name f :
  (name, f) ∈ required ->
  f ∈ map snd (List.filter (fun r => negb (present hdrs r.1)) required) <->
  negb (present hdrs name) = true.
Proof.
  intros Hreq. split.
  - intros ([n' f'] & -> & Hin)%list_elem_of_fmap.
    apply list_elem_of_In, filter_In in Hin as [Hin Hp]. apply list_elem_of_In in Hin.
    simpl in *. by rewrite (required_name _ _ _ Hreq Hin).
  - intros Hp. apply list_elem_of_fmap. exists (name, f). split; [done|].
    apply list_elem_of_In, filter_In. split; [by apply list_elem_of_In|done].
Qed.

(** X30.  Handed a response, the security analyzer is right about the
    four headers: it returns, and it reports the finding of a required
    header exactly when the response has no header of that name, compared
    without regard to case, or when the last value of that header is empty. *)
Theorem analyzeSecurity_missing_headers parseURL libraries url entries u page name f :
  (name, f) ∈ required ->
  exists r,
    analyzeSecurity parseURL libraries url (ResponseObject (Some (Iterable entries)) u) page
      = Ret r /\
    (f ∈ secFindings r <->
     lastValue name entries = None \/ lastValue name entries = Some "").
Proof.
  intros Hreq. destruct (required_plain _ _ Hreq) as (Hname & Ht1 & Ht2 & Ht3).
  unfold analyzeSecurity. cbn [obind]. eexists. split; [reflexivity|].
  cbn [secFindings].
  generalize (libraries (AI.slice0 (N.to_nat 200000) page)). intros libs.
  assert (Hother : forall g,
    g ∈ match parseURL url with
        | Ret parsed =>
            if String.eqb (protocol parsed) "http:" then
              match u with
              | Some u0 => if String.prefix "https:" u0 then [] else [noRedirect]
              | None => [noRedirect]
              end
            else []
        | Throw _ => []
        end ++
        match assoc "access-control-allow-origin" (collect entries) with
        | Some v => if String.eqb v "*" then [permissiveCors] else []
        | None => []
        end ++
        match libs with
        | [] => []
        | _ :: _ => [detected libs]
        end ->
    title g = "No HTTPS redirect" \/ title g = "Permissive CORS" \/
    title g = "Detected JS libraries — verify versions").
  { intros g Hg. rewrite !elem_of_app in Hg. destruct Hg as [Hg|[Hg|Hg]].
    - left. destruct (parseURL url) as [parsed|]; [|by apply elem_of_nil in Hg].
      destruct (String.eqb _ _); [|by apply elem_of_nil in Hg].
      destruct u as [u0|]; [destruct (String.prefix _ _); [by apply elem_of_nil in Hg|]|];
        by apply list_elem_of_singleton in Hg as ->.
    - right. left. destruct (assoc _ _) as [v|]; [|by apply elem_of_nil in Hg].
      destruct (String.eqb v "*"); [|by apply elem_of_nil in Hg].
      by apply list_elem_of_singleton in Hg as ->.
    - right. right. destruct libs as [|l ls]; [by apply elem_of_nil in Hg|].
      by apply list_elem_of_singleton in Hg as ->. }
  assert (Hpresent : negb (present (collect entries) name) = true <->
    lastValue name entries = None \/ lastValue name entries = Some "").
  { unfold present. rewrite (collect_lastValue name entries Hname).
    destruct (lastValue name entries) as [v|]; [|by intuition].
    destruct (String.eqb_spec v "") as [->|Hv]; simpl; [by intuition|].
    split; [done|]. intros [H|[= H]]; done. }
  rewrite elem_of_app, (missing_spec _ _ _ Hreq), <- Hpresent.
  split; [|by left]. intros [Hin|Hin]; [done|].
  apply Hother in Hin. destruct Hin as [Hin|[Hin|Hin]]; congruence.
Qed.

Lemma analyzeSecurity_missing_headers_witness :
  let entries := [("Strict-Transport-Security", "max-age=63072000");
                  ("X-Frame-Options", "")] in
  let f := {| title := "Missing X-Frame-Options";
              action := "Add X-Frame-Options to reduce clickjacking." |} in
  exists r,
    analyzeSecurity SampleUrl.parse (fun _ => []) "https://example.com/"
      (ResponseObject (Some (Iterable entries)) (Some "https://example.com/"))
      "<html></html>" = Ret r /\
    (f ∈ secFindings r <->
     lastValue "x-frame-options" entries = None \/
     lastValue "x-frame-options" entries = Some "").
Proof.
  intros entries f. apply analyzeSecurity_missing_headers.
  unfold required. do 2 apply list_elem_of_further. apply list_elem_of_here.
Defined.

End SecurityHeaders.

Module FailedSave.
Import Storage PathFacts StorageFacts StoreRun StoreRecords Confinement StoragePaths.

Lemma rename_throw src dst d e d1 :
  rename src dst d = (Throw e, d1) -> files d1 = files d.
Proof.
  unfold rename. cbn [files touch].
  destruct (files d !! src); [|by intros [= _ <-]].
  destruct (negb _); [by intros [= _ <-]|].
  destruct (is_dir _ dst); [by intros [= _ <-]|done].
Qed.

Lemma auditFile_not_under (q : Path) siteId :
  length q = 3%nat -> q <> auditFile siteId ->
  forall p, p ∈ [q] -> ~ auditFile siteId `prefix_of` p.
Proof.
  intros Hl Hne p ->%list_elem_of_singleton Hpre.
  apply prefix_same_length in Hpre; [done|by rewrite auditFile_length].
Qed.

(** X29.  A save that fails does not damage the record: whenever
    [saveAudit] throws, at whatever step, the record's file holds what it
    held before. *)
Theorem saveAudit_failure_keeps_record J siteId v d e :
  (saveAudit J siteId v d).1 = Throw e ->
  files (saveAudit J siteId v d).2 !! auditFile siteId = files d !! auditFile siteId.
Proof.
  unfold saveAudit, fs_bind.
  assert (Hdir : forall p, p ∈ [AUDITS_DIR] -> ~ auditFile siteId `prefix_of` p).
  { intros p ->%list_elem_of_singleton [k Hk]. apply (f_equal length) in Hk.
    rewrite length_app, auditFile_length in Hk. simpl in Hk. lia. }
  pose proof (proj2 (confined_ensureDir [AUDITS_DIR] ltac:(by left) d)
                (auditFile siteId) Hdir) as He.
  destruct (ensureDir d) as [[[]|e0] d1]; cbn [fst snd] in He |- *; [|done].
  pose proof (proj2 (confined_writeFile [tmpFile siteId] (tmpFile siteId)
                       (JSON_stringify J v) ltac:(by left) d1)
                (auditFile siteId)
                (auditFile_not_under _ siteId (tmpFile_length siteId)
                   (tmpFile_ne_auditFile siteId))) as Hw.
  destruct (writeFile (tmpFile siteId) (JSON_stringify J v) d1) as [[[]|e1] d2];
    cbn [fst snd] in Hw |- *; [|by rewrite Hw, He].
  destruct (rename (tmpFile siteId) (auditFile siteId) d2) as [[[]|e2] d3] eqn:Hr;
    cbn [fst snd]; [discriminate|].
  intros _. by rewrite (rename_throw _ _ _ _ _ Hr), Hw, He.
Qed.

Lemma saveAudit_failure_keeps_record_witness :
  let d := disk_of {[ ["data"] := File "not a directory";
                      auditFile "example.com" := File "{}" ]} in
  (saveAudit SampleJson.codec "example.com" SampleStore.recB d).1 = Throw "ENOTDIR" /\
  files (saveAudit SampleJson.codec "example.com" SampleStore.recB d).2
    !! auditFile "example.com" = files d !! auditFile "example.com".
Proof.
  intros d. split; [vm_compute; reflexivity|].
  apply (saveAudit_failure_keeps_record SampleJson.codec "example.com" SampleStore.recB d
           "ENOTDIR").
  vm_compute. reflexivity.
Defined.

End FailedSave.

Module EngineFacts.

(** A name that no built-in prototype defines is read as an own property. *)
Lemma js_get_own E v k :
  (forall p, E p k = false) -> js_get E v k = Plain <$> js_own v k.
Proof.
  intros Hno. unfold js_get. destruct (js_own v k); [done|].
  replace (List.find (fun p => E p k) (prototypes v)) with (@None Proto); [done|].
  symmetry. induction (prototypes v) as [|p ps IH]; simpl; [done|].
  by rewrite Hno.
Qed.

(** An own property hides an inherited one of the same name. *)
Lemma js_get_shadows E v k x : js_own v k = Some x -> js_get E v k = Some (Plain x).
Proof. intros H. unfold js_get. by rewrite H. Qed.

(** None of the property names that the sources write out is a member of
    a built-in prototype of the sample engine, so that reading them as own
    properties loses nothing there. *)
Lemma writtenNames_own k v :
  k ∈ SampleEngine.writtenNames ->
  js_get SampleEngine.engine v k = Plain <$> js_own v k.
Proof.
  intros Hk. apply js_get_own. intros p.
  repeat (apply elem_of_cons in Hk as [->|Hk]; [by destruct p|]).
  by apply elem_of_nil in Hk.
Qed.

End EngineFacts.
